(** * Partially-Integrated-Autonomy: scheduling and orchestration core

    A shallow embedding of the Python sources
    [agents/Health.py], [BaseAgent.py], [core/delegation_tree.py],
    [core/orchestrator.py], [core/command_center.py] and [core/registry.py],
    together with the properties the specification states about them.

    Conventions of the embedding.
    - Python [int] is [Z]; Python [str] is [string]; a [dict] whose iteration
      order is observed (the agent registry) is an association list, a [dict]
      only looked up by key is a [gmap].
    - Python [float] is the IEEE 754 double, Rocq's primitive [float]: the
      arithmetic of the sources is kept operation by operation, each one
      rounded as the machine rounds it, and comparisons of scores are the
      comparisons of doubles.
    - A call either returns or raises: [outcome A] keeps the two apart, and a
      [try/except Exception] of the source is a [match] on [Raises]. *)

From Stdlib Require Import ZArith List Lia Floats Permutation.
From stdpp Require Import gmap strings list fin_maps.
Import ListNotations.

Open Scope Z_scope.

(** ** Exceptions and outcomes *)

(** The exception classes the modelled code can raise: the built-in ones
    and the classes of [core/exceptions.py] that the modelled code uses. *)
Inductive exn : Type :=
| IndexError
| ZeroDivisionError
| OverflowError (msg : string)
| ValueError (msg : string)
| TaskExecutionError (msg : string)
| AccessDeniedError (msg : string)
| DataIntegrityError (msg : string).

Inductive outcome (A : Type) : Type :=
| Returns (a : A)
| Raises (e : exn).
Arguments Returns {A} a.
Arguments Raises {A} e.

(** ** Python's numbers *)

Module PyFloat.

(** An [int] as the pair of sign and magnitude that the rounding functions
    of the Standard Library take. *)
Definition exact (z : Z) : spec_float :=
  match z with
  | Z0 => S754_zero false
  | Zpos p => S754_finite false p 0
  | Zneg p => S754_finite true p 0
  end.

(** The double nearest to an integer (ties to even), infinite when the
    integer is beyond the range of doubles. *)
Definition nearest (z : Z) : float :=
  SF2Prim (binary_normalize prec emax z 0 false).

(** The double nearest to the quotient of two integers, the divisor not
    being zero. *)
Definition quotient (a b : Z) : float :=
  SF2Prim (SFdiv prec emax (exact a) (exact b)).

(** The conversion of an [int] that meets a [float] in an arithmetic
    operation: it raises where there is no double in range. *)
Definition of_int (z : Z) : outcome float :=
  if PrimFloat.is_infinity (nearest z)
  then Raises (OverflowError "int too large to convert to float")
  else Returns (nearest z).

(** [a / b] on two [int]s, true division: the correctly rounded quotient;
    it raises on a zero divisor and on a quotient beyond the range. *)
Definition int_truediv (a b : Z) : outcome float :=
  if b =? 0 then Raises ZeroDivisionError
  else if PrimFloat.is_infinity (quotient a b)
       then Raises (OverflowError
                      "integer division result too large for a float")
       else Returns (quotient a b).

(** [x > y] on two [float]s. *)
Definition gt (x y : float) : bool := PrimFloat.ltb y x.

(** The literals [0.1] and [10] (an [int] that meets a [float]). *)
Definition tenth : float := 0x1.999999999999ap-4%float.
Definition ten : float := 10%float.

End PyFloat.

(** ** agents/Health.py *)

Module Health.

(** [collections.deque(..., maxlen=n)]: the samples oldest first, and the
    bound.  The list is not assumed non-empty: a test of the repository
    empties the window on purpose. *)
Record HealthHistory : Type := mkHealthHistory
  { health_scores : list float;
    maxlen : nat }.

(** [deque.append] on a bounded deque: a full deque drops its oldest item;
    a deque of bound 0 stays empty. *)
Definition deque_append (n : nat) (l : list float) (x : float)
    : list float :=
  match n with
  | O => []
  | S _ => if (length l <? n)%nat then l ++ [x] else tl l ++ [x]
  end.

(** [deque(iterable, maxlen=n)]: only the last [n] items are kept. *)
Definition deque_of (n : nat) (l : list float) : list float :=
  fold_left (deque_append n) l [].

(** [HealthHistory.__init__(window_size=10, initial_health=1.0)] *)
Definition init (window_size : nat) (initial_health : float)
    : HealthHistory :=
  {| health_scores := deque_of window_size (repeat initial_health window_size);
     maxlen := window_size |}.

Definition default : HealthHistory := init 10 1%float.

(** [add_score] *)
Definition add_score (h : HealthHistory) (score : float) : HealthHistory :=
  {| health_scores := deque_append (maxlen h) (health_scores h) score;
     maxlen := maxlen h |}.

(** [health_scores.clear()], as the repository's test empties the window. *)
Definition clear (h : HealthHistory) : HealthHistory :=
  {| health_scores := []; maxlen := maxlen h |}.

(** [sum(self.health_scores)] over floats: the additions are made from the
    left, each one rounded, starting from the integer 0 (which leaves the
    first sample as it is).  Interpreters from 3.12 on compensate the
    rounding error of the additions; no statement below depends on the sum
    of a non-empty window. *)
Definition py_sum (l : list float) : float :=
  fold_left PrimFloat.add l 0%float.

(** [get_average]: [sum(scores) / len(scores)]; dividing by a length of
    zero raises. *)
Definition get_average (h : HealthHistory) : outcome float :=
  match length (health_scores h) with
  | O => Raises ZeroDivisionError
  | S _ as n =>
      Returns (py_sum (health_scores h) / PyFloat.nearest (Z.of_nat n))%float
  end.

(** One turn of the loop body [ewma = alpha * score + (1 - alpha) * ewma]. *)
Definition ewma_step (alpha : float) (ewma score : float) : float :=
  (alpha * score + (1 - alpha) * ewma)%float.

(** [get_ewma]: [ewma = self.health_scores[0]] raises on an empty deque;
    the [for] loop then runs over the whole deque, its first item
    included. *)
Definition get_ewma (h : HealthHistory) (alpha : float) : outcome float :=
  match health_scores h with
  | [] => Raises IndexError
  | s0 :: _ => Returns (fold_left (ewma_step alpha) (health_scores h) s0)
  end.

(** The default argument [alpha=0.1]. *)
Definition default_alpha : float := PyFloat.tenth.

End Health.

(** ** core/task.py *)

Module Task.

(** Opaque payloads ([details], [result]) are kept as strings. *)
Definition Payload : Type := string.

(** Modelled from the spec: the class [Task] of [core/task.py], which is not
    among the sources.  The attributes are those of the data model: a unique
    id, a capability tag, an opaque payload, an integer priority, an optional
    deadline, the status, the retry bookkeeping, the result (present only
    when completed; [_execute_task] may itself return [None]), the error, the
    parent link, the ordered child ids and the assigned agent.  Timestamps
    are integers. *)
Record Task : Type := mkTask
  { id : string;
    type : string;
    details : Payload;
    priority : Z;
    deadline : option Z;
    status : string;
    attempt_count : Z;
    max_retries : Z;
    result : option (option Payload);
    error : option exn;
    parent_id : option string;
    children : list string;
    assigned_to : option string }.

Definition set_status (t : Task) (s : string) : Task :=
  {| id := id t; type := type t; details := details t; priority := priority t;
     deadline := deadline t; status := s; attempt_count := attempt_count t;
     max_retries := max_retries t; result := result t; error := error t;
     parent_id := parent_id t; children := children t;
     assigned_to := assigned_to t |}.

Definition set_priority (t : Task) (p : Z) : Task :=
  {| id := id t; type := type t; details := details t; priority := p;
     deadline := deadline t; status := status t;
     attempt_count := attempt_count t; max_retries := max_retries t;
     result := result t; error := error t; parent_id := parent_id t;
     children := children t; assigned_to := assigned_to t |}.

Definition set_attempt_count (t : Task) (n : Z) : Task :=
  {| id := id t; type := type t; details := details t; priority := priority t;
     deadline := deadline t; status := status t; attempt_count := n;
     max_retries := max_retries t; result := result t; error := error t;
     parent_id := parent_id t; children := children t;
     assigned_to := assigned_to t |}.

Definition set_assigned_to (t : Task) (a : option string) : Task :=
  {| id := id t; type := type t; details := details t; priority := priority t;
     deadline := deadline t; status := status t;
     attempt_count := attempt_count t; max_retries := max_retries t;
     result := result t; error := error t; parent_id := parent_id t;
     children := children t; assigned_to := a |}.

Definition set_children (t : Task) (c : list string) : Task :=
  {| id := id t; type := type t; details := details t; priority := priority t;
     deadline := deadline t; status := status t;
     attempt_count := attempt_count t; max_retries := max_retries t;
     result := result t; error := error t; parent_id := parent_id t;
     children := c; assigned_to := assigned_to t |}.

(** Modelled from the spec: [create(type, details, priority, deadline?,
    max_retries=3)]; the id is generated at creation and handed in here. *)
Definition create (fresh_id ty : string) (det : Payload) (prio : Z)
    (dl : option Z) (retries : Z) : Task :=
  {| id := fresh_id; type := ty; details := det; priority := prio;
     deadline := dl; status := "pending"; attempt_count := 0;
     max_retries := retries; result := None; error := None;
     parent_id := None; children := []; assigned_to := None |}.

(** Modelled from the spec: [update_status(new_status)], an unconditional
    write. *)
Definition update_status (t : Task) (new_status : string) : Task :=
  set_status t new_status.

(** Modelled from the spec: [increment_attempt()]. *)
Definition increment_attempt (t : Task) : Task :=
  set_attempt_count t (attempt_count t + 1).

(** Modelled from the spec: [can_retry() -> attempt_count < max_retries]. *)
Definition can_retry (t : Task) : bool := attempt_count t <? max_retries t.

(** Modelled from the spec: [set_result(value)] also clears any prior
    error. *)
Definition set_result (t : Task) (v : option Payload) : Task :=
  {| id := id t; type := type t; details := details t; priority := priority t;
     deadline := deadline t; status := status t;
     attempt_count := attempt_count t; max_retries := max_retries t;
     result := Some v; error := None; parent_id := parent_id t;
     children := children t; assigned_to := assigned_to t |}.

(** Modelled from the spec: [set_error(err)]. *)
Definition set_error (t : Task) (e : exn) : Task :=
  {| id := id t; type := type t; details := details t; priority := priority t;
     deadline := deadline t; status := status t;
     attempt_count := attempt_count t; max_retries := max_retries t;
     result := result t; error := Some e; parent_id := parent_id t;
     children := children t; assigned_to := assigned_to t |}.

(** Modelled from the spec: [add_child(id)]; the children are an ordered
    set, so an id already present is not added again. *)
Definition add_child (t : Task) (c : string) : Task :=
  if existsb (String.eqb c) (children t) then t
  else set_children t (children t ++ [c]).

(** Modelled from the spec: [is_overdue() -> deadline is set and now >
    deadline]. *)
Definition is_overdue (t : Task) (now : Z) : bool :=
  match deadline t with
  | Some d => d <? now
  | None => false
  end.

(** Modelled from the spec: [to_dict] and [from_dict] of [core/task.py],
    which round-trip every attribute exactly; the dictionary is the record
    of the attributes. *)
Definition TaskDict : Type := Task.
Definition to_dict (t : Task) : TaskDict := t.
Definition from_dict (d : TaskDict) : Task := d.

End Task.

(** ** queue.PriorityQueue *)

Module PriorityQueue.

(** Python's library class, modelled by its contract: the entries
    [(key, task)] in the order they were put, [get] removing a least one.
    Modelled from the spec: among entries of equal key the one put first is
    returned first (the tuple comparison falls through to the order of
    [Task] objects, which [core/task.py] would define). *)
Definition t : Type := list (Z * Task.Task).

Definition new : t := [].

Definition empty (q : t) : bool :=
  match q with [] => true | _ :: _ => false end.

Definition put (q : t) (e : Z * Task.Task) : t := q ++ [e].

(** The least key of a non-empty queue. *)
Fixpoint min_key (k : Z) (q : t) : Z :=
  match q with
  | [] => k
  | (k', _) :: rest => min_key (Z.min k k') rest
  end.

(** Removes the first entry whose key is [k]. *)
Fixpoint remove_first (k : Z) (q : t) : option ((Z * Task.Task) * t) :=
  match q with
  | [] => None
  | (k', x) :: rest =>
      if k' =? k then Some ((k', x), rest)
      else match remove_first k rest with
           | Some (e, rest') => Some (e, (k', x) :: rest')
           | None => None
           end
  end.

(** [get()] on a queue already known to be non-empty ([None] stands for a
    call that would block). *)
Definition get (q : t) : option ((Z * Task.Task) * t) :=
  match q with
  | [] => None
  | (k, _) :: rest => remove_first (min_key k rest) q
  end.

(** The attribute [.queue], the list behind the queue.  The library keeps
    it as a binary heap; the contract above does not fix that order, and
    here the entries come in the order they were put.  General statements
    about [.queue] are made up to permutation. *)
Definition queue (q : t) : list (Z * Task.Task) := q.

End PriorityQueue.

(** ** BaseAgent.py *)

Module Agent.

(** Values stored in a message dictionary: [None] or a string. *)
Inductive value : Type :=
| VNone
| VStr (s : string).

(** A message is a [Dict]; its keys keep their insertion order. *)
Definition Message : Type := list (string * value).

(** [message.get(key)]: the value, or [None] when the key is absent. *)
Fixpoint dict_get (m : Message) (key : string) : option string :=
  match m with
  | [] => None
  | (k, v) :: rest =>
      if String.eqb k key
      then match v with VNone => None | VStr s => Some s end
      else dict_get rest key
  end.

(** An item of [skills]: a string, or an object of another class, which
    may carry an attribute [name] holding a string ([None]: no such
    attribute, or one that equals no string).  The constructor declares
    [skills: List[str]]; the orchestrator provides for both. *)
Inductive Skill : Type :=
| SkillStr (s : string)
| SkillObject (name : option string).

(** One entry of the audit log, as built by [log_activity]. *)
Record AuditEntry : Type := mkAuditEntry
  { timestamp : Z;
    agent_id : string;
    agent_role : string;
    event : string;
    task_id : option string;
    details : option string }.

(** The attributes set by [BaseAgent.__init__], and [capacity], which only
    subclasses set ([WebResearcher] sets 5) and the orchestrator reads with
    [getattr(agent, 'capacity', 10)]. *)
Record BaseAgent : Type := mkBaseAgent
  { id : string;
    role : string;
    skills : list Skill;
    audit_log : list AuditEntry;
    workload : Z;
    communication_channel : gmap string Message;
    priority_queue : PriorityQueue.t;
    access_level : Z;
    created_at : Z;
    last_active : Z;
    status : string;
    error_count : Z;
    health_history : Health.HealthHistory;
    capacity : option Z }.

(** [BaseAgent.__init__(role, skills, access_level=1)]; the uuid and the
    clock reading are handed in. *)
Definition init (fresh_id : string) (now : Z) (r : string)
    (sk : list Skill) (al : Z) : BaseAgent :=
  {| id := fresh_id; role := r; skills := sk; audit_log := []; workload := 0;
     communication_channel := ∅; priority_queue := PriorityQueue.new;
     access_level := al; created_at := now; last_active := now;
     status := "ready"; error_count := 0;
     health_history := Health.default; capacity := None |}.

Definition set_audit_log (a : BaseAgent) (l : list AuditEntry) : BaseAgent :=
  {| id := id a; role := role a; skills := skills a; audit_log := l;
     workload := workload a;
     communication_channel := communication_channel a;
     priority_queue := priority_queue a; access_level := access_level a;
     created_at := created_at a; last_active := last_active a;
     status := status a; error_count := error_count a;
     health_history := health_history a; capacity := capacity a |}.

Definition set_workload (a : BaseAgent) (w : Z) : BaseAgent :=
  {| id := id a; role := role a; skills := skills a;
     audit_log := audit_log a; workload := w;
     communication_channel := communication_channel a;
     priority_queue := priority_queue a; access_level := access_level a;
     created_at := created_at a; last_active := last_active a;
     status := status a; error_count := error_count a;
     health_history := health_history a; capacity := capacity a |}.

Definition set_communication_channel (a : BaseAgent)
    (c : gmap string Message) : BaseAgent :=
  {| id := id a; role := role a; skills := skills a;
     audit_log := audit_log a; workload := workload a;
     communication_channel := c;
     priority_queue := priority_queue a; access_level := access_level a;
     created_at := created_at a; last_active := last_active a;
     status := status a; error_count := error_count a;
     health_history := health_history a; capacity := capacity a |}.

Definition set_priority_queue (a : BaseAgent) (q : PriorityQueue.t)
    : BaseAgent :=
  {| id := id a; role := role a; skills := skills a;
     audit_log := audit_log a; workload := workload a;
     communication_channel := communication_channel a;
     priority_queue := q; access_level := access_level a;
     created_at := created_at a; last_active := last_active a;
     status := status a; error_count := error_count a;
     health_history := health_history a; capacity := capacity a |}.

Definition set_last_active (a : BaseAgent) (now : Z) : BaseAgent :=
  {| id := id a; role := role a; skills := skills a;
     audit_log := audit_log a; workload := workload a;
     communication_channel := communication_channel a;
     priority_queue := priority_queue a; access_level := access_level a;
     created_at := created_at a; last_active := now;
     status := status a; error_count := error_count a;
     health_history := health_history a; capacity := capacity a |}.

Definition set_error_count (a : BaseAgent) (n : Z) : BaseAgent :=
  {| id := id a; role := role a; skills := skills a;
     audit_log := audit_log a; workload := workload a;
     communication_channel := communication_channel a;
     priority_queue := priority_queue a; access_level := access_level a;
     created_at := created_at a; last_active := last_active a;
     status := status a; error_count := n;
     health_history := health_history a; capacity := capacity a |}.

(** [log_activity(event, task_id, details=None)]: appends one entry. *)
Definition log_activity (a : BaseAgent) (ev : string)
    (tid : option string) (det : option string) (now : Z) : BaseAgent :=
  set_audit_log a
    (audit_log a ++
     [{| timestamp := now; agent_id := id a; agent_role := role a;
         event := ev; task_id := tid; details := det |}]).

(** [receive_task(task)].  No statement of the [try] block raises in this
    model, so the handler [return False] of the base class is not reached;
    the orchestrator below takes the method as a parameter, as subclasses
    may override it. *)
Definition receive_task (a : BaseAgent) (task : Task.Task) (now : Z)
    : BaseAgent * Task.Task * bool :=
  let task1 := Task.set_assigned_to task (Some (id a)) in
  let a1 := set_priority_queue a
              (PriorityQueue.put (priority_queue a)
                 (- Task.priority task1, task1)) in
  let a2 := log_activity a1 "TASK_RECEIVED" (Some (Task.id task1)) None now in
  let a3 := set_workload a2 (workload a2 + 1) in
  let a4 := set_last_active a3 now in
  (a4, task1, true).

(** The text of an exception, [str(e)]. *)
Definition str_exn (e : exn) : string :=
  match e with
  | IndexError => "deque index out of range"
  | ZeroDivisionError => "division by zero"
  | OverflowError m => m
  | ValueError m => m
  | TaskExecutionError m => m
  | AccessDeniedError m => m
  | DataIntegrityError m => m
  end.

(** What the statements of [process_task] that concern the agent alone
    hand back: the agent after them, the task worked on (if any) after its
    mutation, the value returned, and the arguments of the call
    [communicate_result(task, result)] made on success.  That call goes
    through the registry, and may come back to the agent itself: the whole
    method, the call included, is [Messaging.process_task] below. *)
Record ProcessResult : Type := mkProcessResult
  { agent : BaseAgent;
    task : option Task.Task;
    returned : option Task.Payload;
    notified : option (Task.Task * option Task.Payload) }.

Section Execution.

(** [_execute_task], implemented by subclasses: it returns a result or
    raises; what else a subclass does in it lies outside the core. *)
Variable _execute_task : BaseAgent -> Task.Task -> outcome (option Task.Payload).

(** [process_task()], the call [communicate_result(task, result)] apart. *)
Definition process_task (a : BaseAgent) (now : Z) : ProcessResult :=
  if PriorityQueue.empty (priority_queue a) then
    {| agent := a; task := None; returned := None; notified := None |}
  else
    match PriorityQueue.get (priority_queue a) with
    | None => {| agent := a; task := None; returned := None; notified := None |}
    | Some ((_, task0), q) =>
        let a1 := set_priority_queue a q in
        let a2 := set_workload a1 (Z.max 0 (workload a1 - 1)) in
        let task1 := Task.update_status task0 "in_progress" in
        let task2 := Task.increment_attempt task1 in
        match _execute_task a2 task2 with
        | Returns res =>
            let task3 := Task.set_result task2 res in
            let task4 := Task.update_status task3 "completed" in
            let a3 := log_activity a2 "TASK_COMPLETED"
                        (Some (Task.id task4)) None now in
            let a4 := set_last_active a3 now in
            {| agent := a4; task := Some task4; returned := res;
               notified := Some (task4, res) |}
        | Raises e =>
            let a3 := set_error_count a2 (error_count a2 + 1) in
            let task3 := Task.set_error task2 e in
            if Task.can_retry task3 then
              let task4 := Task.update_status task3 "retry_pending" in
              let new_priority := Z.max 1 (Task.priority task4 - 1) in
              let a4 := set_priority_queue a3
                          (PriorityQueue.put (priority_queue a3)
                             (- new_priority, task4)) in
              let a5 := set_workload a4 (workload a4 + 1) in
              let a6 := log_activity a5 "TASK_FAILED"
                          (Some (Task.id task4)) (Some (str_exn e)) now in
              {| agent := a6; task := Some task4; returned := None;
                 notified := None |}
            else
              let task4 := Task.update_status task3 "failed" in
              let a4 := log_activity a3 "TASK_FAILED"
                          (Some (Task.id task4)) (Some (str_exn e)) now in
              {| agent := a4; task := Some task4; returned := None;
                 notified := None |}
        end
    end.

End Execution.

(** [reset()]: identity and configuration are kept. *)
Definition reset (a : BaseAgent) (now : Z) : BaseAgent * bool :=
  ({| id := id a; role := role a; skills := skills a; audit_log := [];
      workload := 0; communication_channel := ∅;
      priority_queue := PriorityQueue.new; access_level := access_level a;
      created_at := created_at a; last_active := now; status := "ready";
      error_count := 0; health_history := health_history a;
      capacity := capacity a |}, true).

(** The agents of the registry, keyed by id, in insertion order
    ([AgentRegistry.agents], a [dict]). *)
Abbreviation Registry := (list (string * BaseAgent)).

(** [AgentRegistry.get_agent(agent_id)] *)
Fixpoint get_agent (reg : Registry) (agent_id : string) : option BaseAgent :=
  match reg with
  | [] => None
  | (k, a) :: rest => if String.eqb k agent_id then Some a else get_agent rest agent_id
  end.

Section Messages.

(** The rendering [f"{message}"] of a dictionary inside an f-string. *)
Variable repr_message : Message -> string.

(** The [try] block of [receive_message]: the agent as the block leaves it,
    and how the block ends. *)
Definition receive_message_try (reg : Registry) (self : BaseAgent)
    (sender_id : string) (message : Message) (now : Z)
    : BaseAgent * outcome bool :=
  match get_agent reg sender_id with
  | None => (self, Returns false)
  | Some sender =>
      if access_level sender <? access_level self then
        (log_activity self "ACCESS_DENIED" None
           (Some ("From: " ++ sender_id ++ ", Message: "
                  ++ repr_message message)%string) now,
         Raises (AccessDeniedError
                   ("Agent " ++ sender_id
                    ++ " has insufficient access level")%string))
      else
        let a1 := set_communication_channel self
                    (<[sender_id := message]> (communication_channel self)) in
        let a2 := log_activity a1 "MESSAGE_RECEIVED"
                    (dict_get message "task_id")
                    (Some ("From: " ++ sender_id)%string) now in
        (set_last_active a2 now, Returns true)
  end.

(** [receive_message(sender_id, message)]: the [try] block under its
    handler [except Exception as e: ...; return False]. *)
Definition receive_message (reg : Registry) (self : BaseAgent)
    (sender_id : string) (message : Message) (now : Z)
    : BaseAgent * outcome bool :=
  match receive_message_try reg self sender_id message now with
  | (a, Returns b) => (a, Returns b)
  | (a, Raises _) => (a, Returns false)
  end.

End Messages.

(** The dictionary built by [to_dict].  A [datetime] and its ISO string
    determine each other, so the two time stamps stand for their strings. *)
Record AgentDict : Type := mkAgentDict
  { d_id : string;
    d_role : string;
    d_skills : list Skill;
    d_audit_log : list AuditEntry;
    d_workload : Z;
    d_communication_channel : gmap string Message;
    d_access_level : Z;
    d_created_at : Z;
    d_last_active : Z;
    d_status : string;
    d_error_count : Z;
    d_priority_queue_contents : list (Z * Task.TaskDict);
    d_health_history : list float }.

(** [to_dict()] *)
Definition to_dict (a : BaseAgent) : AgentDict :=
  {| d_id := id a; d_role := role a; d_skills := skills a;
     d_audit_log := audit_log a; d_workload := workload a;
     d_communication_channel := communication_channel a;
     d_access_level := access_level a; d_created_at := created_at a;
     d_last_active := last_active a; d_status := status a;
     d_error_count := error_count a;
     d_priority_queue_contents :=
       map (fun '(priority, task) => (- priority, Task.to_dict task))
           (PriorityQueue.queue (priority_queue a));
     d_health_history := Health.health_scores (health_history a) |}.

(** [from_dict(data)]: a fresh agent is constructed, then overwritten. *)
Definition from_dict (fresh_id : string) (now : Z) (data : AgentDict)
    : BaseAgent :=
  let agent0 := init fresh_id now (d_role data) (d_skills data)
                  (d_access_level data) in
  {| id := d_id data; role := role agent0; skills := skills agent0;
     audit_log := d_audit_log data; workload := d_workload data;
     communication_channel := d_communication_channel data;
     priority_queue :=
       fold_left
         (fun q '(priority, task_data) =>
            PriorityQueue.put q (priority, Task.from_dict task_data))
         (d_priority_queue_contents data) PriorityQueue.new;
     access_level := access_level agent0;
     created_at := d_created_at data; last_active := d_last_active data;
     status := d_status data; error_count := d_error_count data;
     health_history :=
       {| Health.health_scores :=
            Health.deque_of (Health.maxlen Health.default)
              (d_health_history data);
          Health.maxlen := Health.maxlen Health.default |};
     capacity := capacity agent0 |}.

End Agent.

(** ** core/registry.py *)

Module AgentRegistry.

(** [get_all_agents()]: a copy of the dictionary, in the same order. *)
Definition get_all_agents (reg : Agent.Registry) : Agent.Registry := reg.

(** [register(agent)]: a second agent under an id already present is
    refused. *)
Definition register (reg : Agent.Registry) (a : Agent.BaseAgent)
    : Agent.Registry * outcome unit :=
  match Agent.get_agent reg (Agent.id a) with
  | Some _ =>
      (reg, Raises (ValueError ("Agent with ID " ++ Agent.id a
                                ++ " already registered.")%string))
  | None => (reg ++ [(Agent.id a, a)], Returns tt)
  end.

End AgentRegistry.

(** ** core/delegation_tree.py *)

Module DelegationTree.

Record DelegationTree : Type := mkDelegationTree
  { tasks : gmap string Task.Task;
    relationships : gmap string (list string) }.

(** [DelegationTree.__init__] *)
Definition init : DelegationTree := {| tasks := ∅; relationships := ∅ |}.

(** Truth value of an optional string, as [if parent_id:] takes it: [None]
    and the empty string are false. *)
Definition truthy (s : option string) : bool :=
  match s with
  | None => false
  | Some x => negb (String.eqb x "")
  end.

(** [add_task(task, parent_id=None)]: the tree as the call leaves it, and
    the id returned or the exception raised.  The statements are taken in
    the order of the source: the task is stored first, the parent is looked
    up afterwards. *)
Definition add_task (tree : DelegationTree) (task : Task.Task)
    (parent_id : option string) : DelegationTree * outcome string :=
  let tasks1 := <[Task.id task := task]> (tasks tree) in
  if truthy parent_id then
    let p := default ""%string parent_id in
    match tasks1 !! p with
    | None =>
        ({| tasks := tasks1; relationships := relationships tree |},
         Raises (DataIntegrityError
                   ("Parent task " ++ p ++ " not found")%string))
    | Some ptask =>
        let tasks2 := <[p := Task.add_child ptask (Task.id task)]> tasks1 in
        let rel1 := match relationships tree !! p with
                    | Some _ => relationships tree
                    | None => <[p := []]> (relationships tree)
                    end in
        let rel2 := <[p := default [] (rel1 !! p) ++ [Task.id task]]> rel1 in
        ({| tasks := tasks2;
            relationships := <[Task.id task := []]> rel2 |},
         Returns (Task.id task))
    end
  else
    ({| tasks := tasks1;
        relationships := <[Task.id task := []]> (relationships tree) |},
     Returns (Task.id task)).

(** [get_task(task_id)] *)
Definition get_task (tree : DelegationTree) (task_id : string)
    : option Task.Task :=
  tasks tree !! task_id.

(** [update_task_status(task_id, new_status)] *)
Definition update_task_status (tree : DelegationTree) (task_id : string)
    (new_status : string) : DelegationTree * outcome bool :=
  match tasks tree !! task_id with
  | None =>
      (tree, Raises (DataIntegrityError
                       ("Task " ++ task_id ++ " not found")%string))
  | Some t =>
      ({| tasks := <[task_id := Task.update_status t new_status]> (tasks tree);
          relationships := relationships tree |}, Returns true)
  end.

End DelegationTree.

(** ** core/orchestrator.py *)

Module Orchestrator.

Record TaskOrchestrator : Type := mkTaskOrchestrator
  { task_queue : PriorityQueue.t;
    agent_registry : Agent.Registry;
    retry_delay : Z;
    max_orchestrator_retries : Z }.

(** [TaskOrchestrator.__init__(agent_registry, retry_delay=5,
    max_orchestrator_retries=3)] *)
Definition init (reg : Agent.Registry) (delay retries : Z) : TaskOrchestrator :=
  {| task_queue := PriorityQueue.new; agent_registry := reg;
     retry_delay := delay; max_orchestrator_retries := retries |}.

Definition set_task_queue (o : TaskOrchestrator) (q : PriorityQueue.t)
    : TaskOrchestrator :=
  {| task_queue := q; agent_registry := agent_registry o;
     retry_delay := retry_delay o;
     max_orchestrator_retries := max_orchestrator_retries o |}.

Definition set_agent_registry (o : TaskOrchestrator) (reg : Agent.Registry)
    : TaskOrchestrator :=
  {| task_queue := task_queue o; agent_registry := reg;
     retry_delay := retry_delay o;
     max_orchestrator_retries := max_orchestrator_retries o |}.

(** [add_task(task)]: the key is the priority as stored. *)
Definition add_task (o : TaskOrchestrator) (task : Task.Task)
    : TaskOrchestrator :=
  set_task_queue o (PriorityQueue.put (task_queue o) (Task.priority task, task)).

(** The inner loop over [agent.skills]: a string matches when it equals
    the task's type, an object of another class when it has an attribute
    [name] that equals it. *)
Fixpoint skill_match (task_type : string) (skills : list Agent.Skill)
    : bool :=
  match skills with
  | [] => false
  | Agent.SkillStr agent_skill :: rest =>
      if String.eqb task_type agent_skill then true
      else skill_match task_type rest
  | Agent.SkillObject (Some name) :: rest =>
      if String.eqb task_type name then true
      else skill_match task_type rest
  | Agent.SkillObject None :: rest => skill_match task_type rest
  end.

(** [getattr(agent, 'capacity', 10)] *)
Definition capacity_of (a : Agent.BaseAgent) : Z :=
  match Agent.capacity a with
  | Some c => c
  | None => 10
  end.

(** The health score and the suitability score of one agent, the operands
    evaluated from the left: [health_score * 10], then the true division of
    two integers, which raises on a zero divisor, then the product of the
    access level and [0.1]. *)
Definition suitability_score (a : Agent.BaseAgent) : outcome float :=
  match Health.get_ewma (Agent.health_history a) Health.default_alpha with
  | Raises e => Raises e
  | Returns health_score =>
      let weighted := (health_score * PyFloat.ten)%float in
      match PyFloat.int_truediv (Agent.workload a) (capacity_of a) with
      | Raises e => Raises e
      | Returns load =>
          match PyFloat.of_int (Agent.access_level a) with
          | Raises e => Raises e
          | Returns level =>
              Returns (weighted - load + level * PyFloat.tenth)%float
          end
      end
  end.

(** The pair [(best_agent, best_score)] of the loop: the agent, when there
    is one, with its position in the snapshot and its key. *)
Definition Best : Type := option (nat * string * Agent.BaseAgent) * float.

(** [best_agent = None; best_score = -float('inf')] *)
Definition no_best : Best := (None, neg_infinity).

(** The loop [for agent in self.agent_registry.get_all_agents().values()],
    from position [i] of the snapshot on. *)
Fixpoint select_loop (task : Task.Task) (agents : Agent.Registry) (i : nat)
    (best : Best) : outcome Best :=
  match agents with
  | [] => Returns best
  | (k, a) :: rest =>
      if negb (skill_match (Task.type task) (Agent.skills a)) then
        select_loop task rest (S i) best
      else if capacity_of a <=? Agent.workload a then
        select_loop task rest (S i) best
      else
        match suitability_score a with
        | Raises e => Raises e
        | Returns s =>
            if PyFloat.gt s (snd best)
            then select_loop task rest (S i) (Some (i, k, a), s)
            else select_loop task rest (S i) best
        end
  end.

(** What one call of [_assign_task] did.  [offered] is the snapshot position
    of the agent whose [receive_task] was called, if any. *)
Inductive Step : Type :=
| QueueEmpty
| MissedDeadline (task : Task.Task)
| Assigned (offered : nat) (task : Task.Task)
| Requeued (offered : option nat) (task : Task.Task) (slept : Z)
| DeadLettered (offered : option nat) (task : Task.Task).

Definition offered_to (s : Step) : option nat :=
  match s with
  | QueueEmpty | MissedDeadline _ => None
  | Assigned i _ => Some i
  | Requeued o _ _ | DeadLettered o _ => o
  end.

(** [time.sleep(secs)] on an [int], as CPython answers it: a negative
    length raises [ValueError], a length whose count of nanoseconds does not
    fit 64 bits raises [OverflowError]; otherwise the call returns when the
    time has passed. *)
Definition sleep (secs : Z) : outcome unit :=
  if secs <? 0 then Raises (ValueError "sleep length must be non-negative")
  else if 9223372036 <? secs then
    Raises (OverflowError "timestamp too large to convert to C _PyTime_t")
  else Returns tt.

Section Assignment.

(** [agent.receive_task(task)], dispatched on the agent's class: the agent
    and the task as the call leaves them, and the flag returned. *)
Variable receive_task :
  Agent.BaseAgent -> Task.Task -> Z -> Agent.BaseAgent * Task.Task * bool.

(** [_assign_task()] at clock reading [now].  Where
    [time.sleep(self.retry_delay)] raises, it does so before the task is
    put back. *)
Definition _assign_task (o : TaskOrchestrator) (now : Z)
    : TaskOrchestrator * outcome Step :=
  if PriorityQueue.empty (task_queue o) then (o, Returns QueueEmpty)
  else
    match PriorityQueue.get (task_queue o) with
    | None => (o, Returns QueueEmpty)
    | Some ((_, task), q) =>
        let o1 := set_task_queue o q in
        if Task.is_overdue task now then
          (o1, Returns (MissedDeadline (Task.update_status task "failed_deadline")))
        else
          match select_loop task
                  (AgentRegistry.get_all_agents (agent_registry o1)) 0
                  no_best with
          | Raises e => (o1, Raises e)
          | Returns (Some (i, k, best_agent), _) =>
              let '(agent1, task1, accepted) := receive_task best_agent task now in
              let o2 := set_agent_registry o1
                          (<[i := (k, agent1)]> (agent_registry o1)) in
              if accepted then (o2, Returns (Assigned i task1))
              else
                let task2 := Task.set_priority task1
                               (Z.max 1 (Task.priority task1 - 1)) in
                let task3 := Task.set_attempt_count task2
                               (Task.attempt_count task2 + 1) in
                if max_orchestrator_retries o2 <? Task.attempt_count task3 then
                  (o2, Returns (DeadLettered (Some i)
                                  (Task.update_status task3 "failed")))
                else
                  (add_task o2 task3, Returns (Requeued (Some i) task3 0))
          | Returns (None, _) =>
              let task2 := Task.set_priority task
                             (Z.max 1 (Task.priority task - 1)) in
              let task3 := Task.set_attempt_count task2
                             (Task.attempt_count task2 + 1) in
              if max_orchestrator_retries o1 <? Task.attempt_count task3 then
                (o1, Returns (DeadLettered None
                                (Task.update_status task3 "failed")))
              else
                match sleep (retry_delay o1) with
                | Raises e => (o1, Raises e)
                | Returns _ =>
                    (add_task o1 task3,
                     Returns (Requeued None task3 (retry_delay o1)))
                end
          end
    end.

End Assignment.

End Orchestrator.

(** ** core/command_center.py *)

Module CommandCenter.

(** The three collaborators.  In the source the registry is the object the
    orchestrator also holds; no statement below reads it through both. *)
Record CommandCenter : Type := mkCommandCenter
  { agent_registry : Agent.Registry;
    delegation_tree : DelegationTree.DelegationTree;
    task_orchestrator : Orchestrator.TaskOrchestrator }.

Definition set_delegation_tree (cc : CommandCenter)
    (tree : DelegationTree.DelegationTree) : CommandCenter :=
  {| agent_registry := agent_registry cc; delegation_tree := tree;
     task_orchestrator := task_orchestrator cc |}.

(** [task.status in ("completed", "failed", "cancelled")] *)
Definition status_in_guard (s : string) : bool :=
  String.eqb s "completed" || String.eqb s "failed" || String.eqb s "cancelled".

(** The nested function [_cancel_recursive(tid)].  Python recursion has no
    structural measure here, so the depth is bounded by [fuel]; [None] means
    the bound was reached. *)
Fixpoint _cancel_recursive (fuel : nat) (tid : string)
    (tree : DelegationTree.DelegationTree)
    : option DelegationTree.DelegationTree :=
  match fuel with
  | O => None
  | S fuel' =>
      match DelegationTree.get_task tree tid with
      | None => Some tree
      | Some current_task =>
          let tree1 :=
            {| DelegationTree.tasks :=
                 <[tid := Task.update_status current_task "cancelled"]>
                   (DelegationTree.tasks tree);
               DelegationTree.relationships :=
                 DelegationTree.relationships tree |} in
          fold_left
            (fun acc child_id =>
               match acc with
               | None => None
               | Some tr => _cancel_recursive fuel' child_id tr
               end)
            (default [] (DelegationTree.relationships tree !! tid))
            (Some tree1)
      end
  end.

(** [cancel_task(task_id)]: the command center after the call and the flag
    returned, or [None] when the recursion bound was reached. *)
Definition cancel_task (fuel : nat) (cc : CommandCenter) (task_id : string)
    : option (CommandCenter * bool) :=
  match DelegationTree.get_task (delegation_tree cc) task_id with
  | None => Some (cc, false)
  | Some task =>
      if status_in_guard (Task.status task) then Some (cc, false)
      else
        match _cancel_recursive fuel task_id (delegation_tree cc) with
        | None => None
        | Some tree' => Some (set_delegation_tree cc tree', true)
        end
  end.

(** [get_task_status(task_id)] *)
Definition get_task_status (cc : CommandCenter) (task_id : string)
    : option string :=
  match DelegationTree.get_task (delegation_tree cc) task_id with
  | Some task => Some (Task.status task)
  | None => None
  end.

End CommandCenter.

(** * Specification-level definitions *)

(** The smoothing of the specification: seeded with the oldest sample
    [s0], folded over the remaining samples [rest] in chronological
    order. *)
Definition spec_ewma (alpha s0 : float) (rest : list float) : float :=
  fold_left (fun ewma score => alpha * score + (1 - alpha) * ewma)%float
    rest s0.

(** The entries of a queue in the order successive [get()] calls return
    them. *)
Fixpoint drain (n : nat) (q : PriorityQueue.t) : list (Z * Task.Task) :=
  match n with
  | O => []
  | S n' =>
      match PriorityQueue.get q with
      | None => []
      | Some (e, q') => e :: drain n' q'
      end
  end.

Definition dequeue_order (q : PriorityQueue.t) : list string :=
  map (fun e => Task.id (snd e)) (drain (length q) q).


(** * Delegation-tree notions used by the statements *)

(** The terminal statuses of the task state machine. *)
Definition terminal (s : string) : Prop :=
  s = "completed"%string \/ s = "failed"%string \/ s = "cancelled"%string
  \/ s = "failed_deadline"%string.

(** [descendant tree a d]: [d] is [a] itself or is reached from [a] along
    the adjacency map, through tasks present in the tree. *)
Inductive descendant (tree : DelegationTree.DelegationTree)
    : string -> string -> Prop :=
| descendant_self (tid : string) :
    is_Some (DelegationTree.tasks tree !! tid) ->
    descendant tree tid tid
| descendant_child (tid : string) (cs : list string) (c d : string) :
    is_Some (DelegationTree.tasks tree !! tid) ->
    DelegationTree.relationships tree !! tid = Some cs ->
    c ∈ cs ->
    descendant tree c d ->
    descendant tree tid d.

(** The adjacency map is that of a forest: some rank decreases along every
    parent-to-child edge. *)
Definition ranked (rank : string -> nat)
    (tree : DelegationTree.DelegationTree) : Prop :=
  forall (p : string) (cs : list string) (c : string),
    DelegationTree.relationships tree !! p = Some cs -> c ∈ cs ->
    (rank c < rank p)%nat.

(** What [_cancel_recursive] may do to a tree: the adjacency map and the
    set of tasks stay, and a task is either left alone or has its status
    set to ["cancelled"]. *)
Definition only_cancels (tr tr' : DelegationTree.DelegationTree) : Prop :=
  DelegationTree.relationships tr' = DelegationTree.relationships tr
  /\ (forall x, DelegationTree.tasks tr !! x = None ->
                DelegationTree.tasks tr' !! x = None)
  /\ (forall x t, DelegationTree.tasks tr !! x = Some t ->
        DelegationTree.tasks tr' !! x = Some t
        \/ DelegationTree.tasks tr' !! x
           = Some (Task.update_status t "cancelled")).

Definition is_cancelled (tr : DelegationTree.DelegationTree) (d : string)
    : Prop :=
  exists t, DelegationTree.tasks tr !! d = Some t
            /\ Task.status t = "cancelled"%string.

(** What a successful run from [tid] achieves. *)
Definition cancels_from (tr : DelegationTree.DelegationTree) (tid : string)
    (tr' : DelegationTree.DelegationTree) : Prop :=
  only_cancels tr tr' /\ forall d, descendant tr tid d -> is_cancelled tr' d.

(** * Runs of one agent *)

(** The calls a client makes on one agent. *)
Inductive AgentOp : Type :=
| OpReceiveTask (task : Task.Task) (now : Z)
| OpProcessTask (now : Z)
| OpReset (now : Z).

Section Runs.

Variable _execute_task :
  Agent.BaseAgent -> Task.Task -> outcome (option Task.Payload).

Definition apply_op (a : Agent.BaseAgent) (o : AgentOp) : Agent.BaseAgent :=
  match o with
  | OpReceiveTask task now => fst (fst (Agent.receive_task a task now))
  | OpProcessTask now => Agent.agent (Agent.process_task _execute_task a now)
  | OpReset now => fst (Agent.reset a now)
  end.

(** The states an agent goes through: the one it starts in, then the one
    after each call. *)
Fixpoint states (a : Agent.BaseAgent) (ops : list AgentOp)
    : list Agent.BaseAgent :=
  match ops with
  | [] => [a]
  | o :: rest => a :: states (apply_op a o) rest
  end.

End Runs.

(** * Assignment notions used by the statements *)

(** The capacity of an agent in the words of the specification: the
    configured one, 10 when unset. *)
Definition spec_capacity (a : Agent.BaseAgent) : Z :=
  match Agent.capacity a with
  | Some c => c
  | None => 10
  end.

(** A candidate for a task, in the words of the specification: the skills
    contain the task's type (a string), and the workload is strictly below
    the capacity. *)
Definition spec_candidate (task : Task.Task) (a : Agent.BaseAgent) : Prop :=
  In (Agent.SkillStr (Task.type task)) (Agent.skills a)
  /\ Agent.workload a < spec_capacity a.

(** A candidate as the code takes it: the task's type is among the skills
    as a string or as the name of a skill object, and the workload is
    strictly below the capacity. *)
Definition candidate (task : Task.Task) (a : Agent.BaseAgent) : Prop :=
  (In (Agent.SkillStr (Task.type task)) (Agent.skills a)
   \/ In (Agent.SkillObject (Some (Task.type task))) (Agent.skills a))
  /\ Agent.workload a < spec_capacity a.

(** The smoothed health of an agent, [get_ewma()] with its default alpha. *)
Definition health_ewma (a : Agent.BaseAgent) : float :=
  match Health.get_ewma (Agent.health_history a) Health.default_alpha with
  | Returns h => h
  | Raises _ => nan
  end.

(** The score of the specification,
    [health_ewma * 10 - workload / capacity + access_level * 0.1], in
    doubles. *)
Definition spec_score (a : Agent.BaseAgent) : float :=
  (health_ewma a * 10
   - PyFloat.quotient (Agent.workload a) (spec_capacity a)
   + PyFloat.nearest (Agent.access_level a) * 0x1.999999999999ap-4)%float.

(** The state of an agent in normal operation: the workload is not
    negative, the health window is not empty, and the score is a number
    above minus infinity whose integer operands have doubles in range. *)
Definition sound (a : Agent.BaseAgent) : Prop :=
  0 <= Agent.workload a
  /\ Health.health_scores (Agent.health_history a) <> []
  /\ PrimFloat.is_infinity
       (PyFloat.quotient (Agent.workload a) (spec_capacity a)) = false
  /\ PrimFloat.is_infinity (PyFloat.nearest (Agent.access_level a)) = false
  /\ PrimFloat.ltb neg_infinity (spec_score a) = true.

(** [chosen task reg i k a]: the agent [a], stored under key [k] at position
    [i] of the snapshot, is a candidate of greatest score, and the first of
    these in the order of the snapshot.  The scores are compared as doubles
    are. *)
Definition chosen (task : Task.Task) (reg : Agent.Registry) (i : nat)
    (k : string) (a : Agent.BaseAgent) : Prop :=
  reg !! i = Some (k, a)
  /\ candidate task a
  /\ forall j kj aj, reg !! j = Some (kj, aj) -> candidate task aj ->
       PrimFloat.leb (spec_score aj) (spec_score a) = true
       /\ ((j < i)%nat ->
           PrimFloat.ltb (spec_score aj) (spec_score a) = true).

(** The state of the selection loop after the agents [pre]. *)
Definition best_of (task : Task.Task) (pre : Agent.Registry)
    (best : Orchestrator.Best) : Prop :=
  match best with
  | (None, s) =>
      s = neg_infinity
      /\ forall j k a, pre !! j = Some (k, a) -> ~ candidate task a
  | (Some (i, k, a), s) =>
      s = spec_score a
      /\ PrimFloat.ltb neg_infinity s = true
      /\ chosen task pre i k a
  end.

(** * Concrete inputs *)

Module Examples.

(** A rendering of message dictionaries, for the examples. *)
Definition repr_message (m : Agent.Message) : string :=
  String.concat ", " (map fst m).

(** Two registered agents: a sender of access level 1 and a receiver of
    access level 2. *)
Definition sender : Agent.BaseAgent := Agent.init "agent-1" 0 "worker" [Agent.SkillStr "x"] 1.
Definition receiver : Agent.BaseAgent := Agent.init "agent-2" 0 "lead" [Agent.SkillStr "x"] 2.
Definition registry : Agent.Registry := [("agent-1", sender); ("agent-2", receiver)].
Definition message : Agent.Message :=
  [("task_id", Agent.VStr "t1"); ("result", Agent.VStr "done")].

(** Tasks of priority 5 and 1. *)
Definition task5 : Task.Task := Task.create "t5" "x" "" 5 None 3.
Definition task1 : Task.Task := Task.create "t1" "x" "" 1 None 3.

(** An agent that received [task5], then [task1]. *)
Definition busy_agent : Agent.BaseAgent :=
  let '(a1, _, _) := Agent.receive_task sender task5 1 in
  let '(a2, _, _) := Agent.receive_task a1 task1 2 in
  a2.

(** A tree holding one task whose deadline was missed. *)
Definition late_task : Task.Task :=
  Task.update_status (Task.create "t9" "x" "" 5 (Some 10) 3) "failed_deadline".
Definition late_tree : DelegationTree.DelegationTree :=
  fst (DelegationTree.add_task DelegationTree.init late_task None).
Definition late_center : CommandCenter.CommandCenter :=
  {| CommandCenter.agent_registry := registry;
     CommandCenter.delegation_tree := late_tree;
     CommandCenter.task_orchestrator := Orchestrator.init registry 5 3 |}.

(** An execution body that fails on tasks of type ["x"]. *)
Definition flaky_execute (a : Agent.BaseAgent) (t : Task.Task)
    : outcome (option Task.Payload) :=
  if String.eqb (Task.type t) "x"
  then Raises (TaskExecutionError "boom")
  else Returns (Some "ok"%string).

(** An orchestrator over [registry] with [task5] pending: both agents have
    the skill, the second has the higher access level. *)
Definition orchestrator : Orchestrator.TaskOrchestrator :=
  Orchestrator.add_task (Orchestrator.init registry 5 3) task5.

(** A task of priority 5 whose type no registered agent has, and an
    orchestrator with it pending. *)
Definition task_y : Task.Task := Task.create "ty" "y" "" 5 None 3.
Definition orchestrator_y : Orchestrator.TaskOrchestrator :=
  Orchestrator.add_task (Orchestrator.init registry 5 3) task_y.

(** Two agents of equal score, and an orchestrator over them. *)
Definition twin : Agent.BaseAgent := Agent.init "agent-3" 0 "worker" [Agent.SkillStr "x"] 1.
Definition orchestrator_tie : Orchestrator.TaskOrchestrator :=
  Orchestrator.add_task
    (Orchestrator.init [("agent-1", sender); ("agent-3", twin)] 5 3) task5.

(** Two agents whose scores are equal as fractions, 10 + 0.1 and
    10 - 2/10 + 0.3, and differ as doubles; an orchestrator over them. *)
Definition loaded_lead : Agent.BaseAgent :=
  Agent.set_workload
    (Agent.init "agent-2" 0 "lead" [Agent.SkillStr "x"] 3) 2.
Definition orchestrator_rounding : Orchestrator.TaskOrchestrator :=
  Orchestrator.add_task
    (Orchestrator.init [("agent-1", sender); ("agent-2", loaded_lead)] 5 3)
    task5.

(** A subclass whose [receive_task] records the assignment and then
    reports failure. *)
Definition refusing_receive_task (a : Agent.BaseAgent) (t : Task.Task)
    (now : Z) : Agent.BaseAgent * Task.Task * bool :=
  (a, Task.set_assigned_to t (Some (Agent.id a)), false).

(** An agent with the skill whose health window was emptied, and an
    orchestrator over it. *)
Definition drained_agent : Agent.BaseAgent :=
  {| Agent.id := "agent-4"; Agent.role := "worker";
     Agent.skills := [Agent.SkillStr "x"];
     Agent.audit_log := []; Agent.workload := 0;
     Agent.communication_channel := ∅;
     Agent.priority_queue := PriorityQueue.new; Agent.access_level := 1;
     Agent.created_at := 0; Agent.last_active := 0; Agent.status := "ready";
     Agent.error_count := 0;
     Agent.health_history := Health.clear Health.default;
     Agent.capacity := None |}.
Definition orchestrator_drained : Orchestrator.TaskOrchestrator :=
  Orchestrator.add_task
    (Orchestrator.init [("agent-4", drained_agent)] 5 3) task5.

(** An agent whose only skill is an object named ["x"], and an
    orchestrator over it with [task5] pending. *)
Definition named_agent : Agent.BaseAgent :=
  Agent.init "agent-5" 0 "worker" [Agent.SkillObject (Some "x"%string)] 1.
Definition orchestrator_named : Orchestrator.TaskOrchestrator :=
  Orchestrator.add_task
    (Orchestrator.init [("agent-5", named_agent)] 5 3) task5.

(** A window holding the single sample 0.3, and the window of the
    specification's example. *)
Definition lone_window : Health.HealthHistory :=
  {| Health.health_scores := [0x1.3333333333333p-2%float];
     Health.maxlen := 1 |}.

(** A root task with one child, both pending. *)
Definition family_tree : DelegationTree.DelegationTree :=
  let t1 := fst (DelegationTree.add_task DelegationTree.init task5 None) in
  fst (DelegationTree.add_task t1 task1 (Some "t5")).
Definition family_center : CommandCenter.CommandCenter :=
  {| CommandCenter.agent_registry := registry;
     CommandCenter.delegation_tree := family_tree;
     CommandCenter.task_orchestrator := Orchestrator.init registry 5 3 |}.
Definition family_rank (s : string) : nat :=
  if String.eqb s "t5" then 1%nat else 0%nat.

End Examples.

(** * Further functions of the sources *)

(** ** tests/unittest health.py *)

Module HealthTest.

(** The copy of [get_ewma] that the test file defines for itself: an empty
    window gives 0 (the integer, which equals the double 0), and the loop
    [for i in range(1, len(scores))] starts at the second sample. *)
Definition get_ewma (h : Health.HealthHistory) (alpha : float)
    : outcome float :=
  match Health.health_scores h with
  | [] => Returns 0%float
  | s0 :: _ =>
      Returns
        (fold_left
           (fun ewma i =>
              Health.ewma_step alpha ewma
                (nth i (Health.health_scores h) 0%float))
           (seq 1 (length (Health.health_scores h) - 1)) s0)
  end.

End HealthTest.

(** The last [n] items of a list. *)
Definition lastn {A : Type} (n : nat) (l : list A) : list A :=
  skipn (length l - n) l.

(** ** BaseAgent.py: status, repeated processing, result delivery *)

Module AgentStatus.

(** The dictionary built by [get_status]; [uptime] is the time since
    [created_at]. *)
Record Status : Type := mkStatus
  { id : string;
    role : string;
    status : string;
    workload : Z;
    queue_size : nat;
    error_count : Z;
    last_active : Z;
    uptime : Z }.

(** [get_status()] at clock reading [now]. *)
Definition get_status (a : Agent.BaseAgent) (now : Z) : Status :=
  {| id := Agent.id a; role := Agent.role a; status := Agent.status a;
     workload := Agent.workload a;
     queue_size := length (PriorityQueue.queue (Agent.priority_queue a));
     error_count := Agent.error_count a;
     last_active := Agent.last_active a;
     uptime := now - Agent.created_at a |}.

End AgentStatus.

Section RepeatedProcessing.

Variable _execute_task :
  Agent.BaseAgent -> Task.Task -> outcome (option Task.Payload).

(** [n] calls of [process_task] in a row: the agent after the last call and
    the task the last call worked on ([last] when [n] is 0). *)
Fixpoint process_times (n : nat) (a : Agent.BaseAgent)
    (last : option Task.Task) (now : Z)
    : Agent.BaseAgent * option Task.Task :=
  match n with
  | O => (a, last)
  | S n' =>
      let r := Agent.process_task _execute_task a now in
      process_times n' (Agent.agent r) (Agent.task r) now
  end.

End RepeatedProcessing.

Module Messaging.

(** A result as a dictionary value. *)
Definition result_value (r : option Task.Payload) : Agent.value :=
  match r with
  | None => Agent.VNone
  | Some s => Agent.VStr s
  end.

(** The agent stored under [key] replaced by [a]: what a method call on the
    object found by [get_agent] does to the registry. *)
Fixpoint set_agent (reg : Agent.Registry) (key : string)
    (a : Agent.BaseAgent) : Agent.Registry :=
  match reg with
  | [] => []
  | (k, b) :: rest =>
      if String.eqb k key then (k, a) :: rest
      else (k, b) :: set_agent rest key a
  end.

Section Delivery.

Variable repr_message : Agent.Message -> string.

(** One turn of the loop of [communicate_result]: the child id is looked up
    among the agents, and an agent found receives the message.
    [receive_message] does not raise, so the handler of the loop is not
    reached. *)
Definition deliver_to (self : Agent.BaseAgent) (message : Agent.Message)
    (now : Z) (reg : Agent.Registry) (child_id : string) : Agent.Registry :=
  match Agent.get_agent reg child_id with
  | Some child_agent =>
      set_agent reg child_id
        (fst (Agent.receive_message repr_message reg child_agent
                (Agent.id self) message now))
  | None => reg
  end.

(** [communicate_result(task, result)]: the registry as the call leaves
    it. *)
Definition communicate_result (reg : Agent.Registry) (self : Agent.BaseAgent)
    (task : Task.Task) (result : option Task.Payload) (now : Z)
    : Agent.Registry :=
  match Task.children task with
  | [] => reg
  | _ :: _ =>
      fold_left
        (deliver_to self
           [("task_id"%string, Agent.VStr (Task.id task));
            ("result"%string, result_value result)] now)
        (Task.children task) reg
  end.

End Delivery.

Section Processing.

Variable repr_message : Agent.Message -> string.
Variable _execute_task :
  Agent.BaseAgent -> Task.Task -> outcome (option Task.Payload).

(** [self.last_active = datetime.now()] on the agent stored under [key]. *)
Definition touch (reg : Agent.Registry) (key : string) (now : Z)
    : Agent.Registry :=
  match Agent.get_agent reg key with
  | Some a => set_agent reg key (Agent.set_last_active a now)
  | None => reg
  end.

(** [process_task()] called on the agent registered under [key], the whole
    method: the registry as the call leaves it, and what the agent's own
    statements handed back.  On success [communicate_result] looks the
    recipients up in the registry -- the agent itself among them when a
    child id is its own -- before the time of last activity is set. *)
Definition process_task (reg : Agent.Registry) (key : string) (now : Z)
    : Agent.Registry * option Agent.ProcessResult :=
  match Agent.get_agent reg key with
  | None => (reg, None)
  | Some a =>
      let r := Agent.process_task _execute_task a now in
      let reg1 := set_agent reg key (Agent.agent r) in
      match Agent.notified r with
      | None => (reg1, Some r)
      | Some (task, result) =>
          (touch
             (communicate_result repr_message reg1 (Agent.agent r) task
                result now) key now,
           Some r)
      end
  end.

End Processing.

End Messaging.

(** Two states of an agent that differ at most in the inbox, the audit log
    and the time of last activity. *)
Definition same_work (a b : Agent.BaseAgent) : Prop :=
  Agent.id a = Agent.id b /\ Agent.role a = Agent.role b
  /\ Agent.skills a = Agent.skills b
  /\ Agent.workload a = Agent.workload b
  /\ Agent.priority_queue a = Agent.priority_queue b
  /\ Agent.access_level a = Agent.access_level b
  /\ Agent.created_at a = Agent.created_at b
  /\ Agent.status a = Agent.status b
  /\ Agent.error_count a = Agent.error_count b
  /\ Agent.health_history a = Agent.health_history b
  /\ Agent.capacity a = Agent.capacity b.

(** ** core/registry.py: the other operations *)

Module RegistryOps.

(** [del agents[agent_id]] on the dictionary. *)
Definition remove_key (reg : Agent.Registry) (agent_id : string)
    : Agent.Registry :=
  List.filter (fun e => negb (String.eqb (fst e) agent_id)) reg.

(** [unregister(agent_id)]: an id that is not registered is refused. *)
Definition unregister (reg : Agent.Registry) (agent_id : string)
    : Agent.Registry * outcome unit :=
  match Agent.get_agent reg agent_id with
  | None =>
      (reg, Raises (ValueError ("Agent with ID " ++ agent_id
                                ++ " not found.")%string))
  | Some _ => (remove_key reg agent_id, Returns tt)
  end.

(** [skill in agent.skills] for a string [skill]: an item equals it only
    when it is that string; an object of another class does not. *)
Definition has_skill (skill : string) (a : Agent.BaseAgent) : bool :=
  existsb (fun item => match item with
                       | Agent.SkillStr s => String.eqb skill s
                       | Agent.SkillObject _ => false
                       end) (Agent.skills a).

(** [get_agents_by_role(role)] *)
Definition get_agents_by_role (reg : Agent.Registry) (role : string)
    : list Agent.BaseAgent :=
  map snd (List.filter (fun e => String.eqb (Agent.role (snd e)) role) reg).

(** [get_agents_by_skill(skill)] *)
Definition get_agents_by_skill (reg : Agent.Registry) (skill : string)
    : list Agent.BaseAgent :=
  map snd (List.filter (fun e => has_skill skill (snd e)) reg).

(** [reset_all_agents()] *)
Definition reset_all_agents (reg : Agent.Registry) (now : Z)
    : Agent.Registry :=
  map (fun e => (fst e, fst (Agent.reset (snd e) now))) reg.

End RegistryOps.

(** ** core/delegation_tree.py: the other operations *)

Module TreeOps.

(** [get_children(task_id)]: the tasks of the recorded children that are
    present. *)
Definition get_children (tree : DelegationTree.DelegationTree)
    (task_id : string) : list Task.Task :=
  match DelegationTree.relationships tree !! task_id with
  | None => []
  | Some cs => omap (fun child_id => DelegationTree.tasks tree !! child_id) cs
  end.

(** The nested dictionary [{"id", "type", "status", "children"}]. *)
#[local] Unset Elimination Schemes.
Inductive View : Type :=
| Node (id type status : string) (children : list View).
#[local] Set Elimination Schemes.

(** The [(id, status)] pairs of a view, the root first. *)
Fixpoint view_nodes (v : View) : list (string * string) :=
  match v with
  | Node i _ st children => (i, st) :: flat_map view_nodes children
  end.

(** The nested function [build_hierarchy(tid)], with the depth of the
    recursion bounded by [fuel] ([None]: bound reached).  It is only called
    on ids present in the task map. *)
Fixpoint build_hierarchy (fuel : nat) (tree : DelegationTree.DelegationTree)
    (tid : string) : option View :=
  match fuel with
  | O => None
  | S fuel' =>
      match DelegationTree.tasks tree !! tid with
      | None => None
      | Some task =>
          match
            fold_left
              (fun acc child_id =>
                 match acc with
                 | None => None
                 | Some children =>
                     match DelegationTree.tasks tree !! child_id with
                     | None => Some children
                     | Some _ =>
                         match build_hierarchy fuel' tree child_id with
                         | None => None
                         | Some v => Some (children ++ [v])
                         end
                     end
                 end)
              (default [] (DelegationTree.relationships tree !! tid))
              (Some [])
          with
          | None => None
          | Some children =>
              Some (Node (Task.id task) (Task.type task) (Task.status task)
                      children)
          end
      end
  end.

(** [get_task_hierarchy(task_id)]: [Some None] for an unknown id. *)
Definition get_task_hierarchy (fuel : nat)
    (tree : DelegationTree.DelegationTree) (task_id : string)
    : option (option View) :=
  match DelegationTree.tasks tree !! task_id with
  | None => Some None
  | Some _ =>
      match build_hierarchy fuel tree task_id with
      | None => None
      | Some v => Some (Some v)
      end
  end.

(** [list.remove(x)]: the first occurrence goes. *)
Fixpoint remove_one (x : string) (l : list string) : list string :=
  match l with
  | [] => []
  | y :: rest => if String.eqb y x then rest else y :: remove_one x rest
  end.

(** How a call of [remove_task] ends: it returns a flag, or the final
    [del self.tasks[task_id]] raises [KeyError]; either way with the tree as
    the call leaves it. *)
Inductive Removal : Type :=
| Removed (tree : DelegationTree.DelegationTree) (existed : bool)
| KeyErrorRaised (tree : DelegationTree.DelegationTree).

(** [remove_task(task_id)], with the depth of the recursion bounded by
    [fuel] ([None]: bound reached).  The children are taken from a copy of
    the list, the id is taken out of every child list that holds it, and an
    exception of a recursive call ends the caller too. *)
Fixpoint remove_task (fuel : nat) (task_id : string)
    (tree : DelegationTree.DelegationTree) : option Removal :=
  match fuel with
  | O => None
  | S fuel' =>
      match DelegationTree.tasks tree !! task_id with
      | None => Some (Removed tree false)
      | Some _ =>
          match
            fold_left
              (fun acc child_id =>
                 match acc with
                 | Some (Removed tr _) => remove_task fuel' child_id tr
                 | other => other
                 end)
              (default [] (DelegationTree.relationships tree !! task_id))
              (Some (Removed tree true))
          with
          | Some (Removed tr _) =>
              let rel1 := remove_one task_id
                            <$> DelegationTree.relationships tr in
              let rel2 := delete task_id rel1 in
              match DelegationTree.tasks tr !! task_id with
              | None =>
                  Some (KeyErrorRaised
                          {| DelegationTree.tasks := DelegationTree.tasks tr;
                             DelegationTree.relationships := rel2 |})
              | Some _ =>
                  Some (Removed
                          {| DelegationTree.tasks :=
                               delete task_id (DelegationTree.tasks tr);
                             DelegationTree.relationships := rel2 |} true)
              end
          | other => other
          end
      end
  end.

(** The dictionary built by [to_dict]; a [dict] is given by its items. *)
Record TreeDict : Type := mkTreeDict
  { d_tasks : list (string * Task.TaskDict);
    d_relationships : list (string * list string) }.

(** [to_dict()].  The items come in the order of [map_to_list]; the order
    in which the source's dictionaries were filled is not kept by the
    model. *)
Definition to_dict (tree : DelegationTree.DelegationTree) : TreeDict :=
  {| d_tasks := map_to_list (Task.to_dict <$> DelegationTree.tasks tree);
     d_relationships := map_to_list (DelegationTree.relationships tree) |}.

(** A dictionary filled item by item: a later item replaces an earlier one
    of the same key. *)
Definition fill {V : Type} (items : list (string * V)) : gmap string V :=
  fold_left (fun m p => <[fst p := snd p]> m) items ∅.

(** The validation loop of [from_dict] over the items of the adjacency
    map: the first parent or child id without a task raises. *)
Fixpoint validate (tasks : gmap string Task.Task)
    (items : list (string * list string)) : outcome unit :=
  match items with
  | [] => Returns tt
  | (parent_id, children_ids) :: rest =>
      match tasks !! parent_id with
      | None =>
          Raises (DataIntegrityError
                    ("Parent task ID " ++ parent_id
                     ++ " in relationships not found in tasks.")%string)
      | Some _ =>
          match List.find
                  (fun c => match tasks !! c with
                            | None => true
                            | Some _ => false
                            end) children_ids with
          | Some child_id =>
              Raises (DataIntegrityError
                        ("child task ID " ++ child_id
                         ++ " in relationships not found in tasks.")%string)
          | None => validate tasks rest
          end
      end
  end.

(** [from_dict(data)] *)
Definition from_dict (data : TreeDict)
    : outcome DelegationTree.DelegationTree :=
  let tasks := fill (map (fun p => (fst p, Task.from_dict (snd p)))
                       (d_tasks data)) in
  match validate tasks (d_relationships data) with
  | Raises e => Raises e
  | Returns _ =>
      Returns {| DelegationTree.tasks := tasks;
                 DelegationTree.relationships :=
                   fill (d_relationships data) |}
  end.

End TreeOps.

(** Every id of the adjacency map, parent or child, has a task. *)
Definition closed (tree : DelegationTree.DelegationTree) : Prop :=
  forall (p : string) (cs : list string),
    DelegationTree.relationships tree !! p = Some cs ->
    is_Some (DelegationTree.tasks tree !! p)
    /\ forall c, c ∈ cs -> is_Some (DelegationTree.tasks tree !! c).

(** ** core/command_center.py: submission *)

Module CommandCenterOps.

(** [submit_task(task_type, details, priority=5, parent_id=None,
    deadline=None)]: the command center as the call leaves it and the id
    returned, [None] when [add_task] raised.  The id of the new task is
    handed in; [max_retries] takes its default 3.  The tree and the pending
    queue hold the same task object, so what is queued is the task as the
    tree stores it. *)
Definition submit_task (cc : CommandCenter.CommandCenter)
    (fresh_id task_type : string) (details : Task.Payload) (priority : Z)
    (parent_id : option string) (deadline : option Z)
    : CommandCenter.CommandCenter * option string :=
  let new_task := Task.create fresh_id task_type details priority deadline 3 in
  match DelegationTree.add_task (CommandCenter.delegation_tree cc)
          new_task parent_id with
  | (tree', Raises _) => (CommandCenter.set_delegation_tree cc tree', None)
  | (tree', Returns _) =>
      ({| CommandCenter.agent_registry := CommandCenter.agent_registry cc;
          CommandCenter.delegation_tree := tree';
          CommandCenter.task_orchestrator :=
            Orchestrator.add_task (CommandCenter.task_orchestrator cc)
              (default new_task
                 (DelegationTree.tasks tree' !! Task.id new_task)) |},
       Some (Task.id new_task))
  end.

End CommandCenterOps.

(** ** core/orchestrator.py: repeated passes *)

Section RepeatedAssignment.

Variable receive_task :
  Agent.BaseAgent -> Task.Task -> Z -> Agent.BaseAgent * Task.Task * bool.

(** [n] calls of [_assign_task] in a row, as the loop of [run] makes them:
    the orchestrator after the last call and what each call did, in
    order. *)
Fixpoint assign_times (n : nat) (o : Orchestrator.TaskOrchestrator)
    (now : Z)
    : Orchestrator.TaskOrchestrator * list (outcome Orchestrator.Step) :=
  match n with
  | O => (o, [])
  | S n' =>
      let '(o1, r) := Orchestrator._assign_task receive_task o now in
      let '(o2, rs) := assign_times n' o1 now in
      (o2, r :: rs)
  end.

End RepeatedAssignment.

(** No agent is loaded beyond its capacity. *)
Definition within_capacity (reg : Agent.Registry) : Prop :=
  Forall (fun e => Agent.workload (snd e) <= Orchestrator.capacity_of (snd e))
    reg.

(** What the selection loop holds as best so far is an agent of the
    snapshot with room left. *)
Definition has_room (pre : Agent.Registry) (best : Orchestrator.Best)
    : Prop :=
  match fst best with
  | None => True
  | Some (i, k, a) =>
      pre !! i = Some (k, a)
      /\ Agent.workload a < Orchestrator.capacity_of a
  end.

(** The workload counter equals the depth of the local queue. *)
Definition depth_matches (a : Agent.BaseAgent) : Prop :=
  Agent.workload a = Z.of_nat (length (Agent.priority_queue a)).

(** What calls may do to the audit log of an agent: add at most [n]
    entries at the end, stamped with the agent's id and role, and leave id
    and role as they are. *)
Definition appends_to_log (n : nat) (a a' : Agent.BaseAgent) : Prop :=
  Agent.id a' = Agent.id a /\ Agent.role a' = Agent.role a
  /\ exists suffix,
       Agent.audit_log a' = Agent.audit_log a ++ suffix
       /\ (length suffix <= n)%nat
       /\ Forall (fun en => Agent.agent_id en = Agent.id a
                             /\ Agent.agent_role en = Agent.role a) suffix.

(** Two registries with the same keys in the same order, each agent's log
    grown by at most [n] entries of its own. *)
Definition logs_grow (n : nat) (reg reg' : Agent.Registry) : Prop :=
  Forall2 (fun e e' => fst e = fst e' /\ appends_to_log n (snd e) (snd e'))
    reg reg'.

(** Two registries with the same keys in the same order, whose agents
    differ at most in inbox, audit log and time of last activity. *)
Definition same_agents (reg reg' : Agent.Registry) : Prop :=
  Forall2 (fun e e' => fst e = fst e' /\ same_work (snd e) (snd e')) reg reg'.

(** [covers tree nodes roots]: the [(id, status)] pairs [nodes] are those
    of the tasks reached from the ids [roots]. *)
Definition covers (tree : DelegationTree.DelegationTree)
    (nodes : list (string * string)) (roots : list string) : Prop :=
  (forall n, n ∈ nodes ->
     exists c d t,
       c ∈ roots /\ descendant tree c d
       /\ DelegationTree.tasks tree !! d = Some t
       /\ n = (Task.id t, Task.status t))
  /\ (forall c d, c ∈ roots -> descendant tree c d ->
        exists t,
          DelegationTree.tasks tree !! d = Some t
          /\ (Task.id t, Task.status t) ∈ nodes).

(** [shrunk tree0 tree]: what calls of [remove_task] may have made of
    [tree0].  Tasks are only taken away; a child list only loses ids, and
    only ids of tasks taken away; an entry of the adjacency map goes only
    with its task; a task taken away takes its entry and the tasks of its
    children with it; and a child list without duplicates keeps no id of a
    task taken away. *)
Record shrunk (tree0 tree : DelegationTree.DelegationTree) : Prop :=
  mkShrunk
  { shrunk_tasks :
      forall x,
        DelegationTree.tasks tree !! x = None
        \/ DelegationTree.tasks tree !! x = DelegationTree.tasks tree0 !! x;
    shrunk_lists :
      forall p cs',
        DelegationTree.relationships tree !! p = Some cs' ->
        exists cs,
          DelegationTree.relationships tree0 !! p = Some cs
          /\ sublist cs' cs
          /\ forall c, c ∈ cs -> c ∉ cs' ->
               is_Some (DelegationTree.tasks tree0 !! c)
               /\ DelegationTree.tasks tree !! c = None;
    shrunk_entries :
      forall p,
        is_Some (DelegationTree.relationships tree0 !! p) ->
        DelegationTree.relationships tree !! p = None ->
        DelegationTree.tasks tree !! p = None;
    shrunk_children :
      forall p cs c,
        is_Some (DelegationTree.tasks tree0 !! p) ->
        DelegationTree.tasks tree !! p = None ->
        DelegationTree.relationships tree0 !! p = Some cs ->
        c ∈ cs ->
        DelegationTree.tasks tree !! c = None;
    shrunk_gone :
      forall p,
        is_Some (DelegationTree.tasks tree0 !! p) ->
        DelegationTree.tasks tree !! p = None ->
        DelegationTree.relationships tree !! p = None;
    shrunk_nodup :
      forall p cs cs' c,
        DelegationTree.relationships tree0 !! p = Some cs ->
        NoDup cs ->
        DelegationTree.relationships tree !! p = Some cs' ->
        c ∈ cs' ->
        is_Some (DelegationTree.tasks tree0 !! c) ->
        is_Some (DelegationTree.tasks tree !! c) }.

(** What one call [remove_task(task_id)] on [tree], itself got from
    [tree0], leaves: nothing comes back, the task is gone, and whatever
    went is reached from [task_id] in [tree0]. *)
Definition removed_from (tree0 tree : DelegationTree.DelegationTree)
    (task_id : string) (tree' : DelegationTree.DelegationTree) : Prop :=
  shrunk tree0 tree'
  /\ (forall x, DelegationTree.tasks tree !! x = None ->
                DelegationTree.tasks tree' !! x = None)
  /\ DelegationTree.tasks tree' !! task_id = None
  /\ (forall x, is_Some (DelegationTree.tasks tree !! x) ->
                DelegationTree.tasks tree' !! x = None ->
                descendant tree0 task_id x).

(** What the selection loop holds as best so far is an agent of the
    snapshot that has the skill asked for, as a string or as the name of a
    skill object. *)
Definition has_the_skill (skill : string) (pre : Agent.Registry)
    (best : Orchestrator.Best) : Prop :=
  match fst best with
  | None => True
  | Some (i, k, a) =>
      pre !! i = Some (k, a)
      /\ (RegistryOps.has_skill skill a = true
          \/ In (Agent.SkillObject (Some skill)) (Agent.skills a))
  end.

(** The snapshot position of the agent a pass of [_assign_task] offered the
    task to, if the pass returned and offered it. *)
Definition offer_of (r : Orchestrator.TaskOrchestrator
                         * outcome Orchestrator.Step) : option nat :=
  match snd r with
  | Returns s => Orchestrator.offered_to s
  | Raises _ => None
  end.

(** * Further concrete inputs *)

Module MoreExamples.

(** The sender after it received [task5]. *)
Definition loaded_agent : Agent.BaseAgent :=
  fst (fst (Agent.receive_task Examples.sender Examples.task5 1)).

(** [task5] as it sits in that agent's queue. *)
Definition queued_task5 : Task.Task :=
  Task.set_assigned_to Examples.task5 (Some "agent-1"%string).

(** An orchestrator over [Examples.registry] to which a task of priority
    5 and then one of priority 1 were added. *)
Definition orchestrator_two : Orchestrator.TaskOrchestrator :=
  Orchestrator.add_task
    (Orchestrator.add_task (Orchestrator.init Examples.registry 5 3)
       Examples.task5) Examples.task1.

(** A registry in which [agent-1] has [task5] and [task1] queued. *)
Definition busy_registry : Agent.Registry :=
  [("agent-1"%string, Examples.busy_agent);
   ("agent-2"%string, Examples.receiver)].

(** A task of another type whose child list names [agent-1], and a
    registry in which [agent-1] has it queued. *)
Definition echo_task : Task.Task :=
  Task.add_child (Task.create "t7" "z" "" 5 None 3) "agent-1".
Definition echo_registry : Agent.Registry :=
  [("agent-1"%string,
    fst (fst (Agent.receive_task Examples.sender echo_task 1)));
   ("agent-2"%string, Examples.receiver)].

(** The tree that holds [task5] alone. *)
Definition root_tree : DelegationTree.DelegationTree :=
  fst (DelegationTree.add_task DelegationTree.init Examples.task5 None).

End MoreExamples.
(** * Properties *)

(** ** Doubles: the order of the comparisons *)

Section DoubleFacts.

Lemma SFcompare_swap x y c :
  SFcompare x y = Some c -> SFcompare y x = Some (CompOpp c).
Proof.
  destruct x as [sx|sx| |sx mx ex], y as [sy|sy| |sy my ey]; cbn;
    try discriminate;
    try (destruct sx); try (destruct sy); cbn;
    intros H; inversion H; subst; clear H; try reflexivity.
  all: change (PosDef.Pos.compare_cont Eq) with Pos.compare.
  all: rewrite (Z.compare_antisym ex ey), (Pos.compare_antisym mx my).
  all: destruct (ex ?= ey); cbn; try reflexivity.
  all: destruct (mx ?= my)%positive; reflexivity.
Qed.

Lemma SFcompare_trans x y z c1 c2 :
  SFcompare x y = Some c1 -> SFcompare y z = Some c2 ->
  c1 <> Gt -> c2 <> Gt ->
  exists c3, SFcompare x z = Some c3 /\ c3 <> Gt
             /\ (c1 = Lt \/ c2 = Lt -> c3 = Lt).
Proof.
  destruct x as [sx|sx| |sx mx ex], y as [sy|sy| |sy my ey],
    z as [sz|sz| |sz mz ez]; cbn; try discriminate;
    try (destruct sx); try (destruct sy); try (destruct sz); cbn;
    intros H1 H2 N1 N2; inversion H1; inversion H2; subst; clear H1 H2;
    try congruence;
    try (eexists; split; [reflexivity|]; split; [discriminate|];
         intros _; reflexivity);
    try (eexists; split; [reflexivity|]; split; [discriminate|];
         intros [E|E]; congruence).
  all: change (PosDef.Pos.compare_cont Eq) with Pos.compare in *.
  all: destruct (Z.compare_spec ex ey), (Z.compare_spec ey ez),
         (Z.compare_spec ex ez);
    try lia; subst; cbn in *; try congruence;
    try (eexists; split; [reflexivity|]; split; [discriminate|];
         intros _; reflexivity).
  all: destruct (Pos.compare_spec mx my), (Pos.compare_spec my mz),
         (Pos.compare_spec mx mz);
    try lia; subst; cbn in *; try congruence;
    try (eexists; split; [reflexivity|]; split; [discriminate|];
         intros _; reflexivity);
    try (eexists; split; [reflexivity|]; split; [discriminate|];
         intros [E|E]; congruence).
Qed.

Lemma SFcompare_numbers x y :
  x <> S754_nan -> y <> S754_nan -> exists c, SFcompare x y = Some c.
Proof.
  destruct x, y; cbn; intros Hx Hy; try congruence; eexists; reflexivity.
Qed.

Lemma SFcompare_self x : x <> S754_nan -> SFcompare x x = Some Eq.
Proof.
  destruct x as [s|s| |s m e]; cbn; intros Hx; try congruence;
    try (destruct s; reflexivity).
  change (PosDef.Pos.compare_cont Eq) with Pos.compare.
  rewrite Z.compare_refl, Pos.compare_refl. destruct s; reflexivity.
Qed.

Local Open Scope float_scope.

Lemma ltb_Lt (x y : float) :
  (x <? y) = true <-> SFcompare (Prim2SF x) (Prim2SF y) = Some Lt.
Proof.
  rewrite ltb_spec. unfold SFltb.
  destruct (SFcompare _ _) as [[]|]; split; congruence.
Qed.

Lemma leb_not_Gt (x y : float) :
  (x <=? y) = true
  <-> exists c, SFcompare (Prim2SF x) (Prim2SF y) = Some c /\ c <> Gt.
Proof.
  rewrite leb_spec. unfold SFleb.
  destruct (SFcompare _ _) as [[]|]; split; try congruence;
    try (intros _; eexists; split; [reflexivity | discriminate]).
  - intros (c & E & N). congruence.
  - intros (c & E & N). congruence.
Qed.

(** A double above minus infinity is a number. *)
Lemma above_neg_infinity_number (x : float) :
  (neg_infinity <? x) = true -> Prim2SF x <> S754_nan.
Proof.
  rewrite ltb_Lt. intros H E. rewrite E in H.
  destruct (Prim2SF neg_infinity); discriminate.
Qed.

Lemma ltb_leb (x y : float) : (x <? y) = true -> (x <=? y) = true.
Proof.
  rewrite ltb_Lt, leb_not_Gt. intros H. exists Lt. split; [exact H|discriminate].
Qed.

Lemma leb_ltb_trans (x y z : float) :
  (x <=? y) = true -> (y <? z) = true -> (x <? z) = true.
Proof.
  rewrite leb_not_Gt, !ltb_Lt. intros (c & H1 & N1) H2.
  destruct (SFcompare_trans _ _ _ _ _ H1 H2 N1) as (c3 & H3 & _ & HL);
    [discriminate|]. rewrite H3, HL; auto.
Qed.

Lemma ltb_trans (x y z : float) :
  (x <? y) = true -> (y <? z) = true -> (x <? z) = true.
Proof. intros H. apply leb_ltb_trans, ltb_leb, H. Qed.

Lemma leb_refl (x : float) : Prim2SF x <> S754_nan -> (x <=? x) = true.
Proof.
  intros Hx. apply leb_not_Gt. exists Eq.
  split; [apply SFcompare_self, Hx | discriminate].
Qed.

(** Between numbers, [y > x] false means [y <= x]. *)
Lemma not_ltb_leb (x y : float) :
  Prim2SF x <> S754_nan -> Prim2SF y <> S754_nan ->
  (x <? y) = false -> (y <=? x) = true.
Proof.
  intros Hx Hy H. apply leb_not_Gt.
  destruct (SFcompare_numbers _ _ Hx Hy) as [c Hc].
  exists (CompOpp c). split; [apply SFcompare_swap, Hc|].
  destruct c; cbn; try discriminate.
  exfalso. apply ltb_Lt in Hc. congruence.
Qed.

Lemma ltb_not_leb (x y : float) :
  (x <? y) = true -> (y <=? x) = true -> False.
Proof.
  rewrite ltb_Lt, leb_not_Gt. intros H (c & Hc & N).
  apply SFcompare_swap in H. cbn in H. congruence.
Qed.

End DoubleFacts.

(** ** HealthHistory *)

Section HealthFacts.

Import Health.
Local Open Scope float_scope.

(** Two doubles that a comparison tells apart are different values. *)
Lemma eqb_false_neq (x y : float) :
  (x =? x) = true -> (x =? y) = false -> x <> y.
Proof. intros Hx Hxy E. rewrite <- E in Hxy. congruence. Qed.

(** The loop of the source also visits the oldest sample: the fold over the
    remaining samples starts from the oldest sample smoothed with
    itself. *)
Lemma get_ewma_nonempty (alpha s0 : float) (rest : list float) (n : nat) :
  get_ewma {| health_scores := s0 :: rest; maxlen := n |} alpha
  = Returns (spec_ewma alpha (ewma_step alpha s0 s0) rest).
Proof. reflexivity. Qed.




(** C9 (the source departs from it): on a window emptied with [clear], as
    the repository's own test does, [get_ewma] raises [IndexError] and
    [get_average] raises [ZeroDivisionError]; neither returns 0. *)
Theorem emptied_window_queries_raise :
  forall (alpha : float) (window_size : nat) (initial_health : float),
    get_ewma (clear (init window_size initial_health)) alpha
      = Raises IndexError
    /\ get_average (clear (init window_size initial_health))
      = Raises ZeroDivisionError.
Proof. intros. split; reflexivity. Qed.

End HealthFacts.
(** ** BaseAgent: messages *)

Section MessageFacts.

Import Agent.
Variable repr_message : Message -> string.

(** An unknown sender: the message is refused with [False]. *)
Lemma receive_message_unknown_sender reg self sender_id message now :
  get_agent reg sender_id = None ->
  receive_message repr_message reg self sender_id message now
    = (self, Returns false).
Proof.
  intros H. unfold receive_message, receive_message_try. rewrite H. reflexivity.
Qed.

(** A sender of lower access level: the [try] block raises
    [AccessDeniedError] after logging, and the handler of the same function
    turns it into [False]. *)
Lemma receive_message_lower_level reg self sender_id sender message now :
  get_agent reg sender_id = Some sender ->
  access_level sender < access_level self ->
  (exists msg,
     snd (receive_message_try repr_message reg self sender_id message now)
       = Raises (AccessDeniedError msg))
  /\ (exists details,
        receive_message repr_message reg self sender_id message now
          = (log_activity self "ACCESS_DENIED" None (Some details) now,
             Returns false)).
Proof.
  intros Hs Hlt. unfold receive_message, receive_message_try. rewrite Hs.
  apply Z.ltb_lt in Hlt. rewrite Hlt. cbn. split; eexists; reflexivity.
Qed.

(** [receive_message] never raises, whatever the sender. *)
Lemma receive_message_returns reg self sender_id message now :
  exists b,
    snd (receive_message repr_message reg self sender_id message now)
      = Returns b.
Proof.
  unfold receive_message.
  destruct (receive_message_try repr_message reg self sender_id message now)
    as [a [b|e]]; eexists; reflexivity.
Qed.

End MessageFacts.

(** C5 (the source departs from it): a message from the registered agent of
    access level 1 to the agent of access level 2 appends an
    [ACCESS_DENIED] entry and leaves the message store as it was, but the
    call returns [False], exactly as for an unknown sender: no
    [AccessDeniedError] reaches the caller, and none can, for any
    arguments. *)
Theorem receive_message_swallows_access_denied :
  (let '(a, r) := Agent.receive_message Examples.repr_message
                    Examples.registry Examples.receiver "agent-1"
                    Examples.message 7 in
   r = Returns false
   /\ map Agent.event (Agent.audit_log a)
        = map Agent.event (Agent.audit_log Examples.receiver)
          ++ ["ACCESS_DENIED"]
   /\ Agent.communication_channel a
        = Agent.communication_channel Examples.receiver)
  /\ snd (Agent.receive_message Examples.repr_message Examples.registry
            Examples.receiver "nobody" Examples.message 7)
       = Returns false
  /\ (forall repr reg self sender_id message now,
        exists b,
          snd (Agent.receive_message repr reg self sender_id message now)
            = Returns b).
Proof.
  split; [|split].
  - cbn. repeat split; reflexivity.
  - reflexivity.
  - intros. apply receive_message_returns.
Qed.

(** ** DelegationTree *)

Section TreeFacts.

Import DelegationTree.

(** A parent id that is given, non-empty, different from the task's own id
    and absent from the tree: the call raises, and leaves the task stored in
    the task map. *)
Lemma add_task_missing_parent tree task p :
  p <> ""%string -> p <> Task.id task -> tasks tree !! p = None ->
  add_task tree task (Some p)
    = ({| tasks := <[Task.id task := task]> (tasks tree);
          relationships := relationships tree |},
       Raises (DataIntegrityError ("Parent task " ++ p ++ " not found")%string)).
Proof.
  intros Hne Hid Hp. unfold add_task, truthy.
  apply String.eqb_neq in Hne. rewrite Hne. cbn.
  rewrite lookup_insert_ne by (intros E; apply Hid; symmetry; exact E).
  rewrite Hp. reflexivity.
Qed.

(** Without a parent the task becomes a root with an empty child list. *)
Lemma add_task_root tree task :
  add_task tree task None
    = ({| tasks := <[Task.id task := task]> (tasks tree);
          relationships := <[Task.id task := []]> (relationships tree) |},
       Returns (Task.id task)).
Proof. reflexivity. Qed.

End TreeFacts.

(** C8 (the source departs from it): adding task [t5] under the absent
    parent ["missing"] to the empty tree raises [DataIntegrityError], and the
    adjacency map stays empty, but the task map now holds [t5]: the tree is
    not unchanged. *)
Theorem add_task_missing_parent_keeps_task :
  let '(tree, r) := DelegationTree.add_task DelegationTree.init
                      Examples.task5 (Some "missing"%string) in
  r = Raises (DataIntegrityError "Parent task missing not found")
  /\ DelegationTree.tasks tree !! "t5"%string = Some Examples.task5
  /\ DelegationTree.tasks DelegationTree.init !! "t5"%string = None
  /\ DelegationTree.relationships tree = ∅.
Proof.
  rewrite add_task_missing_parent by (try discriminate; reflexivity).
  cbn. repeat split; reflexivity.
Qed.

(** ** CommandCenter: cancellation *)

Section CancelFacts.

Import DelegationTree CommandCenter.

Lemma update_status_idem t s :
  Task.update_status (Task.update_status t s) s = Task.update_status t s.
Proof. reflexivity. Qed.

Lemma only_cancels_refl tr : only_cancels tr tr.
Proof. repeat split; auto. Qed.

Lemma only_cancels_trans tr1 tr2 tr3 :
  only_cancels tr1 tr2 -> only_cancels tr2 tr3 -> only_cancels tr1 tr3.
Proof.
  intros (R1 & N1 & S1) (R2 & N2 & S2). repeat split.
  - congruence.
  - auto.
  - intros x t Hx. destruct (S1 x t Hx) as [H|H];
      destruct (S2 x _ H) as [H'|H']; auto.
Qed.

Lemma only_cancels_keeps_cancelled tr tr' d :
  only_cancels tr tr' -> is_cancelled tr d -> is_cancelled tr' d.
Proof.
  intros (_ & _ & S) (t & Ht & Hs).
  destruct (S d t Ht) as [H|H]; eexists; split; eauto.
Qed.

Lemma only_cancels_present tr tr' x :
  only_cancels tr tr' ->
  is_Some (tasks tr !! x) -> is_Some (tasks tr' !! x).
Proof.
  intros (_ & _ & S) [t Ht]. destruct (S x t Ht) as [H|H]; eauto.
Qed.

Lemma only_cancels_descendant tr tr' a d :
  only_cancels tr tr' -> descendant tr a d -> descendant tr' a d.
Proof.
  intros Hoc Hd. induction Hd as [tid Hp | tid cs c d Hp Hr Hc _ IH].
  - apply descendant_self. eapply only_cancels_present; eauto.
  - eapply descendant_child; eauto.
    + eapply only_cancels_present; eauto.
    + destruct Hoc as (R & _). rewrite R. exact Hr.
Qed.

Lemma only_cancels_ranked rank tr tr' :
  only_cancels tr tr' -> ranked rank tr -> ranked rank tr'.
Proof.
  intros (R & _) Hr p cs c Hp Hc. rewrite R in Hp. eauto.
Qed.

(** Marking one present task. *)
Lemma mark_only_cancels tr tid t :
  tasks tr !! tid = Some t ->
  only_cancels tr
    {| tasks := <[tid := Task.update_status t "cancelled"]> (tasks tr);
       relationships := relationships tr |}.
Proof.
  intros Ht. repeat split; cbn.
  - intros x Hx. rewrite lookup_insert_ne; [exact Hx | congruence].
  - intros x t' Hx. destruct (decide (tid = x)) as [->|Hne].
    + right. rewrite lookup_insert_eq. congruence.
    + left. rewrite lookup_insert_ne by exact Hne. exact Hx.
Qed.

(** The loop over the children, given that each recursive call works. *)
Lemma cancel_children_ok (rank : string -> nat) (fuel : nat)
  (IH : forall tid tr, ranked rank tr -> (rank tid < fuel)%nat ->
          exists tr', _cancel_recursive fuel tid tr = Some tr'
                      /\ cancels_from tr tid tr') :
  forall (cs : list string) (tr : DelegationTree.DelegationTree),
    ranked rank tr ->
    (forall c, c ∈ cs -> (rank c < fuel)%nat) ->
    exists tr',
      fold_left
        (fun acc child_id =>
           match acc with
           | None => None
           | Some t => _cancel_recursive fuel child_id t
           end) cs (Some tr) = Some tr'
      /\ only_cancels tr tr'
      /\ forall c d, c ∈ cs -> descendant tr c d -> is_cancelled tr' d.
Proof.
  induction cs as [|c cs IHcs]; intros tr Hr Hcs.
  - exists tr. split; [reflexivity|]. split; [apply only_cancels_refl|].
    intros c d Hc. inversion Hc.
  - destruct (IH c tr Hr) as (tr1 & E1 & Hoc1 & Hd1).
    { apply Hcs. left. }
    destruct (IHcs tr1) as (tr2 & E2 & Hoc2 & Hd2).
    { eapply only_cancels_ranked; eauto. }
    { intros c' Hc'. apply Hcs. right. exact Hc'. }
    exists tr2. cbn [fold_left]. rewrite E1. split; [exact E2|].
    split; [eapply only_cancels_trans; eauto|].
    intros c' d Hc' Hd. apply elem_of_cons in Hc' as [->|Hc'].
    + eapply only_cancels_keeps_cancelled; eauto.
    + eapply Hd2; eauto. eapply only_cancels_descendant; eauto.
Qed.

(** With fuel above the rank of the start, the recursion ends and has
    cancelled every descendant. *)
Lemma cancel_recursive_ok (rank : string -> nat) :
  forall (fuel : nat) (tid : string) (tr : DelegationTree.DelegationTree),
    ranked rank tr -> (rank tid < fuel)%nat ->
    exists tr', _cancel_recursive fuel tid tr = Some tr'
                /\ cancels_from tr tid tr'.
Proof.
  induction fuel as [|fuel IH]; intros tid tr Hr Hlt; [lia|].
  cbn [_cancel_recursive]. unfold get_task.
  destruct (tasks tr !! tid) as [t|] eqn:Ht.
  - set (tr1 := {| tasks := <[tid := Task.update_status t "cancelled"]> (tasks tr);
                   relationships := relationships tr |}).
    assert (Hoc1 : only_cancels tr tr1) by (apply mark_only_cancels; exact Ht).
    destruct (cancel_children_ok rank fuel IH
                (default [] (relationships tr !! tid)) tr1)
      as (tr' & E & Hoc & Hd).
    { eapply only_cancels_ranked; eauto. }
    { intros c Hc. destruct (relationships tr !! tid) as [cs|] eqn:Hcs.
      - cbn in Hc. specialize (Hr tid cs c Hcs Hc). lia.
      - cbn in Hc. inversion Hc. }
    exists tr'. split; [exact E|]. split.
    + eapply only_cancels_trans; eauto.
    + intros d Hdesc. inversion Hdesc as [x Hp | x cs c y Hp Hrel Hc Hcd]; subst.
      * eapply only_cancels_keeps_cancelled; [exact Hoc|].
        exists (Task.update_status t "cancelled"). split; [|reflexivity].
        cbn. apply lookup_insert_eq.
      * apply (Hd c d).
        -- rewrite Hrel. exact Hc.
        -- eapply only_cancels_descendant; eauto.
  - exists tr. split; [reflexivity|]. split; [apply only_cancels_refl|].
    intros d Hdesc. inversion Hdesc as [x Hp | x cs c y Hp]; subst;
      rewrite Ht in Hp; destruct Hp; discriminate.
Qed.

(** Trees grown by [add_task] under fresh ids are forests: the empty tree is
    ranked, and a successful [add_task] of a task whose id occurs nowhere in
    the adjacency map keeps a ranking. *)
Lemma init_ranked rank : ranked rank DelegationTree.init.
Proof. intros p cs c Hp. cbn in Hp. rewrite lookup_empty in Hp. discriminate. Qed.

Lemma add_task_ranked rank tree task parent_id tree' r :
  ranked rank tree ->
  relationships tree !! Task.id task = None ->
  (forall p cs, relationships tree !! p = Some cs -> Task.id task ∉ cs) ->
  add_task tree task parent_id = (tree', Returns r) ->
  ranked (fun x => if String.eqb x (Task.id task) then O else S (rank x)) tree'.
Proof.
  intros Hr Hfresh Hnochild Hadd.
  assert (Hold : forall p0 cs c,
            relationships tree !! p0 = Some cs -> c ∈ cs ->
            ((if String.eqb c (Task.id task) then O else S (rank c))
             < (if String.eqb p0 (Task.id task) then O else S (rank p0)))%nat).
  { intros p0 cs c Hp0 Hc.
    destruct (String.eqb_spec p0 (Task.id task)) as [->|_]; [congruence|].
    destruct (String.eqb_spec c (Task.id task)) as [->|_].
    - exfalso. exact (Hnochild _ _ Hp0 Hc).
    - specialize (Hr _ _ _ Hp0 Hc). lia. }
  assert (Hroot : ranked
            (fun x => if String.eqb x (Task.id task) then O else S (rank x))
            {| tasks := <[Task.id task := task]> (tasks tree);
               relationships := <[Task.id task := []]> (relationships tree) |}).
  { intros p0 cs c Hp0 Hc. cbn in Hp0.
    apply lookup_insert_Some in Hp0 as [[_ <-]|[_ Hp0]]; [inversion Hc|].
    eapply Hold; eauto. }
  unfold add_task in Hadd. cbv zeta in Hadd.
  destruct (truthy parent_id); [|inversion Hadd; subst; exact Hroot].
  set (p := default ""%string parent_id) in *.
  destruct (<[Task.id task:=task]> (tasks tree) !! p) as [pt|];
    [|discriminate].
  inversion Hadd; subst tree' r; clear Hadd.
  intros p0 cs c Hp0 Hc. cbn in Hp0.
  apply lookup_insert_Some in Hp0 as [[_ <-]|[Hne0 Hp0]]; [inversion Hc|].
  apply lookup_insert_Some in Hp0 as [[<- <-]|[Hne1 Hp0]].
  - apply elem_of_app in Hc as [Hc|Hc].
    + destruct (relationships tree !! p) as [cs0|] eqn:Hp.
      * rewrite Hp in Hc. cbn in Hc. eapply Hold; eauto.
      * rewrite lookup_insert_eq in Hc. cbn in Hc. inversion Hc.
    + apply list_elem_of_singleton in Hc as ->.
      rewrite String.eqb_refl.
      destruct (String.eqb_spec p (Task.id task)); [congruence | lia].
  - destruct (relationships tree !! p) as [cs0|] eqn:Hp.
    + eapply Hold; eauto.
    + rewrite lookup_insert_ne in Hp0 by exact Hne1. eapply Hold; eauto.
Qed.

Lemma not_terminal_passes_guard s :
  ~ terminal s -> status_in_guard s = false.
Proof.
  intros Hn. unfold status_in_guard.
  destruct (String.eqb_spec s "completed") as [->|_].
  { exfalso. apply Hn. left. reflexivity. }
  destruct (String.eqb_spec s "failed") as [->|_].
  { exfalso. apply Hn. right. left. reflexivity. }
  destruct (String.eqb_spec s "cancelled") as [->|_].
  { exfalso. apply Hn. right. right. left. reflexivity. }
  reflexivity.
Qed.

(** A status of the guard: nothing is cancelled. *)
Lemma cancel_task_guarded fuel cc task_id task :
  get_task (delegation_tree cc) task_id = Some task ->
  status_in_guard (Task.status task) = true ->
  cancel_task fuel cc task_id = Some (cc, false).
Proof. intros H G. unfold cancel_task. rewrite H, G. reflexivity. Qed.

(** An unknown id: nothing is cancelled. *)
Lemma cancel_task_unknown fuel cc task_id :
  get_task (delegation_tree cc) task_id = None ->
  cancel_task fuel cc task_id = Some (cc, false).
Proof. intros H. unfold cancel_task. rewrite H. reflexivity. Qed.

End CancelFacts.

(** C6: for a task present in the delegation tree whose status is not
    terminal, [cancel_task(id)] returns true and leaves the task and every
    transitive descendant with status ["cancelled"]; the adjacency map is
    that of a forest, and the recursion is given fuel above the rank of the
    task.  Nothing else changes but statuses set to ["cancelled"]. *)
Theorem cancel_task_cancels_subtree
  (cc : CommandCenter.CommandCenter) (task_id : string) (task : Task.Task)
  (rank : string -> nat) (fuel : nat) :
  DelegationTree.get_task (CommandCenter.delegation_tree cc) task_id
    = Some task ->
  ~ terminal (Task.status task) ->
  ranked rank (CommandCenter.delegation_tree cc) ->
  (rank task_id < fuel)%nat ->
  exists cc',
    CommandCenter.cancel_task fuel cc task_id = Some (cc', true)
    /\ (forall d,
          descendant (CommandCenter.delegation_tree cc) task_id d ->
          CommandCenter.get_task_status cc' d = Some "cancelled"%string)
    /\ only_cancels (CommandCenter.delegation_tree cc)
         (CommandCenter.delegation_tree cc')
    /\ CommandCenter.agent_registry cc' = CommandCenter.agent_registry cc
    /\ CommandCenter.task_orchestrator cc'
       = CommandCenter.task_orchestrator cc.
Proof.
  intros Ht Hnt Hr Hlt.
  destruct (cancel_recursive_ok rank fuel task_id _ Hr Hlt)
    as (tr' & E & Hoc & Hd).
  exists (CommandCenter.set_delegation_tree cc tr').
  unfold CommandCenter.cancel_task. rewrite Ht.
  rewrite (not_terminal_passes_guard _ Hnt), E.
  split; [reflexivity|]. split; [|split; [exact Hoc|split; reflexivity]].
  intros d Hdesc. destruct (Hd d Hdesc) as (t & Hl & Hs).
  unfold CommandCenter.get_task_status, DelegationTree.get_task. cbn.
  rewrite Hl, Hs. reflexivity.
Qed.

Lemma family_tree_ranked : ranked Examples.family_rank Examples.family_tree.
Proof.
  intros p cs c Hp Hc.
  assert (E : DelegationTree.relationships Examples.family_tree
              = <["t1"%string := []]> (<["t5"%string := ["t1"%string]]> ∅))
    by reflexivity.
  rewrite E in Hp.
  apply lookup_insert_Some in Hp as [[<- <-]|[? Hp]]; [inversion Hc|].
  apply lookup_insert_Some in Hp as [[<- <-]|[? Hp]].
  - apply list_elem_of_singleton in Hc as ->. cbn. lia.
  - rewrite lookup_empty in Hp. discriminate.
Defined.

Lemma pending_not_terminal : ~ terminal "pending".
Proof. intros [H|[H|[H|H]]]; discriminate H. Defined.

(** The theorem at a root task with one child, both pending. *)
Lemma cancel_task_cancels_subtree_witness :
  exists cc',
    CommandCenter.cancel_task 2 Examples.family_center "t5" = Some (cc', true)
    /\ (forall d,
          descendant (CommandCenter.delegation_tree Examples.family_center)
            "t5" d ->
          CommandCenter.get_task_status cc' d = Some "cancelled"%string)
    /\ only_cancels (CommandCenter.delegation_tree Examples.family_center)
         (CommandCenter.delegation_tree cc')
    /\ CommandCenter.agent_registry cc'
       = CommandCenter.agent_registry Examples.family_center
    /\ CommandCenter.task_orchestrator cc'
       = CommandCenter.task_orchestrator Examples.family_center.
Proof.
  apply (cancel_task_cancels_subtree Examples.family_center "t5"
           (Task.add_child Examples.task5 "t1") Examples.family_rank 2).
  - reflexivity.
  - exact pending_not_terminal.
  - exact family_tree_ranked.
  - cbn. lia.
Defined.

(** C7 (the source departs from it): a task whose status is the terminal
    ["failed_deadline"] is cancelled all the same: [cancel_task] returns
    true and overwrites the status with ["cancelled"].  The guard of the
    source lists only ["completed"], ["failed"] and ["cancelled"]. *)
Theorem cancel_task_overwrites_failed_deadline :
  CommandCenter.get_task_status Examples.late_center "t9"
    = Some "failed_deadline"%string
  /\ terminal "failed_deadline"
  /\ exists cc',
       CommandCenter.cancel_task 1 Examples.late_center "t9" = Some (cc', true)
       /\ CommandCenter.get_task_status cc' "t9" = Some "cancelled"%string.
Proof.
  split; [reflexivity|]. split; [right; right; right; reflexivity|].
  eexists. split; reflexivity.
Qed.

(** ** PriorityQueue *)

Section QueueFacts.

Import PriorityQueue.

Lemma min_key_in (q : t) :
  forall k, min_key k q = k \/ In (min_key k q) (map fst q).
Proof.
  induction q as [|[k' x] q IH]; intros k; cbn.
  - left. reflexivity.
  - destruct (IH (Z.min k k')) as [H|H].
    + rewrite H. destruct (Z.min_spec k k') as [[_ E]|[_ E]]; rewrite E; auto.
    + right. right. exact H.
Qed.

Lemma remove_first_some (k : Z) (q : t) :
  In k (map fst q) ->
  exists e q', remove_first k q = Some (e, q') /\ length q = S (length q').
Proof.
  induction q as [|[k' x] q IH]; cbn; intros Hin; [contradiction|].
  destruct (Z.eqb_spec k' k) as [->|Hne].
  - eauto.
  - destruct Hin as [E|Hin]; [contradiction|].
    destruct (IH Hin) as (e & q' & -> & Hl). eexists _, _. split; [reflexivity|].
    cbn. congruence.
Qed.

(** [get] on a non-empty queue returns an entry and leaves one entry
    fewer. *)
Lemma get_nonempty (q : t) :
  empty q = false ->
  exists e q', get q = Some (e, q') /\ length q = S (length q').
Proof.
  destruct q as [|[k x] rest]; [discriminate|]. intros _.
  unfold get. apply remove_first_some. cbn [map fst].
  destruct (min_key_in rest k) as [->|H]; [left; reflexivity|right; exact H].
Qed.

End QueueFacts.

(** ** BaseAgent: serialisation *)

Section RoundTripFacts.

Import Agent.

Lemma restore_queue_fold (l : list (Z * Task.Task)) :
  forall acc : PriorityQueue.t,
    fold_left
      (fun q '(priority, task_data) =>
         PriorityQueue.put q (priority, Task.from_dict task_data))
      (map (fun '(priority, task) => (- priority, Task.to_dict task)) l) acc
    = acc ++ map (fun e => (- fst e, snd e)) l.
Proof.
  induction l as [|[k x] l IH]; intros acc; cbn.
  - rewrite app_nil_r. reflexivity.
  - rewrite IH. unfold PriorityQueue.put. rewrite <- app_assoc. reflexivity.
Qed.

(** The queue that [from_dict] rebuilds from the output of [to_dict] holds
    the same tasks under keys of the opposite sign: [to_dict] undoes the
    negation of [receive_task], [from_dict] does not redo it. *)
Lemma from_dict_to_dict_queue fresh_id now a :
  priority_queue (from_dict fresh_id now (to_dict a))
  = map (fun e => (- fst e, snd e)) (priority_queue a).
Proof.
  unfold from_dict, to_dict. cbn. unfold PriorityQueue.queue.
  rewrite restore_queue_fold. reflexivity.
Qed.

(** The attributes that are copied one for one come back as they were. *)
Lemma from_dict_to_dict_attributes fresh_id now a :
  let a' := from_dict fresh_id now (to_dict a) in
  id a' = id a /\ role a' = role a /\ skills a' = skills a
  /\ audit_log a' = audit_log a /\ workload a' = workload a
  /\ communication_channel a' = communication_channel a
  /\ access_level a' = access_level a /\ created_at a' = created_at a
  /\ last_active a' = last_active a /\ status a' = status a
  /\ error_count a' = error_count a.
Proof. cbn. repeat split; reflexivity. Qed.

End RoundTripFacts.

(** C4 (the source departs from it): an agent that received a task of
    priority 5 and then one of priority 1 dequeues the priority-5 task
    first; the agent rebuilt by [from_dict] from its [to_dict] holds the
    two tasks under the keys 5 and 1 instead of -5 and -1 and dequeues the
    priority-1 task first. *)
Theorem from_dict_reverses_dequeue_order :
  let a := Examples.busy_agent in
  let a' := Agent.from_dict "fresh-id" 9 (Agent.to_dict a) in
  map fst (Agent.priority_queue a) = [-5; -1]
  /\ dequeue_order (Agent.priority_queue a) = ["t5"; "t1"]%string
  /\ map fst (Agent.priority_queue a') = [5; 1]
  /\ dequeue_order (Agent.priority_queue a') = ["t1"; "t5"]%string
  /\ map snd (Agent.priority_queue a') = map snd (Agent.priority_queue a).
Proof. cbv zeta. repeat split; reflexivity. Qed.

(** ** BaseAgent: the workload counter *)

Section WorkloadFacts.

Import Agent.
Variable _execute_task :
  BaseAgent -> Task.Task -> outcome (option Task.Payload).

Lemma receive_task_workload a task now :
  workload (fst (fst (receive_task a task now))) = workload a + 1.
Proof. reflexivity. Qed.

Lemma reset_workload a now : workload (fst (reset a now)) = 0.
Proof. reflexivity. Qed.

(** [process_task]: nothing happens on an empty queue; otherwise one entry
    is taken and the counter goes down with floor 0, unless the task is put
    back for a retry, which adds 1 again. *)
Lemma process_task_workload a now :
  let r := process_task _execute_task a now in
  match task r with
  | None => PriorityQueue.empty (priority_queue a) = true /\ agent r = a
  | Some t =>
      (S (length (priority_queue (agent r))) = length (priority_queue a)
       /\ workload (agent r) = Z.max 0 (workload a - 1)
       /\ (Task.status t = "completed" \/ Task.status t = "failed")%string)
      \/ (length (priority_queue (agent r)) = length (priority_queue a)
          /\ workload (agent r) = Z.max 0 (workload a - 1) + 1
          /\ Task.status t = "retry_pending"%string)
  end.
Proof.
  unfold process_task.
  destruct (PriorityQueue.empty (priority_queue a)) eqn:He; cbn zeta.
  { cbn. auto. }
  destruct (get_nonempty _ He) as ([k t0] & q & -> & Hlen).
  cbn zeta. cbn [priority_queue set_priority_queue set_workload workload].
  destruct (_execute_task _ _) as [res|e].
  - cbn. left. repeat split; auto.
  - destruct (Task.can_retry _) eqn:Hr; cbn.
    + right. rewrite length_app. cbn. repeat split; auto. lia.
    + left. repeat split; auto.
Qed.

Lemma process_task_workload_nonneg a now :
  0 <= workload a -> 0 <= workload (agent (process_task _execute_task a now)).
Proof.
  intros Hw. pose proof (process_task_workload a now) as H. cbv zeta in H.
  destruct (task (process_task _execute_task a now)).
  - destruct H as [(_ & -> & _)|(_ & -> & _)]; lia.
  - destruct H as (_ & ->). exact Hw.
Qed.

Lemma apply_op_workload_nonneg a o :
  0 <= workload a -> 0 <= workload (apply_op _execute_task a o).
Proof.
  intros Hw. destruct o as [t now|now|now]; cbn [apply_op].
  - rewrite receive_task_workload. lia.
  - apply process_task_workload_nonneg. exact Hw.
  - rewrite reset_workload. lia.
Qed.

Lemma states_workload_nonneg ops :
  forall a, 0 <= workload a ->
    Forall (fun s => 0 <= workload s) (states _execute_task a ops).
Proof.
  induction ops as [|o ops IH]; intros a Hw; cbn.
  - constructor; [exact Hw | constructor].
  - constructor; [exact Hw|]. apply IH, apply_op_workload_nonneg, Hw.
Qed.

(** None of the three calls touches the health window. *)
Lemma apply_op_health_history a o :
  health_history (apply_op _execute_task a o) = health_history a.
Proof.
  destruct o as [t now|now|now]; cbn [apply_op]; try reflexivity.
  unfold process_task.
  destruct (PriorityQueue.empty (priority_queue a)); [reflexivity|].
  destruct (PriorityQueue.get (priority_queue a)) as [[[k t0] q]|];
    [|reflexivity].
  cbv zeta. destruct (_execute_task _ _) as [res|e]; [reflexivity|].
  destruct (Task.can_retry _); reflexivity.
Qed.

End WorkloadFacts.

(** C10: from an agent whose workload is not negative (a new agent has
    workload 0), every state reached by a sequence of [receive_task],
    [process_task] and [reset] calls has a workload that is not negative;
    [receive_task] adds 1, [process_task] subtracts 1 with floor 0 and adds
    1 again exactly when it puts the task back for a retry, [reset] sets
    0. *)
Theorem workload_never_negative
  (_execute_task : Agent.BaseAgent -> Task.Task -> outcome (option Task.Payload))
  (a : Agent.BaseAgent) (ops : list AgentOp) :
  0 <= Agent.workload a ->
  Forall (fun s => 0 <= Agent.workload s) (states _execute_task a ops)
  /\ (forall fresh_id now role skills access_level,
        Agent.workload (Agent.init fresh_id now role skills access_level) = 0)
  /\ (forall task now,
        Agent.workload (fst (fst (Agent.receive_task a task now)))
        = Agent.workload a + 1)
  /\ (forall now,
        let r := Agent.process_task _execute_task a now in
        match Agent.task r with
        | None =>
            PriorityQueue.empty (Agent.priority_queue a) = true
            /\ Agent.agent r = a
        | Some t =>
            (S (length (Agent.priority_queue (Agent.agent r)))
             = length (Agent.priority_queue a)
             /\ Agent.workload (Agent.agent r)
                = Z.max 0 (Agent.workload a - 1)
             /\ (Task.status t = "completed" \/ Task.status t = "failed")%string)
            \/ (length (Agent.priority_queue (Agent.agent r))
                = length (Agent.priority_queue a)
                /\ Agent.workload (Agent.agent r)
                   = Z.max 0 (Agent.workload a - 1) + 1
                /\ Task.status t = "retry_pending"%string)
        end)
  /\ (forall now, Agent.workload (fst (Agent.reset a now)) = 0).
Proof.
  intros Hw. split; [apply states_workload_nonneg; exact Hw|].
  split; [reflexivity|]. split; [reflexivity|].
  split; [intros now; apply process_task_workload|reflexivity].
Qed.


(** ** TaskOrchestrator: scoring and selection *)

Section SelectionFacts.

Import Orchestrator.

Lemma skill_match_In ty skills :
  skill_match ty skills = true
  <-> In (Agent.SkillStr ty) skills
      \/ In (Agent.SkillObject (Some ty)) skills.
Proof.
  induction skills as [|s skills IH]; cbn [skill_match In].
  - split; [discriminate | intros [[]|[]]].
  - destruct s as [x|[x|]].
    + destruct (String.eqb_spec ty x) as [->|Hne].
      * split; auto.
      * rewrite IH. split; [tauto|].
        intros [[E|H]|[E|H]]; try discriminate; try tauto.
        inversion E; congruence.
    + destruct (String.eqb_spec ty x) as [->|Hne].
      * split; auto.
      * rewrite IH. split; [tauto|].
        intros [[E|H]|[E|H]]; try discriminate; try tauto.
        inversion E; congruence.
    + rewrite IH. split; [tauto|].
      intros [[E|H]|[E|H]]; try discriminate; tauto.
Qed.

(** [getattr(agent, 'capacity', 10)] is the capacity of the
    specification. *)
Lemma capacity_of_spec a : capacity_of a = spec_capacity a.
Proof. reflexivity. Qed.

(** The two [continue] tests of the loop let exactly the candidates
    through. *)
Lemma loop_tests_candidate task a :
  candidate task a <->
  negb (skill_match (Task.type task) (Agent.skills a)) = false
  /\ (capacity_of a <=? Agent.workload a) = false.
Proof.
  unfold candidate. rewrite <- skill_match_In, Z.leb_gt.
  rewrite <- (capacity_of_spec a).
  destruct (skill_match _ _); cbn; intuition congruence.
Qed.

(** For a candidate in normal operation the score computed by the loop is
    the score of the specification. *)
Lemma suitability_score_candidate task a :
  sound a -> candidate task a ->
  suitability_score a = Returns (spec_score a).
Proof.
  intros (Hw & Hh & Hq & Hl & _) [_ Hc].
  unfold suitability_score, spec_score, health_ewma, Health.get_ewma.
  destruct (Health.health_scores (Agent.health_history a)) as [|s0 rest];
    [congruence|].
  unfold PyFloat.int_truediv, PyFloat.of_int.
  rewrite <- (capacity_of_spec a) in *.
  destruct (Z.eqb_spec (capacity_of a) 0) as [E|_]; [lia|].
  rewrite Hq, Hl. reflexivity.
Qed.

Lemma lookup_snoc_inv (pre : Agent.Registry) x j y :
  (pre ++ [x]) !! j = Some y ->
  pre !! j = Some y \/ (j = length pre /\ y = x).
Proof.
  intros H. destruct (decide (j < length pre)%nat) as [Hlt|Hge].
  - left. rewrite lookup_app_l in H by exact Hlt. exact H.
  - right. rewrite lookup_app_r in H by lia.
    destruct (j - length pre)%nat eqn:E; cbn in H; [|discriminate].
    split; [lia | congruence].
Qed.

(** An agent that is skipped leaves the loop state as it is. *)
Lemma best_of_skip task pre k a best :
  ~ candidate task a -> best_of task pre best ->
  best_of task (pre ++ [(k, a)]) best.
Proof.
  intros Hn Hb. destruct best as [[[[i ki] ai]|] s];
    unfold best_of, chosen in *.
  - destruct Hb as (Hs & Hinf & Hl & Hc & Hmax). split; [exact Hs|].
    split; [exact Hinf|]. split; [|split; [exact Hc|]].
    + rewrite lookup_app_l; [exact Hl | eapply lookup_lt_Some; eauto].
    + intros j kj aj Hj Hcj.
      apply lookup_snoc_inv in Hj as [Hj|[_ Hj]]; [eauto|].
      inversion Hj; subst. contradiction.
  - destruct Hb as [Hs Hb]. split; [exact Hs|]. intros j kj aj Hj.
    apply lookup_snoc_inv in Hj as [Hj|[_ Hj]]; [eauto|].
    inversion Hj; subst. exact Hn.
Qed.

(** A candidate replaces the best so far exactly when its score is
    strictly greater. *)
Lemma best_of_candidate task pre k a best :
  candidate task a -> sound a -> best_of task pre best ->
  best_of task (pre ++ [(k, a)])
    (if PyFloat.gt (spec_score a) (snd best)
     then (Some (length pre, k, a), spec_score a)
     else best).
Proof.
  intros Hc (_ & _ & _ & _ & Hinf) Hb.
  pose proof (above_neg_infinity_number _ Hinf) as Hnum.
  unfold PyFloat.gt.
  destruct best as [[[[i ki] ai]|] s]; unfold best_of, chosen in *;
    cbn [snd].
  - destruct Hb as (-> & Hinfi & Hl & Hci & Hmax).
    destruct (PrimFloat.ltb (spec_score ai) (spec_score a)) eqn:Hg.
    + split; [reflexivity|]. split; [exact Hinf|].
      split; [|split; [exact Hc|]].
      * rewrite lookup_app_r by lia. rewrite Nat.sub_diag. reflexivity.
      * intros j kj aj Hj Hcj.
        apply lookup_snoc_inv in Hj as [Hj|[-> Hj]].
        -- destruct (Hmax j kj aj Hj Hcj) as [Hle _].
           pose proof (leb_ltb_trans _ _ _ Hle Hg) as Hlt.
           split; [apply ltb_leb, Hlt | intros _; exact Hlt].
        -- inversion Hj; subst. split; [apply leb_refl, Hnum | lia].
    + split; [reflexivity|]. split; [exact Hinfi|].
      split; [|split; [exact Hci|]].
      * rewrite lookup_app_l; [exact Hl | eapply lookup_lt_Some; eauto].
      * intros j kj aj Hj Hcj.
        apply lookup_snoc_inv in Hj as [Hj|[-> Hj]]; [eauto|].
        inversion Hj; subst. split.
        -- apply not_ltb_leb; [|exact Hnum|exact Hg].
           apply above_neg_infinity_number, Hinfi.
        -- apply lookup_lt_Some in Hl. lia.
  - destruct Hb as [-> Hb]. rewrite Hinf.
    split; [reflexivity|]. split; [exact Hinf|].
    split; [|split; [exact Hc|]].
    + rewrite lookup_app_r by lia. rewrite Nat.sub_diag. reflexivity.
    + intros j kj aj Hj Hcj.
      apply lookup_snoc_inv in Hj as [Hj|[-> Hj]].
      * exfalso. eapply Hb; eauto.
      * inversion Hj; subst. split; [apply leb_refl, Hnum | lia].
Qed.

(** The loop, started after [pre] in a state that is right for [pre], ends
    in a state that is right for the whole snapshot. *)
Lemma select_loop_best_of task (agents : Agent.Registry) :
  forall (pre : Agent.Registry) (best : Best),
    Forall (fun e => candidate task (snd e) -> sound (snd e)) agents ->
    best_of task pre best ->
    exists best',
      select_loop task agents (length pre) best = Returns best'
      /\ best_of task (pre ++ agents) best'.
Proof.
  induction agents as [|[k a] agents IH]; intros pre best Hs Hb.
  - exists best. rewrite app_nil_r. split; [reflexivity | exact Hb].
  - inversion Hs as [|x l Ha Hs']; subst. cbn in Ha.
    assert (Hlen : length (pre ++ [(k, a)]) = S (length pre))
      by (rewrite length_app; cbn; lia).
    assert (Happ : (pre ++ [(k, a)]) ++ agents = pre ++ (k, a) :: agents)
      by (rewrite <- app_assoc; reflexivity).
    cbn [select_loop].
    destruct (negb (skill_match (Task.type task) (Agent.skills a))) eqn:Hsk.
    { rewrite <- Hlen, <- Happ. apply IH; [exact Hs'|].
      apply best_of_skip; [|exact Hb].
      intros Hc. apply loop_tests_candidate in Hc as [Hc _]. congruence. }
    destruct (capacity_of a <=? Agent.workload a) eqn:Hcap.
    { rewrite <- Hlen, <- Happ. apply IH; [exact Hs'|].
      apply best_of_skip; [|exact Hb].
      intros Hc. apply loop_tests_candidate in Hc as [_ Hc]. congruence. }
    assert (Hc : candidate task a)
      by (apply loop_tests_candidate; split; assumption).
    rewrite (suitability_score_candidate task a (Ha Hc) Hc).
    pose proof (best_of_candidate task pre k a best Hc (Ha Hc) Hb) as Hb'.
    destruct (PyFloat.gt (spec_score a) (snd best));
      rewrite <- Hlen, <- Happ; apply IH; assumption.
Qed.

(** The whole selection. *)
Lemma select_best_of task (reg : Agent.Registry) :
  Forall (fun e => candidate task (snd e) -> sound (snd e)) reg ->
  exists best,
    select_loop task reg 0 no_best = Returns best /\ best_of task reg best.
Proof.
  intros Hs. apply (select_loop_best_of task reg [] no_best Hs).
  split; [reflexivity|].
  intros j k a Hj. rewrite lookup_nil in Hj. discriminate.
Qed.

(** At most one position is the chosen one. *)
Lemma chosen_unique task reg i k a i' k' a' :
  chosen task reg i k a -> chosen task reg i' k' a' ->
  i = i' /\ k = k' /\ a = a'.
Proof.
  intros (Hl & Hc & Hmax) (Hl' & Hc' & Hmax').
  destruct (Hmax i' k' a' Hl' Hc') as [Hle Hlt].
  destruct (Hmax' i k a Hl Hc) as [Hle' Hlt'].
  assert (E : i = i').
  { destruct (lt_eq_lt_dec i i') as [[L|E]|L]; [|exact E|].
    - specialize (Hlt' L). exfalso. eapply ltb_not_leb; eauto.
    - specialize (Hlt L). exfalso. eapply ltb_not_leb; eauto. }
  subst i'. rewrite Hl in Hl'. inversion Hl'. auto.
Qed.

End SelectionFacts.

Lemma get_some_not_empty (q q' : PriorityQueue.t) e :
  PriorityQueue.get q = Some (e, q') -> PriorityQueue.empty q = false.
Proof. destruct q; [discriminate | reflexivity]. Qed.

(** C1 (amended): when [_assign_task] pops a task that is not overdue, and
    every candidate -- the task's type is among its skills, as a string or
    as the name of a skill object, and its workload is strictly below its
    capacity, 10 when unset -- is in normal operation (workload not
    negative, health window not empty, a score that is a number above
    minus infinity): the score the loop computes for a candidate is
    [health_ewma*10 - workload/capacity + access_level*0.1] in doubles; if
    there is no candidate no agent is offered the task; otherwise
    [receive_task] is called on a candidate of greatest score, the first
    such in the order of the snapshot, and that agent is replaced in the
    registry by what the call leaves. *)
Theorem assign_task_offers_best_candidate
  (receive_task :
     Agent.BaseAgent -> Task.Task -> Z -> Agent.BaseAgent * Task.Task * bool)
  (o : Orchestrator.TaskOrchestrator) (now priority : Z) (task : Task.Task)
  (q : PriorityQueue.t) :
  PriorityQueue.get (Orchestrator.task_queue o) = Some ((priority, task), q) ->
  Task.is_overdue task now = false ->
  Forall (fun e => candidate task (snd e) -> sound (snd e))
    (Orchestrator.agent_registry o) ->
  (forall j k a,
     Orchestrator.agent_registry o !! j = Some (k, a) ->
     candidate task a ->
     Orchestrator.suitability_score a = Returns (spec_score a))
  /\ match offer_of (Orchestrator._assign_task receive_task o now) with
     | None =>
         forall j k a,
           Orchestrator.agent_registry o !! j = Some (k, a) ->
           ~ candidate task a
     | Some i =>
         exists k a,
           chosen task (Orchestrator.agent_registry o) i k a
           /\ Orchestrator.agent_registry
                (fst (Orchestrator._assign_task receive_task o now))
              = <[i := (k, fst (fst (receive_task a task now)))]>
                  (Orchestrator.agent_registry o)
     end.
Proof.
  intros Hget Hdue Hs. split.
  - intros j k a Hj Hc. eapply suitability_score_candidate; [|exact Hc].
    rewrite Forall_lookup in Hs. exact (Hs j (k, a) Hj Hc).
  - destruct (select_best_of task _ Hs) as (best & Hsel & Hb).
    unfold offer_of, Orchestrator._assign_task.
    rewrite (get_some_not_empty _ _ _ Hget), Hget, Hdue.
    cbn [Orchestrator.set_task_queue Orchestrator.agent_registry
         AgentRegistry.get_all_agents Orchestrator.max_orchestrator_retries
         Orchestrator.retry_delay].
    unfold AgentRegistry.get_all_agents. rewrite Hsel.
    destruct best as [[[[i k] a]|] s]; cbn [best_of] in Hb.
    + destruct Hb as (_ & _ & Hch).
      destruct (receive_task a task now) as [[a1 t1] ok] eqn:Hr.
      destruct ok.
      * cbn [snd fst Orchestrator.offered_to]. exists k, a.
        split; [exact Hch | rewrite Hr; reflexivity].
      * match goal with |- context [if ?c then _ else _] => destruct c end;
          (cbn [snd fst Orchestrator.offered_to]; exists k, a;
           split; [exact Hch | rewrite Hr; reflexivity]).
    + destruct Hb as [_ Hb].
      repeat match goal with
             | |- context [if ?c then _ else _] => destruct c
             | |- context [Orchestrator.sleep ?d] =>
                 destruct (Orchestrator.sleep d)
             end; cbn [snd fst Orchestrator.offered_to]; exact Hb.
Qed.

(** C1 as stated fails on the code: an agent whose only skill is an object
    named ["x"] does not have the task's type among its skills, so the
    registry holds no candidate in the words of the specification; the code
    matches the object by its name and offers the task to that agent. *)
Lemma assign_task_matches_skill_objects :
  (forall j k a,
     Orchestrator.agent_registry Examples.orchestrator_named !! j
     = Some (k, a) ->
     ~ spec_candidate Examples.task5 a)
  /\ offer_of (Orchestrator._assign_task Agent.receive_task
                 Examples.orchestrator_named 0) = Some 0%nat.
Proof.
  split.
  - intros j k a Hj [Hin _].
    destruct j as [|j]; cbn in Hj; inversion Hj; subst; cbn in Hin.
    destruct Hin as [H|H]; [discriminate H | exact H].
  - vm_compute. reflexivity.
Qed.


(** ** The statements at concrete inputs *)

Lemma registry_sound (task : Task.Task) :
  Forall (fun e => candidate task (snd e) -> sound (snd e))
    Examples.registry.
Proof.
  repeat constructor; cbn; try lia; vm_compute; try discriminate;
    reflexivity.
Defined.

Lemma registry_has_no_y :
  forall j k a,
    Examples.registry !! j = Some (k, a) ->
    ~ candidate Examples.task_y a.
Proof.
  intros j k a Hj [Hin _].
  destruct j as [|[|j]]; cbn in Hj; inversion Hj; subst; cbn in Hin;
    destruct Hin as [[H|H]|[H|H]]; try discriminate H; exact H.
Defined.

(** The agent of access level 2 scores 10.2 against 10.1 and is offered the
    task; of two agents of equal score the first is. *)
Example assign_task_examples :
  offer_of (Orchestrator._assign_task Agent.receive_task
              Examples.orchestrator 0) = Some 1%nat
  /\ offer_of (Orchestrator._assign_task Agent.receive_task
                 Examples.orchestrator_tie 0) = Some 0%nat.
Proof. split; vm_compute; reflexivity. Qed.

(** Rounding decides between scores that are equal as fractions: 10.1
    against 10.100000000000001, and the second agent is offered the
    task. *)
Example rounding_example :
  spec_score Examples.sender = 0x1.4333333333333p+3%float
  /\ spec_score Examples.loaded_lead = 0x1.4333333333334p+3%float
  /\ offer_of (Orchestrator._assign_task Agent.receive_task
                 Examples.orchestrator_rounding 0) = Some 1%nat.
Proof. repeat split; vm_compute; reflexivity. Qed.

(** The theorem at [Examples.orchestrator]. *)
Lemma assign_task_offers_best_candidate_witness :
  (forall j k a,
     Orchestrator.agent_registry Examples.orchestrator !! j = Some (k, a) ->
     candidate Examples.task5 a ->
     Orchestrator.suitability_score a = Returns (spec_score a))
  /\ match offer_of (Orchestrator._assign_task Agent.receive_task
                       Examples.orchestrator 0) with
     | None =>
         forall j k a,
           Orchestrator.agent_registry Examples.orchestrator !! j
           = Some (k, a) ->
           ~ candidate Examples.task5 a
     | Some i =>
         exists k a,
           chosen Examples.task5
             (Orchestrator.agent_registry Examples.orchestrator) i k a
           /\ Orchestrator.agent_registry
                (fst (Orchestrator._assign_task Agent.receive_task
                        Examples.orchestrator 0))
              = <[i := (k, fst (fst (Agent.receive_task a
                                       Examples.task5 0)))]>
                  (Orchestrator.agent_registry Examples.orchestrator)
     end.
Proof.
  apply (assign_task_offers_best_candidate Agent.receive_task
           Examples.orchestrator 0 5 Examples.task5 []).
  - reflexivity.
  - reflexivity.
  - exact (registry_sound _).
Defined.


(** The same input evaluated: the task comes back at priority 4 with one
    attempt, after a sleep of [retry_delay]. *)
Example requeue_example :
  let t' := Task.set_attempt_count (Task.set_priority Examples.task_y 4) 1 in
  Orchestrator._assign_task Agent.receive_task Examples.orchestrator_y 0
  = (Orchestrator.set_task_queue Examples.orchestrator_y [(4, t')],
     Returns (Orchestrator.Requeued None t' 5)).
Proof. reflexivity. Qed.

(** With a negative delay [time.sleep] raises before the task is put back:
    the popped task is in no queue any more. *)
Example negative_delay_example :
  Orchestrator._assign_task Agent.receive_task
    (Orchestrator.add_task (Orchestrator.init Examples.registry (-1) 3)
       Examples.task_y) 0
  = (Orchestrator.init Examples.registry (-1) 3,
     Raises (ValueError "sleep length must be non-negative")).
Proof. reflexivity. Qed.

(** An agent that refuses: the task is put back at priority 4 with one more
    attempt, and without the sleep of the no-candidate path. *)
Example refused_assignment_example :
  let t' := Task.set_attempt_count
              (Task.set_priority
                 (Task.set_assigned_to Examples.task5 (Some "agent-2"%string))
                 4) 1 in
  Orchestrator._assign_task Examples.refusing_receive_task
    Examples.orchestrator 0
  = (Orchestrator.set_task_queue Examples.orchestrator [(4, t')],
     Returns (Orchestrator.Requeued (Some 1%nat) t' 0)).
Proof. vm_compute. reflexivity. Qed.

(** Outside normal operation: a candidate whose health window was emptied
    makes the scoring raise, and the popped task is in no queue any more. *)
Example drained_candidate_example :
  Orchestrator._assign_task Agent.receive_task Examples.orchestrator_drained 0
  = (Orchestrator.set_task_queue Examples.orchestrator_drained [],
     Raises IndexError).
Proof. reflexivity. Qed.

(** The theorem at an agent that receives a task, fails it twice and is
    reset. *)
Lemma workload_never_negative_witness :
  0 <= Agent.workload Examples.sender
  /\ Forall (fun s => 0 <= Agent.workload s)
       (states Examples.flaky_execute Examples.sender
          [OpReceiveTask Examples.task5 1; OpProcessTask 2; OpProcessTask 3;
           OpReset 4]).
Proof.
  split; [cbn; lia|].
  apply (workload_never_negative Examples.flaky_execute Examples.sender
           [OpReceiveTask Examples.task5 1; OpProcessTask 2; OpProcessTask 3;
            OpReset 4]).
  cbn. lia.
Defined.

Example workload_example :
  map Agent.workload
    (states Examples.flaky_execute Examples.sender
       [OpReceiveTask Examples.task5 1; OpProcessTask 2; OpProcessTask 3;
        OpProcessTask 4; OpProcessTask 5; OpReset 6])
  = [0; 1; 1; 1; 0; 0; 0].
Proof. reflexivity. Qed.

(** * Further properties *)

(** ** HealthHistory: the window *)

Section WindowFacts.

Import Health.

Lemma lastn_length_le {A : Type} (n : nat) (l : list A) :
  (length (lastn n l) <= n)%nat.
Proof. unfold lastn. rewrite length_skipn. lia. Qed.

Lemma lastn_app_lastn {A : Type} (n : nat) (a b : list A) :
  lastn n (lastn n a ++ b) = lastn n (a ++ b).
Proof.
  unfold lastn. rewrite !length_app, length_skipn.
  replace (skipn (length a - n) a ++ b)
    with (skipn (length a - n) (a ++ b)).
  - rewrite skipn_skipn. f_equal. lia.
  - rewrite skipn_app. replace (length a - n - length a)%nat with O by lia.
    reflexivity.
Qed.

Lemma deque_append_lastn (n : nat) (l : list float) (x : float) :
  (length l <= n)%nat -> deque_append n l x = lastn n (l ++ [x]).
Proof.
  intros Hl. unfold deque_append, lastn. rewrite length_app. cbn [length].
  destruct n as [|m].
  - destruct l; [reflexivity | cbn in Hl; lia].
  - destruct (Nat.ltb_spec (length l) (S m)) as [Hlt|Hge].
    + replace (length l + 1 - S m)%nat with O by lia. reflexivity.
    + replace (length l + 1 - S m)%nat with 1%nat by lia.
      destruct l; [cbn in Hge; lia | reflexivity].
Qed.

Lemma deque_fold_lastn (n : nat) (xs : list float) :
  forall l : list float, (length l <= n)%nat ->
    fold_left (deque_append n) xs l = lastn n (l ++ xs).
Proof.
  induction xs as [|x xs IH]; intros l Hl; cbn [fold_left].
  - rewrite app_nil_r. unfold lastn.
    replace (length l - n)%nat with O by lia. reflexivity.
  - rewrite deque_append_lastn by exact Hl.
    rewrite IH by apply lastn_length_le.
    rewrite lastn_app_lastn, <- app_assoc. reflexivity.
Qed.

Lemma add_score_fold (scores : list float) :
  forall h : HealthHistory,
    fold_left add_score scores h
    = {| health_scores :=
           fold_left (deque_append (maxlen h)) scores (health_scores h);
         maxlen := maxlen h |}.
Proof.
  induction scores as [|s scores IH]; intros h; cbn [fold_left].
  - destruct h; reflexivity.
  - rewrite IH. reflexivity.
Qed.

(** X1: a history built by the constructor and fed any scores holds
    exactly the last [window_size] items of the initial fill followed by the
    scores: the window slides, and its length never changes. *)
Theorem window_holds_latest_samples :
  forall (window_size : nat) (initial_health : float)
         (scores : list float),
    let h := fold_left add_score scores (init window_size initial_health) in
    health_scores h
    = lastn window_size (repeat initial_health window_size ++ scores)
    /\ length (health_scores h) = window_size
    /\ maxlen h = window_size.
Proof.
  intros n v scores. cbv zeta. rewrite add_score_fold.
  cbn [health_scores maxlen init]. unfold deque_of.
  rewrite (deque_fold_lastn n (repeat v n) []) by (cbn; lia).
  cbn [app].
  assert (E : lastn n (repeat v n) = repeat v n).
  { unfold lastn. rewrite repeat_length, Nat.sub_diag. reflexivity. }
  rewrite E.
  rewrite deque_fold_lastn by (rewrite repeat_length; lia).
  split; [reflexivity|]. split; [|reflexivity].
  unfold lastn. rewrite length_skipn, length_app, repeat_length. lia.
Qed.

End WindowFacts.

(** ** The test file's copy of [get_ewma] *)

Section TestCopyFacts.

Lemma index_loop_is_fold (alpha : float) (suf : list float) :
  forall (pre : list float) (acc : float),
    fold_left
      (fun ewma i =>
         Health.ewma_step alpha ewma (nth i (pre ++ suf) 0%float))
      (seq (length pre) (length suf)) acc
    = fold_left (Health.ewma_step alpha) suf acc.
Proof.
  induction suf as [|x suf IH]; intros pre acc; [reflexivity|].
  cbn [length seq fold_left].
  rewrite app_nth2 by lia. rewrite Nat.sub_diag. cbn [nth].
  specialize (IH (pre ++ [x]) (Health.ewma_step alpha acc x)).
  rewrite <- app_assoc, length_app in IH. cbn [app length] in IH.
  rewrite Nat.add_1_r in IH. exact IH.
Qed.

Lemma test_copy_nonempty (alpha s0 : float) (rest : list float) (n : nat) :
  HealthTest.get_ewma
    {| Health.health_scores := s0 :: rest; Health.maxlen := n |} alpha
  = Returns (spec_ewma alpha s0 rest).
Proof.
  unfold HealthTest.get_ewma. cbn [Health.health_scores].
  replace (length (s0 :: rest) - 1)%nat with (length rest)
    by (cbn [length]; lia).
  pose proof (index_loop_is_fold alpha rest [s0] s0) as E.
  cbn [app length] in E. rewrite E. reflexivity.
Qed.

End TestCopyFacts.

(** X4: the copy of [get_ewma] in the test file returns, on a non-empty
    window, the oldest sample folded over the remaining ones; the one in
    [agents/Health.py] folds from the oldest sample smoothed with itself,
    so the two agree wherever that step leaves the oldest sample as it is,
    and differ on the window [0.3] with alpha 0.1 (0.3 against
    0.30000000000000004); on the empty window the copy returns 0 where the
    shipped one raises [IndexError]. *)
Theorem test_copy_folds_the_remaining_samples :
  forall (alpha : float) (n : nat),
    (forall (s0 : float) (rest : list float),
       HealthTest.get_ewma
         {| Health.health_scores := s0 :: rest; Health.maxlen := n |} alpha
       = Returns (spec_ewma alpha s0 rest)
       /\ Health.get_ewma
            {| Health.health_scores := s0 :: rest; Health.maxlen := n |}
            alpha
          = Returns (spec_ewma alpha (Health.ewma_step alpha s0 s0) rest)
       /\ (Health.ewma_step alpha s0 s0 = s0 ->
           Health.get_ewma
             {| Health.health_scores := s0 :: rest; Health.maxlen := n |}
             alpha
           = HealthTest.get_ewma
               {| Health.health_scores := s0 :: rest; Health.maxlen := n |}
               alpha))
    /\ HealthTest.get_ewma
         {| Health.health_scores := []; Health.maxlen := n |} alpha
       = Returns 0%float
    /\ Health.get_ewma
         {| Health.health_scores := []; Health.maxlen := n |} alpha
       = Raises IndexError
    /\ HealthTest.get_ewma Examples.lone_window PyFloat.tenth
       = Returns 0x1.3333333333333p-2%float
    /\ Health.get_ewma Examples.lone_window PyFloat.tenth
       = Returns 0x1.3333333333334p-2%float
    /\ 0x1.3333333333333p-2%float <> 0x1.3333333333334p-2%float.
Proof.
  intros alpha n. split; [|split; [|split; [|split; [|split]]]].
  - intros s0 rest. split; [apply test_copy_nonempty|].
    split; [apply get_ewma_nonempty|].
    intros H. rewrite test_copy_nonempty, get_ewma_nonempty, H. reflexivity.
  - reflexivity.
  - reflexivity.
  - vm_compute. reflexivity.
  - vm_compute. reflexivity.
  - apply eqb_false_neq; vm_compute; reflexivity.
Qed.

(** ** BaseAgent: queue depth, order of processing, retries *)

Section QueueDepthFacts.

Import Agent.
Variable _execute_task :
  BaseAgent -> Task.Task -> outcome (option Task.Payload).

Lemma process_task_depth a now :
  depth_matches a ->
  depth_matches (agent (process_task _execute_task a now)).
Proof.
  unfold depth_matches, process_task. intros Hd.
  destruct (PriorityQueue.empty (priority_queue a)) eqn:He; [exact Hd|].
  destruct (get_nonempty _ He) as ([k t0] & q & -> & Hlen).
  cbv zeta.
  destruct (_execute_task _ _) as [res|e].
  - cbn -[length Z.of_nat Z.max]. lia.
  - destruct (Task.can_retry _); cbn -[length Z.of_nat Z.max].
    + unfold PriorityQueue.put. rewrite length_app. cbn [length]. lia.
    + lia.
Qed.

Lemma apply_op_depth a o :
  depth_matches a -> depth_matches (apply_op _execute_task a o).
Proof.
  intros Hd. destruct o as [t now|now|now]; cbn [apply_op].
  - unfold depth_matches, PriorityQueue.put in *. cbn -[length Z.of_nat].
    unfold PriorityQueue.put. rewrite length_app. cbn [length]. lia.
  - apply process_task_depth. exact Hd.
  - reflexivity.
Qed.

Lemma states_depth ops :
  forall a, depth_matches a ->
    Forall depth_matches (states _execute_task a ops).
Proof.
  induction ops as [|o ops IH]; intros a Hd; cbn.
  - constructor; [exact Hd | constructor].
  - constructor; [exact Hd|]. apply IH, apply_op_depth, Hd.
Qed.

End QueueDepthFacts.

(** X5: in every state a new agent reaches through [receive_task],
    [process_task] and [reset], the workload that [get_status] reports
    equals the queue size it reports. *)
Theorem status_workload_is_queue_size :
  forall (_execute_task :
            Agent.BaseAgent -> Task.Task -> outcome (option Task.Payload))
         (fresh_id : string) (now : Z) (role : string)
         (skills : list Agent.Skill)
         (access_level : Z) (ops : list AgentOp),
    Forall
      (fun s =>
         forall t,
           AgentStatus.workload (AgentStatus.get_status s t)
           = Z.of_nat (AgentStatus.queue_size (AgentStatus.get_status s t)))
      (states _execute_task
         (Agent.init fresh_id now role skills access_level) ops).
Proof.
  intros exec fresh_id now role skills al ops.
  eapply Forall_impl; [apply (states_depth exec ops); reflexivity|].
  intros s Hs t. exact Hs.
Qed.

Section ProcessingOrderFacts.

Import PriorityQueue.

Lemma min_key_le (q : t) : forall k, min_key k q <= k.
Proof.
  induction q as [|[k' x] q IH]; intros k; cbn; [lia|].
  specialize (IH (Z.min k k')). lia.
Qed.

Lemma min_key_least (q : t) :
  forall k, Forall (fun e => min_key k q <= fst e) q.
Proof.
  induction q as [|[k' x] q IH]; intros k; cbn; constructor.
  - cbn. pose proof (min_key_le q (Z.min k k')). lia.
  - apply IH.
Qed.

Lemma remove_first_spec (k : Z) (q : t) e q' :
  remove_first k q = Some (e, q') ->
  fst e = k /\ Permutation q (e :: q').
Proof.
  revert e q'. induction q as [|[k' x] q IH]; cbn; intros e q' H;
    [discriminate|].
  destruct (Z.eqb_spec k' k) as [->|Hne].
  - inversion H; subst. split; [reflexivity | apply Permutation_refl].
  - destruct (remove_first k q) as [[e1 q1]|]; [|discriminate].
    inversion H; subst. destruct (IH _ _ eq_refl) as [Hk Hp].
    split; [exact Hk|].
    etransitivity; [apply perm_skip; exact Hp | apply perm_swap].
Qed.

(** [get] returns an entry of least key and leaves the others. *)
Lemma get_spec (q : t) e q' :
  get q = Some (e, q') ->
  Forall (fun e' => fst e <= fst e') q /\ Permutation q (e :: q').
Proof.
  destruct q as [|[k x] rest]; [discriminate|]. unfold get. intros H.
  destruct (remove_first_spec _ _ _ _ H) as [Hk Hp]. split; [|exact Hp].
  rewrite Hk. constructor.
  - cbn. apply min_key_le.
  - apply min_key_least.
Qed.

End ProcessingOrderFacts.

Section RetryFacts.

Import Agent.
Variable _execute_task :
  BaseAgent -> Task.Task -> outcome (option Task.Payload).

Lemma process_times_S n a last now :
  process_times _execute_task (S n) a last now
  = process_times _execute_task n
      (agent (process_task _execute_task a now))
      (task (process_task _execute_task a now)) now.
Proof. reflexivity. Qed.

(** One call on a lone task whose execution raises. *)
Lemma lone_failing_step (e : exn) (a : BaseAgent) (k : Z) (t : Task.Task)
    (now : Z) :
  _execute_task
    (set_workload (set_priority_queue a []) (Z.max 0 (workload a - 1)))
    (Task.increment_attempt (Task.update_status t "in_progress")) = Raises e ->
  priority_queue a = [(k, t)] ->
  exists t',
    task (process_task _execute_task a now) = Some t'
    /\ Task.type t' = Task.type t /\ Task.id t' = Task.id t
    /\ Task.priority t' = Task.priority t
    /\ Task.max_retries t' = Task.max_retries t
    /\ Task.attempt_count t' = Task.attempt_count t + 1
    /\ Task.error t' = Some e
    /\ error_count (agent (process_task _execute_task a now))
       = error_count a + 1
    /\ if Task.attempt_count t + 1 <? Task.max_retries t
       then Task.status t' = "retry_pending"%string
            /\ priority_queue (agent (process_task _execute_task a now))
               = [(- Z.max 1 (Task.priority t - 1), t')]
            /\ workload (agent (process_task _execute_task a now))
               = Z.max 0 (workload a - 1) + 1
       else Task.status t' = "failed"%string
            /\ priority_queue (agent (process_task _execute_task a now)) = []
            /\ workload (agent (process_task _execute_task a now))
               = Z.max 0 (workload a - 1).
Proof.
  intros Hfail Hq. unfold process_task. rewrite Hq.
  cbn [PriorityQueue.empty]. unfold PriorityQueue.get.
  cbn [PriorityQueue.min_key PriorityQueue.remove_first].
  rewrite Z.eqb_refl. cbv zeta.
  cbn [workload set_priority_queue]. rewrite Hfail.
  unfold Task.can_retry.
  cbn [Task.set_error Task.increment_attempt Task.update_status
       Task.set_status Task.set_attempt_count Task.attempt_count
       Task.max_retries].
  destruct (Task.attempt_count t + 1 <? Task.max_retries t);
    eexists; repeat split; reflexivity.
Qed.

(** A lone queued task whose execution keeps failing, with [S d] attempts
    left: it is retried [d] times and fails for good on the next call. *)
Lemma failing_task_exhausts (e : exn) (ty : string) (d : nat) :
  (forall a' t', Task.type t' = ty -> _execute_task a' t' = Raises e) ->
  forall (a : BaseAgent) (k : Z) (t : Task.Task) (last : option Task.Task)
         (now : Z),
    Task.type t = ty ->
    priority_queue a = [(k, t)] ->
    Task.attempt_count t + Z.of_nat (S d) = Task.max_retries t ->
    exists a' t',
      process_times _execute_task (S d) a last now = (a', Some t')
      /\ priority_queue a' = []
      /\ error_count a' = error_count a + Z.of_nat (S d)
      /\ workload a' = Z.max 0 (workload a - 1)
      /\ Task.status t' = "failed"%string
      /\ Task.attempt_count t' = Task.max_retries t
      /\ Task.priority t' = Task.priority t
      /\ Task.id t' = Task.id t.
Proof.
  intros Hfail. induction d as [|d IH]; intros a k t last now Hty Hq Hleft;
    rewrite process_times_S;
    destruct (lone_failing_step e a k t now
                (Hfail _ (Task.increment_attempt
                            (Task.update_status t "in_progress")) Hty) Hq)
      as (t1 & Ht1 & Hty1 & Hid1 & Hp1 & Hm1 & Hc1 & _ & He1 & Hcase).
  - replace (Task.attempt_count t + 1 <? Task.max_retries t) with false
      in Hcase by (symmetry; apply Z.ltb_ge; lia).
    destruct Hcase as (Hs & Hq1 & Hw1).
    exists (agent (process_task _execute_task a now)), t1.
    cbn [process_times]. rewrite Ht1.
    repeat split; try assumption; try lia.
  - replace (Task.attempt_count t + 1 <? Task.max_retries t) with true
      in Hcase by (symmetry; apply Z.ltb_lt; lia).
    destruct Hcase as (Hs & Hq1 & Hw1).
    destruct (IH (agent (process_task _execute_task a now))
                (- Z.max 1 (Task.priority t - 1)) t1
                (task (process_task _execute_task a now)) now)
      as (a' & t' & E & Hq' & He' & Hw' & Hs' & Hc' & Hp' & Hi');
      [congruence | exact Hq1 | lia |].
    exists a', t'. rewrite E.
    repeat split; try assumption; try congruence; lia.
Qed.

End RetryFacts.

(** X7: a lone queued task with no attempts so far and [max_retries >= 1],
    whose execution always raises, is executed exactly [max_retries] times:
    after that many [process_task] calls the queue is empty, the error
    counter has grown by [max_retries], and the task is ["failed"] with
    [attempt_count = max_retries], its own priority untouched. *)
Theorem failing_task_runs_max_retries_times
  (_execute_task :
     Agent.BaseAgent -> Task.Task -> outcome (option Task.Payload))
  (e : exn) (a : Agent.BaseAgent) (k : Z) (t : Task.Task) (now : Z) :
  (forall a' t', Task.type t' = Task.type t -> _execute_task a' t' = Raises e) ->
  Agent.priority_queue a = [(k, t)] ->
  Task.attempt_count t = 0 ->
  1 <= Task.max_retries t ->
  exists a' t',
    process_times _execute_task (Z.to_nat (Task.max_retries t)) a None now
    = (a', Some t')
    /\ Agent.priority_queue a' = []
    /\ Agent.error_count a' = Agent.error_count a + Task.max_retries t
    /\ Agent.workload a' = Z.max 0 (Agent.workload a - 1)
    /\ Task.status t' = "failed"%string
    /\ Task.attempt_count t' = Task.max_retries t
    /\ Task.priority t' = Task.priority t
    /\ Task.id t' = Task.id t.
Proof.
  intros Hfail Hq Hc Hm.
  destruct (Z.to_nat (Task.max_retries t)) as [|d] eqn:En; [lia|].
  destruct (failing_task_exhausts _execute_task e (Task.type t) d Hfail
              a k t None now eq_refl Hq)
    as (a' & t' & E & Hq' & He' & Hw' & Hs & Hc' & Hp & Hi); [lia|].
  exists a', t'. repeat split; try assumption. lia.
Qed.

Lemma flaky_fails_on_x :
  forall (a' : Agent.BaseAgent) (t' : Task.Task),
    Task.type t' = Task.type MoreExamples.queued_task5 ->
    Examples.flaky_execute a' t' = Raises (TaskExecutionError "boom").
Proof.
  intros a' t' H. unfold Examples.flaky_execute. rewrite H. reflexivity.
Defined.

Lemma failing_task_runs_max_retries_times_witness :
  exists a' t',
    process_times Examples.flaky_execute
      (Z.to_nat (Task.max_retries MoreExamples.queued_task5))
      MoreExamples.loaded_agent None 5
    = (a', Some t')
    /\ Agent.priority_queue a' = []
    /\ Agent.error_count a'
       = Agent.error_count MoreExamples.loaded_agent
         + Task.max_retries MoreExamples.queued_task5
    /\ Agent.workload a'
       = Z.max 0 (Agent.workload MoreExamples.loaded_agent - 1)
    /\ Task.status t' = "failed"%string
    /\ Task.attempt_count t' = Task.max_retries MoreExamples.queued_task5
    /\ Task.priority t' = Task.priority MoreExamples.queued_task5
    /\ Task.id t' = Task.id MoreExamples.queued_task5.
Proof.
  apply (failing_task_runs_max_retries_times Examples.flaky_execute
           (TaskExecutionError "boom") MoreExamples.loaded_agent (-5)
           MoreExamples.queued_task5 5).
  - exact flaky_fails_on_x.
  - reflexivity.
  - reflexivity.
  - cbn. lia.
Defined.

(** ** BaseAgent: messages received *)

Section InboxFacts.

Import Agent.
Variable repr_message : Message -> string.

(** The two outcomes of [receive_message]. *)
Lemma receive_message_cases reg self sender_id message now :
  let r := receive_message repr_message reg self sender_id message now in
  (snd r = Returns true
   /\ (exists sender, get_agent reg sender_id = Some sender
                      /\ access_level self <= access_level sender)
   /\ communication_channel (fst r)
      = <[sender_id := message]> (communication_channel self)
   /\ same_work self (fst r))
  \/ (snd r = Returns false
      /\ ~ (exists sender, get_agent reg sender_id = Some sender
                           /\ access_level self <= access_level sender)
      /\ communication_channel (fst r) = communication_channel self
      /\ same_work self (fst r)).
Proof.
  cbv zeta. unfold receive_message, receive_message_try.
  destruct (get_agent reg sender_id) as [sender|].
  - destruct (Z.ltb_spec (access_level sender) (access_level self)).
    + right. cbn. repeat split; try reflexivity.
      intros (s & Hs & Hle). inversion Hs; subst. lia.
    + left. cbn. repeat split; try reflexivity. exists sender. split; auto.
  - right. cbn. repeat split; try reflexivity.
    intros (s & Hs & _). discriminate.
Qed.

End InboxFacts.

(** X9: [receive_message] returns [True] exactly when the sender is
    registered with an access level not below the receiver's; then the
    message is stored under the sender's id, replacing an earlier one from
    that sender; otherwise the inbox stays as it was.  Either way nothing
    but inbox, audit log and time of last activity changes. *)
Theorem receive_message_accepts_iff_level :
  forall (repr_message : Agent.Message -> string) (reg : Agent.Registry)
         (self : Agent.BaseAgent) (sender_id : string)
         (message : Agent.Message) (now : Z),
    let r := Agent.receive_message repr_message reg self sender_id
               message now in
    (snd r = Returns true
     <-> exists sender, Agent.get_agent reg sender_id = Some sender
                        /\ Agent.access_level self <= Agent.access_level sender)
    /\ (snd r = Returns true \/ snd r = Returns false)
    /\ Agent.communication_channel (fst r)
       = match snd r with
         | Returns true =>
             <[sender_id := message]> (Agent.communication_channel self)
         | _ => Agent.communication_channel self
         end
    /\ same_work self (fst r)
    /\ forall message2 now2,
         let r2 := Agent.receive_message repr_message reg (fst r) sender_id
                     message2 now2 in
         snd r2 = snd r
         /\ (snd r = Returns true ->
             Agent.communication_channel (fst r2) !! sender_id
             = Some message2).
Proof.
  intros repr reg self sender_id message now. cbv zeta.
  destruct (receive_message_cases repr reg self sender_id message now)
    as [(Hr & Hex & Hch & Hsw)|(Hr & Hnex & Hch & Hsw)];
    cbv zeta in *.
  - rewrite Hr. split; [tauto|]. split; [auto|]. split; [exact Hch|].
    split; [exact Hsw|]. intros m2 now2.
    destruct (receive_message_cases repr reg
                (fst (Agent.receive_message repr reg self sender_id
                        message now)) sender_id m2 now2)
      as [(Hr2 & _ & Hch2 & _)|(Hr2 & Hnex2 & _)]; cbv zeta in *.
    + split; [exact Hr2|]. intros _. rewrite Hch2. apply lookup_insert_eq.
    + exfalso. apply Hnex2. destruct Hex as (s & Hs & Hle).
      exists s. split; [exact Hs|].
      destruct Hsw as (_ & _ & _ & _ & _ & Hal & _). lia.
  - rewrite Hr. split; [split; [discriminate | tauto]|]. split; [auto|].
    split; [exact Hch|]. split; [exact Hsw|]. intros m2 now2.
    destruct (receive_message_cases repr reg
                (fst (Agent.receive_message repr reg self sender_id
                        message now)) sender_id m2 now2)
      as [(Hr2 & Hex2 & _)|(Hr2 & _)]; cbv zeta in *.
    + exfalso. apply Hnex. destruct Hex2 as (s & Hs & Hle).
      exists s. split; [exact Hs|].
      destruct Hsw as (_ & _ & _ & _ & _ & Hal & _). lia.
    + split; [exact Hr2 | discriminate].
Qed.

(** ** BaseAgent: what a round trip through [to_dict] gives back *)

Section RoundTripMore.

Import Agent.

Lemma deque_of_short (n : nat) (l : list float) :
  (length l <= n)%nat -> Health.deque_of n l = l.
Proof.
  intros H. unfold Health.deque_of.
  rewrite deque_fold_lastn by (cbn; lia). cbn [app]. unfold lastn.
  replace (length l - n)%nat with O by lia. reflexivity.
Qed.

Lemma negate_keys_twice (q : PriorityQueue.t) :
  map (fun e => (- fst e, snd e)) (map (fun e => (- fst e, snd e)) q) = q.
Proof.
  induction q as [|[k x] q IH]; cbn; [reflexivity|].
  rewrite IH, Z.opp_involutive. reflexivity.
Qed.

Lemma to_dict_queue_contents (a : BaseAgent) :
  d_priority_queue_contents (to_dict a)
  = map (fun e => (- fst e, Task.to_dict (snd e))) (priority_queue a).
Proof.
  unfold to_dict, PriorityQueue.queue. cbn [d_priority_queue_contents].
  apply map_ext. intros [k t]. reflexivity.
Qed.

End RoundTripMore.

(** X10: for an agent whose health window holds at most 10 samples,
    [to_dict] lists the queued entries with their keys negated, and
    [from_dict(to_dict(agent))] is an agent whose queue holds these
    entries, every key negated, with the window bound set to 10 and
    [capacity] unset; no other attribute differs.  A second round trip
    gives back the entries of the original queue.  (The contents of a
    queue are compared up to the order of the underlying list.) *)
Theorem agent_round_trip_negates_keys
  (fresh_id : string) (now : Z) (a : Agent.BaseAgent) :
  (length (Health.health_scores (Agent.health_history a)) <= 10)%nat ->
  let b := Agent.from_dict fresh_id now (Agent.to_dict a) in
  Permutation (Agent.d_priority_queue_contents (Agent.to_dict a))
    (map (fun e => (- fst e, Task.to_dict (snd e))) (Agent.priority_queue a))
  /\ Permutation (Agent.priority_queue b)
       (map (fun e => (- fst e, snd e)) (Agent.priority_queue a))
  /\ Agent.set_priority_queue b (Agent.priority_queue a)
     = {| Agent.id := Agent.id a; Agent.role := Agent.role a;
          Agent.skills := Agent.skills a;
          Agent.audit_log := Agent.audit_log a;
          Agent.workload := Agent.workload a;
          Agent.communication_channel := Agent.communication_channel a;
          Agent.priority_queue := Agent.priority_queue a;
          Agent.access_level := Agent.access_level a;
          Agent.created_at := Agent.created_at a;
          Agent.last_active := Agent.last_active a;
          Agent.status := Agent.status a;
          Agent.error_count := Agent.error_count a;
          Agent.health_history :=
            {| Health.health_scores :=
                 Health.health_scores (Agent.health_history a);
               Health.maxlen := 10 |};
          Agent.capacity := None |}
  /\ forall fresh_id2 now2,
       Permutation
         (Agent.priority_queue
            (Agent.from_dict fresh_id2 now2 (Agent.to_dict b)))
         (Agent.priority_queue a).
Proof.
  intros Hlen. cbv zeta.
  split; [rewrite to_dict_queue_contents; reflexivity|].
  split; [rewrite from_dict_to_dict_queue; reflexivity|]. split.
  - unfold Agent.from_dict, Agent.to_dict, Agent.set_priority_queue.
    cbn [Agent.d_id Agent.d_role Agent.d_skills Agent.d_audit_log
         Agent.d_workload Agent.d_communication_channel Agent.d_access_level
         Agent.d_created_at Agent.d_last_active Agent.d_status
         Agent.d_error_count Agent.d_priority_queue_contents
         Agent.d_health_history Agent.init Agent.id Agent.role Agent.skills
         Agent.audit_log Agent.workload Agent.communication_channel
         Agent.access_level Agent.created_at Agent.last_active Agent.status
         Agent.error_count Agent.health_history Agent.capacity].
    change (Health.maxlen Health.default) with 10%nat.
    rewrite deque_of_short by exact Hlen. reflexivity.
  - intros f2 n2. rewrite !from_dict_to_dict_queue, negate_keys_twice.
    reflexivity.
Qed.

Lemma busy_agent_window_short :
  (length (Health.health_scores (Agent.health_history Examples.busy_agent))
   <= 10)%nat.
Proof. vm_compute. apply le_n. Defined.

Lemma agent_round_trip_negates_keys_witness :
  let b := Agent.from_dict "fresh-id" 9 (Agent.to_dict Examples.busy_agent) in
  Permutation
    (Agent.d_priority_queue_contents (Agent.to_dict Examples.busy_agent))
    (map (fun e => (- fst e, Task.to_dict (snd e)))
       (Agent.priority_queue Examples.busy_agent))
  /\ Permutation (Agent.priority_queue b)
       (map (fun e => (- fst e, snd e))
          (Agent.priority_queue Examples.busy_agent))
  /\ Agent.set_priority_queue b (Agent.priority_queue Examples.busy_agent)
     = {| Agent.id := Agent.id Examples.busy_agent;
          Agent.role := Agent.role Examples.busy_agent;
          Agent.skills := Agent.skills Examples.busy_agent;
          Agent.audit_log := Agent.audit_log Examples.busy_agent;
          Agent.workload := Agent.workload Examples.busy_agent;
          Agent.communication_channel :=
            Agent.communication_channel Examples.busy_agent;
          Agent.priority_queue := Agent.priority_queue Examples.busy_agent;
          Agent.access_level := Agent.access_level Examples.busy_agent;
          Agent.created_at := Agent.created_at Examples.busy_agent;
          Agent.last_active := Agent.last_active Examples.busy_agent;
          Agent.status := Agent.status Examples.busy_agent;
          Agent.error_count := Agent.error_count Examples.busy_agent;
          Agent.health_history :=
            {| Health.health_scores :=
                 Health.health_scores
                   (Agent.health_history Examples.busy_agent);
               Health.maxlen := 10 |};
          Agent.capacity := None |}
  /\ forall fresh_id2 now2,
       Permutation
         (Agent.priority_queue
            (Agent.from_dict fresh_id2 now2 (Agent.to_dict b)))
         (Agent.priority_queue Examples.busy_agent).
Proof.
  apply (agent_round_trip_negates_keys "fresh-id" 9 Examples.busy_agent).
  exact busy_agent_window_short.
Defined.

(** ** BaseAgent: delivery of results *)

Section DeliveryFacts.

Import Agent Messaging.
Variable repr_message : Message -> string.

Lemma same_work_refl a : same_work a a.
Proof. repeat split. Qed.

Lemma same_work_trans a b c : same_work a b -> same_work b c -> same_work a c.
Proof.
  unfold same_work. intros H1 H2.
  destruct H1 as (?&?&?&?&?&?&?&?&?&?&?).
  destruct H2 as (?&?&?&?&?&?&?&?&?&?&?).
  repeat split; congruence.
Qed.

Lemma same_agents_refl reg : same_agents reg reg.
Proof.
  induction reg as [|e reg IH]; constructor; auto.
  split; [reflexivity | apply same_work_refl].
Qed.

Lemma same_agents_trans r1 r2 r3 :
  same_agents r1 r2 -> same_agents r2 r3 -> same_agents r1 r3.
Proof.
  intros H1. revert r3. induction H1 as [|e1 e2 r1 r2 [Hk Hw] _ IH];
    intros r3 H2; inversion H2 as [|x e3 y r3' [Hk' Hw'] H3]; subst.
  - constructor.
  - constructor; [|apply IH; exact H3].
    split; [congruence | eapply same_work_trans; eauto].
Qed.

Lemma set_agent_same_agents reg key a b :
  get_agent reg key = Some a -> same_work a b ->
  same_agents reg (set_agent reg key b).
Proof.
  induction reg as [|[k x] reg IH]; cbn; intros Hg Hw; [discriminate|].
  destruct (String.eqb k key).
  - inversion Hg; subst. constructor; [|apply same_agents_refl].
    split; [reflexivity | exact Hw].
  - constructor; [|apply IH; assumption].
    split; [reflexivity | apply same_work_refl].
Qed.

Lemma set_agent_same reg key a :
  get_agent reg key = Some a -> set_agent reg key a = reg.
Proof.
  induction reg as [|[k x] reg IH]; cbn; intros Hg; [reflexivity|].
  destruct (String.eqb k key).
  - inversion Hg; subst. reflexivity.
  - rewrite IH by exact Hg. reflexivity.
Qed.

Lemma deliver_to_same_agents self message now reg child_id :
  same_agents reg (deliver_to repr_message self message now reg child_id).
Proof.
  unfold deliver_to.
  destruct (get_agent reg child_id) as [child|] eqn:Hg;
    [|apply same_agents_refl].
  eapply set_agent_same_agents; [exact Hg|].
  destruct (receive_message_cases repr_message reg child (id self)
              message now) as [(_ & _ & _ & H)|(_ & _ & _ & H)]; exact H.
Qed.

Lemma deliver_to_unknown_sender self message now reg child_id :
  get_agent reg (id self) = None ->
  deliver_to repr_message self message now reg child_id = reg.
Proof.
  intros Hs. unfold deliver_to.
  destruct (get_agent reg child_id) as [child|] eqn:Hg; [|reflexivity].
  rewrite (receive_message_unknown_sender repr_message reg child (id self)
             message now Hs).
  apply set_agent_same. exact Hg.
Qed.

Lemma deliveries_same_agents self message now children :
  forall reg,
    same_agents reg
      (fold_left (deliver_to repr_message self message now) children reg).
Proof.
  induction children as [|c children IH]; intros reg; cbn [fold_left].
  - apply same_agents_refl.
  - eapply same_agents_trans; [apply deliver_to_same_agents | apply IH].
Qed.

Lemma deliveries_unknown_sender self message now children :
  forall reg,
    get_agent reg (id self) = None ->
    fold_left (deliver_to repr_message self message now) children reg = reg.
Proof.
  induction children as [|c children IH]; intros reg Hs; cbn [fold_left].
  - reflexivity.
  - rewrite deliver_to_unknown_sender by exact Hs. apply IH. exact Hs.
Qed.

End DeliveryFacts.

(** X11: [communicate_result] keeps the registry's keys and their order,
    and changes no agent's id, role, skills, workload, queue, access level,
    status, error count, health or capacity: only inboxes, audit logs and
    times of last activity can differ.  When the sending agent is not itself
    registered, nothing changes at all. *)
Theorem communicate_result_only_touches_inboxes :
  forall (repr_message : Agent.Message -> string) (reg : Agent.Registry)
         (self : Agent.BaseAgent) (task : Task.Task)
         (result : option Task.Payload) (now : Z),
    same_agents reg
      (Messaging.communicate_result repr_message reg self task result now)
    /\ (Agent.get_agent reg (Agent.id self) = None ->
        Messaging.communicate_result repr_message reg self task result now
        = reg).
Proof.
  intros repr reg self task result now.
  unfold Messaging.communicate_result.
  destruct (Task.children task) as [|c cs].
  - split; [apply same_agents_refl | reflexivity].
  - split; [apply deliveries_same_agents|].
    intros Hs. apply deliveries_unknown_sender. exact Hs.
Qed.

(** ** BaseAgent: the whole call of [process_task] *)

Section WholeCallFacts.

Import Agent Messaging.
Variable repr_message : Message -> string.
Variable _execute_task : BaseAgent -> Task.Task -> outcome (option Task.Payload).

Lemma appends_same_log n a a' :
  id a' = id a -> role a' = role a -> audit_log a' = audit_log a ->
  appends_to_log n a a'.
Proof.
  intros Hi Hr Hl. split; [exact Hi|]. split; [exact Hr|].
  exists []. rewrite app_nil_r. repeat split; [exact Hl | cbn; lia | constructor].
Qed.

Lemma appends_one a a' ev tid det now :
  id a' = id a -> role a' = role a ->
  audit_log a'
  = audit_log a ++ [{| timestamp := now; agent_id := id a;
                       agent_role := role a; event := ev; task_id := tid;
                       details := det |}] ->
  appends_to_log 1 a a'.
Proof.
  intros Hi Hr H. split; [exact Hi|]. split; [exact Hr|].
  eexists. split; [exact H|]. split; [cbn; lia|].
  repeat constructor.
Qed.

Lemma appends_mono n m a a' :
  (n <= m)%nat -> appends_to_log n a a' -> appends_to_log m a a'.
Proof.
  intros Hnm (Hi & Hr & suffix & Hl & Hlen & Hall).
  split; [exact Hi|]. split; [exact Hr|].
  exists suffix. repeat split; [exact Hl | lia | exact Hall].
Qed.

Lemma appends_trans n m a b c :
  appends_to_log n a b -> appends_to_log m b c ->
  appends_to_log (n + m) a c.
Proof.
  intros (Hi & Hr & s1 & Hl1 & Hlen1 & Hall1)
         (Hi' & Hr' & s2 & Hl2 & Hlen2 & Hall2).
  split; [congruence|]. split; [congruence|].
  exists (s1 ++ s2). split; [rewrite Hl2, Hl1, app_assoc; reflexivity|].
  split; [rewrite length_app; lia|].
  apply Forall_app. split; [exact Hall1|].
  rewrite Hi, Hr in Hall2. exact Hall2.
Qed.

Lemma logs_grow_refl n reg : logs_grow n reg reg.
Proof.
  induction reg as [|e reg IH]; constructor; auto.
  split; [reflexivity | apply appends_same_log; reflexivity].
Qed.

Lemma logs_grow_trans n m r1 r2 r3 :
  logs_grow n r1 r2 -> logs_grow m r2 r3 -> logs_grow (n + m) r1 r3.
Proof.
  intros H1. revert r3. induction H1 as [|e1 e2 r1 r2 [Hk Hw] _ IH];
    intros r3 H2; inversion H2 as [|x e3 y r3' [Hk' Hw'] H3]; subst.
  - constructor.
  - constructor; [|apply IH; exact H3].
    split; [congruence | eapply appends_trans; eauto].
Qed.

Lemma set_agent_logs_grow n reg key a b :
  get_agent reg key = Some a -> appends_to_log n a b ->
  logs_grow n reg (set_agent reg key b).
Proof.
  induction reg as [|[k x] reg IH]; cbn; intros Hg Hw; [discriminate|].
  destruct (String.eqb k key).
  - inversion Hg; subst. constructor; [|apply logs_grow_refl].
    split; [reflexivity | exact Hw].
  - constructor; [|apply IH; assumption].
    split; [reflexivity | apply appends_same_log; reflexivity].
Qed.

Lemma receive_task_appends a task now :
  appends_to_log 1 a (fst (fst (receive_task a task now))).
Proof. eapply appends_one; reflexivity. Qed.

Lemma receive_message_appends reg self sender_id message now :
  appends_to_log 1 self
    (fst (receive_message repr_message reg self sender_id message now)).
Proof.
  unfold receive_message, receive_message_try.
  destruct (get_agent reg sender_id) as [sender|];
    [|apply appends_same_log; reflexivity].
  destruct (access_level sender <? access_level self);
    eapply appends_one; reflexivity.
Qed.

Lemma own_statements_append a now :
  appends_to_log 1 a (agent (Agent.process_task _execute_task a now)).
Proof.
  unfold Agent.process_task.
  destruct (PriorityQueue.empty (priority_queue a));
    [apply appends_same_log; reflexivity|].
  destruct (PriorityQueue.get (priority_queue a)) as [[[k t0] q]|];
    [|apply appends_same_log; reflexivity].
  cbv zeta. destruct (_execute_task _ _) as [res|e].
  - eapply appends_one; reflexivity.
  - destruct (Task.can_retry _); eapply appends_one; reflexivity.
Qed.

Lemma deliver_to_logs_grow self message now reg child_id :
  logs_grow 1 reg (deliver_to repr_message self message now reg child_id).
Proof.
  unfold deliver_to.
  destruct (get_agent reg child_id) as [child|] eqn:Hg;
    [|apply logs_grow_refl].
  eapply set_agent_logs_grow; [exact Hg|]. apply receive_message_appends.
Qed.

Lemma deliveries_logs_grow self message now children :
  forall reg,
    logs_grow (length children) reg
      (fold_left (deliver_to repr_message self message now) children reg).
Proof.
  induction children as [|c children IH]; intros reg; cbn [fold_left length].
  - apply logs_grow_refl.
  - change (S (length children)) with (1 + length children)%nat.
    eapply logs_grow_trans; [apply deliver_to_logs_grow | apply IH].
Qed.

Lemma communicate_result_logs_grow reg self task result now :
  logs_grow (length (Task.children task)) reg
    (communicate_result repr_message reg self task result now).
Proof.
  unfold communicate_result.
  destruct (Task.children task) as [|c cs] eqn:Hc;
    [apply logs_grow_refl|].
  apply deliveries_logs_grow.
Qed.

Lemma touch_logs_grow reg key now : logs_grow 0 reg (touch reg key now).
Proof.
  unfold touch. destruct (get_agent reg key) as [a|] eqn:Hg;
    [|apply logs_grow_refl].
  eapply set_agent_logs_grow; [exact Hg|]. apply appends_same_log; reflexivity.
Qed.

Lemma touch_same_agents reg key now : same_agents reg (touch reg key now).
Proof.
  unfold touch. destruct (get_agent reg key) as [a|] eqn:Hg;
    [|apply same_agents_refl].
  eapply set_agent_same_agents; [exact Hg|]. repeat split.
Qed.

Lemma get_agent_set_agent reg key a b :
  get_agent reg key = Some a -> get_agent (set_agent reg key b) key = Some b.
Proof.
  induction reg as [|[k x] reg IH]; cbn; intros Hg; [discriminate|].
  destruct (String.eqb k key) eqn:Hk; cbn; rewrite Hk; auto.
Qed.

Lemma same_agents_get_agent reg reg' key a :
  same_agents reg reg' -> get_agent reg key = Some a ->
  exists a', get_agent reg' key = Some a' /\ same_work a a'.
Proof.
  intros H. induction H as [|[k x] [k' x'] r r' [Hk Hw] _ IH]; cbn;
    intros Hg; [discriminate|].
  cbn in Hk, Hw. subst k'. destruct (String.eqb k key).
  - inversion Hg; subst. exists x'. split; [reflexivity | exact Hw].
  - apply IH. exact Hg.
Qed.

(** The agent found under [key] after the whole call does the same work
    as the agent its own statements left. *)
Lemma whole_call_same_work reg key a now :
  get_agent reg key = Some a ->
  exists r a',
    snd (Messaging.process_task repr_message _execute_task reg key now)
    = Some r
    /\ r = Agent.process_task _execute_task a now
    /\ get_agent
         (fst (Messaging.process_task repr_message _execute_task reg key now))
         key = Some a'
    /\ same_work (agent r) a'.
Proof.
  intros Hg. unfold Messaging.process_task. rewrite Hg. cbv zeta.
  set (r := Agent.process_task _execute_task a now).
  pose proof (get_agent_set_agent reg key a (agent r) Hg) as H1.
  destruct (notified r) as [[task result]|]; cbn [fst snd].
  - destruct (same_agents_get_agent (set_agent reg key (agent r))
                (touch
                   (communicate_result repr_message
                      (set_agent reg key (agent r)) (agent r) task result now)
                   key now) key (agent r)) as (a' & Ha' & Hw); [|exact H1|].
    + eapply same_agents_trans;
        [apply communicate_result_only_touches_inboxes
        | apply touch_same_agents].
    + exists r, a'. repeat split; auto; apply Hw.
  - exists r, (agent r). repeat split; auto.
Qed.

(** What the whole call adds to the logs of the registry. *)
Lemma whole_call_logs_grow reg key now :
  logs_grow
    (match snd (Messaging.process_task repr_message _execute_task reg key now)
     with
     | Some r =>
         match notified r with
         | Some (task, _) => S (length (Task.children task))
         | None => 1
         end
     | None => 0
     end)
    reg
    (fst (Messaging.process_task repr_message _execute_task reg key now)).
Proof.
  unfold Messaging.process_task.
  destruct (get_agent reg key) as [a|] eqn:Hg;
    [|cbn [fst snd]; apply logs_grow_refl].
  cbv zeta. set (r := Agent.process_task _execute_task a now).
  assert (H1 : logs_grow 1 reg (set_agent reg key (agent r))).
  { eapply set_agent_logs_grow; [exact Hg | apply own_statements_append]. }
  destruct (notified r) as [[task result]|] eqn:Hn; cbn [fst snd];
    rewrite Hn; [|exact H1].
  replace (S (length (Task.children task)))
    with (1 + (length (Task.children task) + 0))%nat by lia.
  eapply logs_grow_trans; [exact H1|].
  eapply logs_grow_trans;
    [apply communicate_result_logs_grow | apply touch_logs_grow].
Qed.

End WholeCallFacts.

(** X6: [process_task], called on a registered agent whose queue is not
    empty, works on an entry whose key is least -- with keys [-priority], a
    task of greatest priority -- counts one more attempt for it, and takes
    exactly that entry out of the agent's queue.  The other entries stay
    queued as they were; the task is appended again, under the key
    [-max(1, priority - 1)], exactly when its execution raised and attempts
    are left, its status then being 'retry_pending'; on success it is
    'completed', and with no attempt left 'failed'. *)
Theorem process_task_takes_least_key
  (repr_message : Agent.Message -> string)
  (_execute_task :
     Agent.BaseAgent -> Task.Task -> outcome (option Task.Payload))
  (reg : Agent.Registry) (key : string) (a : Agent.BaseAgent) (now : Z) :
  Agent.get_agent reg key = Some a ->
  PriorityQueue.empty (Agent.priority_queue a) = false ->
  exists k t0 q' r t a',
    PriorityQueue.get (Agent.priority_queue a) = Some ((k, t0), q')
    /\ Forall (fun e => k <= fst e) (Agent.priority_queue a)
    /\ Permutation (Agent.priority_queue a) ((k, t0) :: q')
    /\ snd (Messaging.process_task repr_message _execute_task reg key now)
       = Some r
    /\ Agent.task r = Some t
    /\ Task.id t = Task.id t0
    /\ Task.attempt_count t = Task.attempt_count t0 + 1
    /\ Agent.get_agent
         (fst (Messaging.process_task repr_message _execute_task reg key now))
         key = Some a'
    /\ match
         _execute_task
           (Agent.set_workload (Agent.set_priority_queue a q')
              (Z.max 0 (Agent.workload a - 1)))
           (Task.increment_attempt (Task.update_status t0 "in_progress"))
       with
       | Returns res =>
           Task.status t = "completed"%string
           /\ Agent.priority_queue a' = q'
       | Raises e =>
           if Task.attempt_count t <? Task.max_retries t
           then Task.status t = "retry_pending"%string
                /\ Agent.priority_queue a'
                   = q' ++ [(- Z.max 1 (Task.priority t - 1), t)]
           else Task.status t = "failed"%string
                /\ Agent.priority_queue a' = q'
       end.
Proof.
  intros Hg He. destruct (get_nonempty _ He) as ([k t0] & q' & Hget & _).
  destruct (get_spec _ _ _ Hget) as [Hmin Hperm].
  destruct (whole_call_same_work repr_message _execute_task reg key a now Hg)
    as (r & a' & Hr & Hown & Ha' & Hw).
  assert (Hq : Agent.priority_queue a' = Agent.priority_queue (Agent.agent r))
    by (symmetry; apply Hw).
  clear Hw. subst r. revert Hr Ha' Hq.
  generalize (Messaging.process_task repr_message _execute_task reg key now)
    as whole.
  unfold Agent.process_task. rewrite He, Hget. cbv zeta.
  change (Agent.workload (Agent.set_priority_queue a q'))
    with (Agent.workload a).
  destruct (_execute_task _ _) as [res|e] eqn:Hx.
  - intros whole Hr Ha' Hq. exists k, t0, q'. eexists. eexists. exists a'.
    rewrite Hx, Hq.
    split; [reflexivity|]. split; [exact Hmin|]. split; [exact Hperm|].
    split; [exact Hr|]. repeat split; auto.
  - unfold Task.can_retry.
    change (Task.attempt_count (Task.set_error ?t e))
      with (Task.attempt_count t).
    change (Task.max_retries (Task.set_error ?t e))
      with (Task.max_retries t).
    destruct (_ <? _) eqn:Hc.
    + intros whole Hr Ha' Hq. exists k, t0, q'. eexists. eexists. exists a'.
      rewrite Hx, Hq.
      split; [reflexivity|]. split; [exact Hmin|]. split; [exact Hperm|].
      split; [exact Hr|]. split; [reflexivity|].
      split; [reflexivity|]. split; [reflexivity|]. split; [exact Ha'|].
      cbn. cbn in Hc. rewrite Hc. split; reflexivity.
    + intros whole Hr Ha' Hq. exists k, t0, q'. eexists. eexists. exists a'.
      rewrite Hx, Hq.
      split; [reflexivity|]. split; [exact Hmin|]. split; [exact Hperm|].
      split; [exact Hr|]. split; [reflexivity|].
      split; [reflexivity|]. split; [reflexivity|]. split; [exact Ha'|].
      cbn. cbn in Hc. rewrite Hc. split; reflexivity.
Qed.

Lemma process_task_takes_least_key_witness :
  exists k t0 q' r t a',
    PriorityQueue.get (Agent.priority_queue Examples.busy_agent)
    = Some ((k, t0), q')
    /\ Forall (fun e => k <= fst e) (Agent.priority_queue Examples.busy_agent)
    /\ Permutation (Agent.priority_queue Examples.busy_agent) ((k, t0) :: q')
    /\ snd (Messaging.process_task Examples.repr_message
              Examples.flaky_execute MoreExamples.busy_registry "agent-1" 3)
       = Some r
    /\ Agent.task r = Some t
    /\ Task.id t = Task.id t0
    /\ Task.attempt_count t = Task.attempt_count t0 + 1
    /\ Agent.get_agent
         (fst (Messaging.process_task Examples.repr_message
                 Examples.flaky_execute MoreExamples.busy_registry
                 "agent-1" 3))
         "agent-1" = Some a'
    /\ match
         Examples.flaky_execute
           (Agent.set_workload
              (Agent.set_priority_queue Examples.busy_agent q')
              (Z.max 0 (Agent.workload Examples.busy_agent - 1)))
           (Task.increment_attempt (Task.update_status t0 "in_progress"))
       with
       | Returns res =>
           Task.status t = "completed"%string
           /\ Agent.priority_queue a' = q'
       | Raises e =>
           if Task.attempt_count t <? Task.max_retries t
           then Task.status t = "retry_pending"%string
                /\ Agent.priority_queue a'
                   = q' ++ [(- Z.max 1 (Task.priority t - 1), t)]
           else Task.status t = "failed"%string
                /\ Agent.priority_queue a' = q'
       end.
Proof.
  apply (process_task_takes_least_key Examples.repr_message
           Examples.flaky_execute MoreExamples.busy_registry "agent-1"
           Examples.busy_agent 3).
  - reflexivity.
  - reflexivity.
Defined.

(** X8: the audit log is append-only outside [reset].  [receive_task] and
    [receive_message] keep the entries already logged and add at most one
    entry, stamped with the agent's own id and role, and so do the
    statements of [process_task] that are the agent's own.  The whole call
    of [process_task] on a registered agent, the [communicate_result]
    inside it included, keeps the keys of the registry and every logged
    entry of every agent, and adds to each log at most one entry for the
    task and one for each child id of a completed task -- the processing
    agent is such a recipient when its own id is among the children.
    [reset] empties the log. *)
Theorem audit_log_is_append_only :
  forall (_execute_task :
            Agent.BaseAgent -> Task.Task -> outcome (option Task.Payload))
         (repr_message : Agent.Message -> string)
         (a : Agent.BaseAgent),
    (forall task now,
       appends_to_log 1 a (fst (fst (Agent.receive_task a task now))))
    /\ (forall reg sender_id message now,
          appends_to_log 1 a
            (fst (Agent.receive_message repr_message reg a sender_id
                    message now)))
    /\ (forall now,
          appends_to_log 1 a
            (Agent.agent (Agent.process_task _execute_task a now)))
    /\ (forall reg key now,
          logs_grow
            (match
               snd (Messaging.process_task repr_message _execute_task
                      reg key now)
             with
             | Some r =>
                 match Agent.notified r with
                 | Some (task, _) => S (length (Task.children task))
                 | None => 1
                 end
             | None => 0
             end)
            reg
            (fst (Messaging.process_task repr_message _execute_task
                    reg key now)))
    /\ (forall now, Agent.audit_log (fst (Agent.reset a now)) = []).
Proof.
  intros exec repr a. split; [|split; [|split; [|split]]].
  - intros task now. apply receive_task_appends.
  - intros reg sender_id message now. apply receive_message_appends.
  - intros now. apply own_statements_append.
  - intros reg key now. apply whole_call_logs_grow.
  - reflexivity.
Qed.

(** A completed task whose child list names the processing agent: the one
    call of [process_task] logs the completion and the receipt of the
    agent's own message. *)
Lemma self_delivery_example :
  option_map (fun a => map Agent.event (Agent.audit_log a))
    (Agent.get_agent
       (fst (Messaging.process_task Examples.repr_message
               Examples.flaky_execute MoreExamples.echo_registry
               "agent-1" 2))
       "agent-1")
  = Some ["TASK_RECEIVED"; "TASK_COMPLETED"; "MESSAGE_RECEIVED"]%string.
Proof. vm_compute. reflexivity. Qed.

(** ** AgentRegistry *)

Section RegistryFacts.

Import Agent RegistryOps.

Lemma get_agent_None_keys (reg : Registry) key :
  get_agent reg key = None <-> ~ In key (map fst reg).
Proof.
  induction reg as [|[k a] reg IH]; cbn.
  - tauto.
  - destruct (String.eqb_spec k key) as [->|Hne].
    + split; [discriminate | intros H; exfalso; apply H; left; reflexivity].
    + rewrite IH. tauto.
Qed.

Lemma get_agent_app (r1 r2 : Registry) key :
  get_agent (r1 ++ r2) key
  = match get_agent r1 key with
    | Some a => Some a
    | None => get_agent r2 key
    end.
Proof.
  induction r1 as [|[k a] r1 IH]; cbn; [reflexivity|].
  destruct (String.eqb k key); [reflexivity | exact IH].
Qed.

Lemma remove_key_absent (reg : Registry) key :
  get_agent reg key = None -> remove_key reg key = reg.
Proof.
  unfold remove_key. induction reg as [|[k a] reg IH]; cbn; intros H;
    [reflexivity|].
  destruct (String.eqb k key); [discriminate|]. cbn.
  f_equal. apply IH. exact H.
Qed.

Lemma get_agent_remove_key (reg : Registry) key k :
  get_agent (remove_key reg key) k
  = if String.eqb k key then None else get_agent reg k.
Proof.
  unfold remove_key. induction reg as [|[k' a] reg IH]; cbn.
  - destruct (String.eqb k key); reflexivity.
  - destruct (String.eqb_spec k' key) as [->|Hne]; cbn.
    + rewrite IH. destruct (String.eqb_spec key k) as [->|Hkk].
      * rewrite String.eqb_refl. reflexivity.
      * reflexivity.
    + destruct (String.eqb_spec k' k) as [->|Hkk].
      * destruct (String.eqb_spec k key); [congruence | reflexivity].
      * exact IH.
Qed.

End RegistryFacts.

(** X12: on a registry with distinct keys, [register] either stores the
    agent under its id -- the id was free, later lookups of that id find the
    agent, lookups of other ids are unaffected -- or, when the id is taken,
    raises [ValueError] and leaves the registry as it is; the keys stay
    distinct. *)
Theorem register_keeps_ids_unique
  (reg : Agent.Registry) (a : Agent.BaseAgent) :
  NoDup (map fst reg) ->
  NoDup (map fst (fst (AgentRegistry.register reg a)))
  /\ ((snd (AgentRegistry.register reg a) = Returns tt
       /\ Agent.get_agent reg (Agent.id a) = None
       /\ Agent.get_agent (fst (AgentRegistry.register reg a)) (Agent.id a)
          = Some a
       /\ forall k, k <> Agent.id a ->
            Agent.get_agent (fst (AgentRegistry.register reg a)) k
            = Agent.get_agent reg k)
      \/ ((exists msg,
             snd (AgentRegistry.register reg a) = Raises (ValueError msg))
          /\ (exists b, Agent.get_agent reg (Agent.id a) = Some b)
          /\ fst (AgentRegistry.register reg a) = reg)).
Proof.
  intros Hnd. unfold AgentRegistry.register.
  destruct (Agent.get_agent reg (Agent.id a)) as [b|] eqn:Hg; cbn [fst snd].
  - split; [exact Hnd|]. right. repeat split; eauto.
  - split.
    + rewrite map_app. cbn. apply NoDup_app. split; [exact Hnd|].
      split; [|apply NoDup_singleton].
      intros x Hx Hx'. apply list_elem_of_singleton in Hx' as ->.
      apply get_agent_None_keys in Hg. apply Hg.
      apply list_elem_of_In. exact Hx.
    + left. repeat split.
      * rewrite get_agent_app, Hg. cbn. rewrite String.eqb_refl. reflexivity.
      * intros k Hk. rewrite get_agent_app.
        destruct (Agent.get_agent reg k); [reflexivity|]. cbn.
        destruct (String.eqb_spec (Agent.id a) k); [congruence | reflexivity].
Qed.

Lemma example_registry_ids_distinct : NoDup (map fst Examples.registry).
Proof.
  cbn. apply NoDup_cons. split.
  - intros H. apply list_elem_of_singleton in H. discriminate H.
  - apply NoDup_singleton.
Defined.

Lemma register_keeps_ids_unique_witness :
  NoDup (map fst (fst (AgentRegistry.register Examples.registry
                         Examples.twin)))
  /\ ((snd (AgentRegistry.register Examples.registry Examples.twin)
       = Returns tt
       /\ Agent.get_agent Examples.registry (Agent.id Examples.twin) = None
       /\ Agent.get_agent
            (fst (AgentRegistry.register Examples.registry Examples.twin))
            (Agent.id Examples.twin)
          = Some Examples.twin
       /\ forall k, k <> Agent.id Examples.twin ->
            Agent.get_agent
              (fst (AgentRegistry.register Examples.registry Examples.twin)) k
            = Agent.get_agent Examples.registry k)
      \/ ((exists msg,
             snd (AgentRegistry.register Examples.registry Examples.twin)
             = Raises (ValueError msg))
          /\ (exists b,
                Agent.get_agent Examples.registry (Agent.id Examples.twin)
                = Some b)
          /\ fst (AgentRegistry.register Examples.registry Examples.twin)
             = Examples.registry)).
Proof.
  apply (register_keeps_ids_unique Examples.registry Examples.twin).
  exact example_registry_ids_distinct.
Defined.

(** X13: [unregister] of an id that is not registered raises [ValueError]
    and changes nothing; otherwise the id is gone afterwards and every other
    lookup is as before.  Unregistering an agent right after registering it
    under a free id gives back the registry there was. *)
Theorem unregister_removes_only_that_id :
  forall (reg : Agent.Registry) (agent_id : string),
    ((exists msg,
        RegistryOps.unregister reg agent_id = (reg, Raises (ValueError msg)))
     /\ Agent.get_agent reg agent_id = None
     \/ (snd (RegistryOps.unregister reg agent_id) = Returns tt
         /\ (exists b, Agent.get_agent reg agent_id = Some b)
         /\ Agent.get_agent (fst (RegistryOps.unregister reg agent_id))
              agent_id = None
         /\ forall k, k <> agent_id ->
              Agent.get_agent (fst (RegistryOps.unregister reg agent_id)) k
              = Agent.get_agent reg k))
    /\ forall a : Agent.BaseAgent,
         Agent.get_agent reg (Agent.id a) = None ->
         RegistryOps.unregister (fst (AgentRegistry.register reg a))
           (Agent.id a)
         = (reg, Returns tt).
Proof.
  intros reg agent_id. split.
  - unfold RegistryOps.unregister.
    destruct (Agent.get_agent reg agent_id) as [b|] eqn:Hg.
    + right. cbn [fst snd]. repeat split; eauto.
      * rewrite get_agent_remove_key, String.eqb_refl. reflexivity.
      * intros k Hk. rewrite get_agent_remove_key.
        destruct (String.eqb_spec k agent_id); [congruence | reflexivity].
    + left. split; [eexists; reflexivity | reflexivity].
  - intros a Hg. unfold AgentRegistry.register. rewrite Hg. cbn [fst].
    unfold RegistryOps.unregister. rewrite get_agent_app, Hg. cbn.
    rewrite String.eqb_refl. f_equal.
    unfold RegistryOps.remove_key. rewrite List.filter_app.
    fold (RegistryOps.remove_key reg (Agent.id a)).
    rewrite remove_key_absent by exact Hg.
    cbn. rewrite String.eqb_refl. cbn. apply app_nil_r.
Qed.

(** ** TaskOrchestrator: order of the pending queue, capacity, retries *)

Section PendingFacts.

Import Orchestrator.
Variable receive_task :
  Agent.BaseAgent -> Task.Task -> Z -> Agent.BaseAgent * Task.Task * bool.

(** Whatever a call does, the pending queue afterwards is the queue without
    the popped entry, with at most one entry put back at the end. *)
Lemma assign_task_queue_after o now e q :
  PriorityQueue.get (task_queue o) = Some (e, q) ->
  task_queue (fst (_assign_task receive_task o now)) = q
  \/ exists e', task_queue (fst (_assign_task receive_task o now)) = q ++ [e'].
Proof.
  intros Hget. unfold _assign_task.
  rewrite (get_some_not_empty _ _ _ Hget), Hget. destruct e as [k task].
  cbv zeta. destruct (Task.is_overdue task now); [left; reflexivity|].
  destruct (select_loop _ _ _ _) as [[[[[i k'] a]|] s]|ex];
    [| |left; reflexivity].
  - destruct (receive_task a task now) as [[a1 t1] ok]. destruct ok.
    + left. reflexivity.
    + match goal with |- context [if ?c then _ else _] => destruct c end.
      * left. reflexivity.
      * right. eexists. reflexivity.
  - match goal with |- context [if ?c then _ else _] => destruct c end.
    + left. reflexivity.
    + destruct (sleep _).
      * right. eexists. reflexivity.
      * left. reflexivity.
Qed.

End PendingFacts.

(** X14: when every pending entry is keyed by its task's priority, as
    [add_task] keys it, [_assign_task] takes a task whose priority value is
    the smallest in the pending queue; the other entries stay pending, with
    at most one entry put back behind them. *)
Theorem assign_task_pops_smallest_priority
  (receive_task :
     Agent.BaseAgent -> Task.Task -> Z -> Agent.BaseAgent * Task.Task * bool)
  (o : Orchestrator.TaskOrchestrator) (now : Z) :
  PriorityQueue.empty (Orchestrator.task_queue o) = false ->
  Forall (fun e => fst e = Task.priority (snd e)) (Orchestrator.task_queue o) ->
  exists task q,
    PriorityQueue.get (Orchestrator.task_queue o)
    = Some ((Task.priority task, task), q)
    /\ Forall (fun e => Task.priority task <= Task.priority (snd e))
         (Orchestrator.task_queue o)
    /\ Permutation (Orchestrator.task_queue o)
         ((Task.priority task, task) :: q)
    /\ (Orchestrator.task_queue
          (fst (Orchestrator._assign_task receive_task o now)) = q
        \/ exists e',
             Orchestrator.task_queue
               (fst (Orchestrator._assign_task receive_task o now))
             = q ++ [e']).
Proof.
  intros He Hkeys.
  destruct (get_nonempty _ He) as ([k task] & q & Hget & _).
  destruct (get_spec _ _ _ Hget) as [Hmin Hperm]. cbn [fst] in Hmin.
  assert (Hk : k = Task.priority task).
  { rewrite Forall_forall in Hkeys.
    apply (Hkeys (k, task)).
    apply list_elem_of_In. eapply Permutation_in;
      [apply Permutation_sym; exact Hperm | left; reflexivity]. }
  subst k. exists task, q. split; [exact Hget|]. split.
  - rewrite Forall_forall in *. intros e Hin.
    rewrite <- (Hkeys e Hin). apply Hmin. exact Hin.
  - split; [exact Hperm|].
    apply (assign_task_queue_after receive_task o now _ _ Hget).
Qed.

Lemma orchestrator_two_keys :
  Forall (fun e => fst e = Task.priority (snd e))
    (Orchestrator.task_queue MoreExamples.orchestrator_two).
Proof. repeat constructor. Defined.

Lemma assign_task_pops_smallest_priority_witness :
  exists task q,
    PriorityQueue.get (Orchestrator.task_queue MoreExamples.orchestrator_two)
    = Some ((Task.priority task, task), q)
    /\ Forall (fun e => Task.priority task <= Task.priority (snd e))
         (Orchestrator.task_queue MoreExamples.orchestrator_two)
    /\ Permutation (Orchestrator.task_queue MoreExamples.orchestrator_two)
         ((Task.priority task, task) :: q)
    /\ (Orchestrator.task_queue
          (fst (Orchestrator._assign_task Agent.receive_task
                  MoreExamples.orchestrator_two 0)) = q
        \/ exists e',
             Orchestrator.task_queue
               (fst (Orchestrator._assign_task Agent.receive_task
                       MoreExamples.orchestrator_two 0))
             = q ++ [e']).
Proof.
  apply (assign_task_pops_smallest_priority Agent.receive_task
           MoreExamples.orchestrator_two 0).
  - reflexivity.
  - exact orchestrator_two_keys.
Defined.

(** With two tasks pending the one of priority 1 is taken before the one of
    priority 5, while an agent's own queue hands out priority 5 first. *)
Example pending_order_example :
  (exists q,
     PriorityQueue.get (Orchestrator.task_queue MoreExamples.orchestrator_two)
     = Some ((1, Examples.task1), q))
  /\ dequeue_order (Agent.priority_queue Examples.busy_agent)
     = ["t5"; "t1"]%string.
Proof. split; [eexists; reflexivity | reflexivity]. Qed.

Section CapacityFacts.

Import Orchestrator.

Lemma has_room_grow pre x best :
  has_room pre best -> has_room (pre ++ [x]) best.
Proof.
  destruct best as [[[[i k] a]|] s]; cbn; [|auto].
  intros [Hl Hc]. split; [|exact Hc].
  rewrite lookup_app_l; [exact Hl | eapply lookup_lt_Some; eauto].
Qed.

Lemma select_loop_has_room task (agents : Agent.Registry) :
  forall (pre : Agent.Registry) (best best' : Best),
    has_room pre best ->
    select_loop task agents (length pre) best = Returns best' ->
    has_room (pre ++ agents) best'.
Proof.
  induction agents as [|[k a] agents IH]; intros pre best best' Hb Hsel.
  - cbn in Hsel. inversion Hsel; subst. rewrite app_nil_r. exact Hb.
  - assert (Hlen : length (pre ++ [(k, a)]) = S (length pre))
      by (rewrite length_app; cbn; lia).
    assert (Happ : (pre ++ [(k, a)]) ++ agents = pre ++ (k, a) :: agents)
      by (rewrite <- app_assoc; reflexivity).
    cbn [select_loop] in Hsel. rewrite <- Happ.
    destruct (negb (skill_match (Task.type task) (Agent.skills a))).
    { rewrite <- Hlen in Hsel. eapply IH; [|exact Hsel].
      apply has_room_grow. exact Hb. }
    destruct (Z.leb_spec (capacity_of a) (Agent.workload a)) as [Hle|Hlt].
    { rewrite <- Hlen in Hsel. eapply IH; [|exact Hsel].
      apply has_room_grow. exact Hb. }
    destruct (suitability_score a) as [s|ex]; [|discriminate].
    assert (Hnew : has_room (pre ++ [(k, a)])
                     (Some (length pre, k, a), s)).
    { cbn. split; [|exact Hlt].
      rewrite lookup_app_r by lia. rewrite Nat.sub_diag. reflexivity. }
    destruct (PyFloat.gt s (snd best)); rewrite <- Hlen in Hsel;
      (eapply IH; [|exact Hsel]); [exact Hnew|].
    apply has_room_grow. exact Hb.
Qed.

End CapacityFacts.

(** X15: with agents of the base class, one pass of [_assign_task] loads
    no agent beyond its capacity: if every registered agent's workload is at
    most its capacity before the call, the same holds after it, whatever
    the call did. *)
Theorem assign_task_respects_capacity
  (o : Orchestrator.TaskOrchestrator) (now : Z) :
  within_capacity (Orchestrator.agent_registry o) ->
  within_capacity
    (Orchestrator.agent_registry
       (fst (Orchestrator._assign_task Agent.receive_task o now))).
Proof.
  intros Hcap. unfold Orchestrator._assign_task.
  destruct (PriorityQueue.empty (Orchestrator.task_queue o)); [exact Hcap|].
  destruct (PriorityQueue.get (Orchestrator.task_queue o))
    as [[[k task] q]|]; [|exact Hcap].
  cbv zeta. destruct (Task.is_overdue task now); [exact Hcap|].
  cbn [Orchestrator.set_task_queue Orchestrator.agent_registry].
  unfold AgentRegistry.get_all_agents.
  destruct (Orchestrator.select_loop task (Orchestrator.agent_registry o)
              0 Orchestrator.no_best) as [best|ex] eqn:Hsel; [|exact Hcap].
  pose proof (select_loop_has_room task (Orchestrator.agent_registry o)
                [] Orchestrator.no_best best I Hsel) as Hroom.
  cbn [app] in Hroom.
  destruct best as [[[[i k'] a]|] s].
  - destruct Hroom as [Hl Hlt]. cbn [Agent.receive_task].
    cbn [fst Orchestrator.agent_registry Orchestrator.set_agent_registry].
    unfold within_capacity in *. apply Forall_insert; [exact Hcap|].
    cbn. unfold Orchestrator.capacity_of in *. cbn. lia.
  - match goal with |- context [if ?c then _ else _] => destruct c end;
      [exact Hcap|].
    destruct (Orchestrator.sleep _); exact Hcap.
Qed.

Lemma example_registry_within_capacity :
  within_capacity (Orchestrator.agent_registry Examples.orchestrator).
Proof. repeat constructor; cbn; intros H; discriminate H. Defined.

Lemma assign_task_respects_capacity_witness :
  within_capacity
    (Orchestrator.agent_registry
       (fst (Orchestrator._assign_task Agent.receive_task
               Examples.orchestrator 0))).
Proof.
  apply (assign_task_respects_capacity Examples.orchestrator 0).
  exact example_registry_within_capacity.
Defined.

(** X16: with agents of the base class, every candidate being in normal
    operation, the pass ends in an assignment to the chosen agent -- the
    candidate whose score, computed in doubles as the code computes it, is
    greatest, the first of these in registry order: the task leaves the
    pending queue with [assigned_to] set to that agent's id and is queued
    there under [-priority]; the agent's workload grows by 1 and its audit
    log by a [TASK_RECEIVED] entry; no other agent changes, and the task's
    status is not touched. *)
Theorem assign_task_assigns_to_chosen
  (o : Orchestrator.TaskOrchestrator) (now priority : Z) (task : Task.Task)
  (q : PriorityQueue.t) (i : nat) (k : string) (a : Agent.BaseAgent) :
  PriorityQueue.get (Orchestrator.task_queue o) = Some ((priority, task), q) ->
  Task.is_overdue task now = false ->
  Forall (fun e => candidate task (snd e) -> sound (snd e))
    (Orchestrator.agent_registry o) ->
  chosen task (Orchestrator.agent_registry o) i k a ->
  exists o' task' a',
    Orchestrator._assign_task Agent.receive_task o now
    = (o', Returns (Orchestrator.Assigned i task'))
    /\ task' = Task.set_assigned_to task (Some (Agent.id a))
    /\ Task.status task' = Task.status task
    /\ Orchestrator.task_queue o' = q
    /\ Orchestrator.agent_registry o'
       = <[i := (k, a')]> (Orchestrator.agent_registry o)
    /\ Agent.workload a' = Agent.workload a + 1
    /\ Agent.workload a' <= Orchestrator.capacity_of a'
    /\ Agent.priority_queue a'
       = Agent.priority_queue a ++ [(- Task.priority task, task')]
    /\ map Agent.event (Agent.audit_log a')
       = map Agent.event (Agent.audit_log a) ++ ["TASK_RECEIVED"%string].
Proof.
  intros Hget Hdue Hs Hch.
  destruct (select_best_of task _ Hs) as (best & Hsel & Hb).
  unfold Orchestrator._assign_task.
  rewrite (get_some_not_empty _ _ _ Hget), Hget, Hdue.
  cbn [Orchestrator.set_task_queue Orchestrator.agent_registry].
  unfold AgentRegistry.get_all_agents. rewrite Hsel.
  destruct best as [[[[i' k'] a']|] s]; cbn [best_of] in Hb.
  - destruct Hb as (_ & _ & Hch').
    destruct (chosen_unique _ _ _ _ _ _ _ _ Hch Hch') as (<- & <- & <-).
    cbn [Agent.receive_task]. eexists _, _, _. split; [reflexivity|].
    destruct Hch as (_ & [_ Hroom] & _).
    split; [reflexivity|]. split; [reflexivity|]. split; [reflexivity|].
    split; [reflexivity|]. split; [reflexivity|].
    split; [unfold Orchestrator.capacity_of, spec_capacity in *; cbn; lia|].
    split; [reflexivity|].
    cbn [Agent.audit_log Agent.set_last_active Agent.set_workload
         Agent.log_activity Agent.set_audit_log Agent.set_priority_queue].
    rewrite List.map_app. reflexivity.
  - destruct Hch as (Hl & Hc & _). destruct Hb as [_ Hb].
    exfalso. eapply Hb; eauto.
Qed.

Lemma receiver_is_chosen :
  chosen Examples.task5 (Orchestrator.agent_registry Examples.orchestrator)
    1 "agent-2" Examples.receiver.
Proof.
  split; [reflexivity|]. split.
  - split; [left; left; reflexivity | cbn; reflexivity].
  - intros j kj aj Hj _. destruct j as [|[|j]]; cbn in Hj.
    + inversion Hj; subst. split.
      * vm_compute. reflexivity.
      * intros _. vm_compute. reflexivity.
    + inversion Hj; subst. split; [vm_compute; reflexivity | intros H; lia].
    + discriminate Hj.
Defined.

Lemma assign_task_assigns_to_chosen_witness :
  exists o' task' a',
    Orchestrator._assign_task Agent.receive_task Examples.orchestrator 0
    = (o', Returns (Orchestrator.Assigned 1 task'))
    /\ task' = Task.set_assigned_to Examples.task5
                 (Some (Agent.id Examples.receiver))
    /\ Task.status task' = Task.status Examples.task5
    /\ Orchestrator.task_queue o' = []
    /\ Orchestrator.agent_registry o'
       = <[1%nat := ("agent-2"%string, a')]>
           (Orchestrator.agent_registry Examples.orchestrator)
    /\ Agent.workload a' = Agent.workload Examples.receiver + 1
    /\ Agent.workload a' <= Orchestrator.capacity_of a'
    /\ Agent.priority_queue a'
       = Agent.priority_queue Examples.receiver
         ++ [(- Task.priority Examples.task5, task')]
    /\ map Agent.event (Agent.audit_log a')
       = map Agent.event (Agent.audit_log Examples.receiver)
         ++ ["TASK_RECEIVED"%string].
Proof.
  apply (assign_task_assigns_to_chosen Examples.orchestrator 0 5
           Examples.task5 [] 1 "agent-2" Examples.receiver).
  - reflexivity.
  - reflexivity.
  - exact (registry_sound _).
  - exact receiver_is_chosen.
Defined.

Section LoneTaskFacts.

Import Orchestrator.
Variable receive_task :
  Agent.BaseAgent -> Task.Task -> Z -> Agent.BaseAgent * Task.Task * bool.

Lemma assign_times_S n o now :
  assign_times receive_task (S n) o now
  = (fst (assign_times receive_task n
            (fst (_assign_task receive_task o now)) now),
     snd (_assign_task receive_task o now)
     :: snd (assign_times receive_task n
               (fst (_assign_task receive_task o now)) now)).
Proof.
  cbn [assign_times]. destruct (_assign_task receive_task o now) as [o1 r].
  cbn [fst snd]. destruct (assign_times receive_task n o1 now). reflexivity.
Qed.

(** One pass over a lone pending task that has no deadline and no
    candidate. *)
Lemma lone_task_pass o now k task :
  task_queue o = [(k, task)] ->
  Task.deadline task = None ->
  (forall j kj a, agent_registry o !! j = Some (kj, a) ->
                  ~ candidate task a) ->
  sleep (retry_delay o) = Returns tt ->
  let task' := Task.set_attempt_count
                 (Task.set_priority task (Z.max 1 (Task.priority task - 1)))
                 (Task.attempt_count task + 1) in
  _assign_task receive_task o now
  = if max_orchestrator_retries o <? Task.attempt_count task + 1
    then (set_task_queue o [],
          Returns (DeadLettered None (Task.update_status task' "failed")))
    else (set_task_queue o [(Z.max 1 (Task.priority task - 1), task')],
          Returns (Requeued None task' (retry_delay o))).
Proof.
  intros Hq Hd Hnone Hsleep. cbv zeta. unfold _assign_task. rewrite Hq.
  cbn [PriorityQueue.empty]. unfold PriorityQueue.get.
  cbn [PriorityQueue.min_key PriorityQueue.remove_first].
  rewrite Z.eqb_refl. cbv zeta.
  unfold Task.is_overdue. rewrite Hd.
  cbn [set_task_queue agent_registry]. unfold AgentRegistry.get_all_agents.
  destruct (select_best_of task (agent_registry o)) as (best & Hsel & Hb).
  { rewrite Forall_forall. intros e He Hc. exfalso.
    apply list_elem_of_lookup in He as [j Hj].
    destruct e as [ke ae]. eapply Hnone; eauto. }
  rewrite Hsel. destruct best as [[[[i ki] ai]|] s]; cbn [best_of] in Hb.
  - destruct Hb as (_ & _ & Hl & Hc & _). exfalso. eapply Hnone; eauto.
  - change (max_orchestrator_retries (set_task_queue o []))
      with (max_orchestrator_retries o).
    change (retry_delay (set_task_queue o [])) with (retry_delay o).
    rewrite Hsleep.
    cbn [Task.set_priority Task.set_attempt_count Task.attempt_count
         Task.priority].
    destruct (max_orchestrator_retries o <? Task.attempt_count task + 1);
      reflexivity.
Qed.

(** A lone task without deadline or candidate, with [d] re-queues left:
    [d] passes put it back, the next one fails it. *)
Lemma lone_task_exhausts (d : nat) :
  forall (o : TaskOrchestrator) (now k : Z) (task : Task.Task),
    task_queue o = [(k, task)] ->
    Task.deadline task = None ->
    (forall j kj a, agent_registry o !! j = Some (kj, a) ->
                    ~ candidate task a) ->
    sleep (retry_delay o) = Returns tt ->
    Task.attempt_count task + Z.of_nat d = max_orchestrator_retries o ->
    exists o' steps t',
      assign_times receive_task (S d) o now
      = (o', steps ++ [Returns (DeadLettered None t')])
      /\ length steps = d
      /\ Forall (fun r => exists t,
                   r = Returns (Requeued None t (retry_delay o))) steps
      /\ task_queue o' = []
      /\ agent_registry o' = agent_registry o
      /\ Task.status t' = "failed"%string
      /\ Task.attempt_count t' = max_orchestrator_retries o + 1
      /\ Task.priority t'
         = Z.max 1 (Task.priority task - Z.of_nat (S d))
      /\ Task.id t' = Task.id task.
Proof.
  induction d as [|d IH]; intros o now k task Hq Hd Hnone Hsleep Hleft;
    rewrite assign_times_S;
    rewrite (lone_task_pass o now k task Hq Hd Hnone Hsleep); cbv zeta.
  - replace (max_orchestrator_retries o <? Task.attempt_count task + 1)
      with true by (symmetry; apply Z.ltb_lt; lia).
    cbn [fst snd assign_times].
    eexists _, [], _. split; [reflexivity|].
    cbn. repeat split; try reflexivity; try lia. constructor.
  - replace (max_orchestrator_retries o <? Task.attempt_count task + 1)
      with false by (symmetry; apply Z.ltb_ge; lia).
    cbn [fst snd].
    set (task1 := Task.set_attempt_count
                    (Task.set_priority task (Z.max 1 (Task.priority task - 1)))
                    (Task.attempt_count task + 1)).
    set (o1 := set_task_queue o [(Z.max 1 (Task.priority task - 1), task1)]).
    destruct (IH o1 now (Z.max 1 (Task.priority task - 1)) task1)
      as (o' & steps & t' & E & Hlen & Hall & Hq' & Hreg & Hs & Hc & Hp & Hi).
    + reflexivity.
    + exact Hd.
    + intros j kj a Hj [Hin Hroom]. apply (Hnone j kj a Hj).
      split; [exact Hin | exact Hroom].
    + exact Hsleep.
    + unfold o1, task1. cbn. lia.
    + rewrite E. cbn [fst snd].
      exists o', (Returns (Requeued None task1 (retry_delay o)) :: steps), t'.
      split; [reflexivity|]. split; [cbn; lia|]. split.
      { constructor; [eexists; reflexivity | exact Hall]. }
      split; [exact Hq'|]. split; [exact Hreg|]. split; [exact Hs|].
      split; [exact Hc|]. split; [|exact Hi].
      rewrite Hp. unfold task1. cbn. lia.
Qed.

End LoneTaskFacts.

(** X17: where the sleep of [retry_delay] returns, a lone pending task
    without deadline, with [attempt_count] 0 and no candidate among the
    agents, is put back exactly [max_orchestrator_retries] times, each time
    after that sleep, and is marked ["failed"] on the next pass: the queue is
    then empty, the task has [attempt_count = max_orchestrator_retries + 1]
    and priority [max(1, priority - (max_orchestrator_retries + 1))], and
    no agent was touched. *)
Theorem lone_task_is_failed_after_retries
  (receive_task :
     Agent.BaseAgent -> Task.Task -> Z -> Agent.BaseAgent * Task.Task * bool)
  (o : Orchestrator.TaskOrchestrator) (now k : Z) (task : Task.Task) :
  Orchestrator.task_queue o = [(k, task)] ->
  Task.deadline task = None ->
  Task.attempt_count task = 0 ->
  0 <= Orchestrator.max_orchestrator_retries o ->
  (forall j kj a, Orchestrator.agent_registry o !! j = Some (kj, a) ->
                  ~ candidate task a) ->
  Orchestrator.sleep (Orchestrator.retry_delay o) = Returns tt ->
  exists o' steps t',
    assign_times receive_task
      (S (Z.to_nat (Orchestrator.max_orchestrator_retries o))) o now
    = (o', steps ++ [Returns (Orchestrator.DeadLettered None t')])
    /\ Z.of_nat (length steps) = Orchestrator.max_orchestrator_retries o
    /\ Forall (fun r => exists t,
                 r = Returns (Orchestrator.Requeued None t
                                (Orchestrator.retry_delay o))) steps
    /\ Orchestrator.task_queue o' = []
    /\ Orchestrator.agent_registry o' = Orchestrator.agent_registry o
    /\ Task.status t' = "failed"%string
    /\ Task.attempt_count t' = Orchestrator.max_orchestrator_retries o + 1
    /\ Task.priority t'
       = Z.max 1 (Task.priority task
                  - (Orchestrator.max_orchestrator_retries o + 1))
    /\ Task.id t' = Task.id task.
Proof.
  intros Hq Hd Hc Hr Hnone Hsleep.
  destruct (lone_task_exhausts receive_task
              (Z.to_nat (Orchestrator.max_orchestrator_retries o))
              o now k task Hq Hd Hnone Hsleep)
    as (o' & steps & t' & E & Hlen & Hall & Hq' & Hreg & Hs & Hc' & Hp & Hi);
    [lia|].
  exists o', steps, t'. split; [exact E|]. split; [lia|].
  split; [exact Hall|]. split; [exact Hq'|]. split; [exact Hreg|].
  split; [exact Hs|]. split; [exact Hc'|]. split; [|exact Hi].
  rewrite Hp. f_equal. lia.
Qed.

Lemma lone_task_is_failed_after_retries_witness :
  exists o' steps t',
    assign_times Agent.receive_task
      (S (Z.to_nat (Orchestrator.max_orchestrator_retries
                      Examples.orchestrator_y)))
      Examples.orchestrator_y 0
    = (o', steps ++ [Returns (Orchestrator.DeadLettered None t')])
    /\ Z.of_nat (length steps)
       = Orchestrator.max_orchestrator_retries Examples.orchestrator_y
    /\ Forall (fun r => exists t,
                 r = Returns (Orchestrator.Requeued None t
                                (Orchestrator.retry_delay
                                   Examples.orchestrator_y))) steps
    /\ Orchestrator.task_queue o' = []
    /\ Orchestrator.agent_registry o'
       = Orchestrator.agent_registry Examples.orchestrator_y
    /\ Task.status t' = "failed"%string
    /\ Task.attempt_count t'
       = Orchestrator.max_orchestrator_retries Examples.orchestrator_y + 1
    /\ Task.priority t'
       = Z.max 1 (Task.priority Examples.task_y
                  - (Orchestrator.max_orchestrator_retries
                       Examples.orchestrator_y + 1))
    /\ Task.id t' = Task.id Examples.task_y.
Proof.
  apply (lone_task_is_failed_after_retries Agent.receive_task
           Examples.orchestrator_y 0 5 Examples.task_y).
  - reflexivity.
  - reflexivity.
  - reflexivity.
  - cbn. lia.
  - exact registry_has_no_y.
  - reflexivity.
Defined.

(** ** DelegationTree: links, integrity, serialisation *)

Section TreeLinkFacts.

Import DelegationTree TreeOps.

Lemma omap_snoc {A B : Type} (f : A -> option B) (l : list A) (x : A) :
  omap f (l ++ [x])
  = omap f l ++ match f x with Some y => [y] | None => [] end.
Proof.
  induction l as [|a l IH]; cbn.
  - destruct (f x); reflexivity.
  - rewrite IH. destruct (f a); reflexivity.
Qed.

Lemma closed_init : closed init.
Proof. intros p cs H. cbn in H. rewrite lookup_empty in H. discriminate. Qed.

Lemma closed_more_tasks tree tasks' :
  closed tree ->
  (forall x, is_Some (tasks tree !! x) -> is_Some (tasks' !! x)) ->
  closed {| tasks := tasks'; relationships := relationships tree |}.
Proof.
  intros Hc Hmore p cs Hp. destruct (Hc p cs Hp) as [H1 H2]. split; auto.
Qed.

(** [add_task] never leaves an id of the adjacency map without a task,
    whether it returns or raises. *)
Lemma add_task_closed tree task parent_id :
  closed tree -> closed (fst (add_task tree task parent_id)).
Proof.
  intros Hc.
  assert (Hins : forall x, is_Some (tasks tree !! x) ->
                   is_Some (<[Task.id task := task]> (tasks tree) !! x)).
  { intros x Hx. destruct (decide (Task.id task = x)) as [->|Hne].
    - rewrite lookup_insert_eq. eauto.
    - rewrite lookup_insert_ne by exact Hne. exact Hx. }
  assert (Hroot : closed
            {| tasks := <[Task.id task := task]> (tasks tree);
               relationships := <[Task.id task := []]> (relationships tree) |}).
  { intros p cs Hp. cbn in *.
    apply lookup_insert_Some in Hp as [[<- <-]|[Hne Hp]].
    - split; [rewrite lookup_insert_eq; eauto | intros c Hc'; inversion Hc'].
    - destruct (Hc p cs Hp) as [H1 H2]. split; auto. }
  unfold add_task. cbv zeta. destruct (truthy parent_id); [|exact Hroot].
  set (p := default ""%string parent_id).
  destruct (<[Task.id task := task]> (tasks tree) !! p) as [ptask|] eqn:Hp;
    cbn [fst].
  - assert (Hins2 : forall x,
              is_Some (<[Task.id task := task]> (tasks tree) !! x) ->
              is_Some (<[p := Task.add_child ptask (Task.id task)]>
                         (<[Task.id task := task]> (tasks tree)) !! x)).
    { intros x Hx. destruct (decide (p = x)) as [->|Hne].
      - rewrite lookup_insert_eq. eauto.
      - rewrite lookup_insert_ne by exact Hne. exact Hx. }
    assert (Hnew : is_Some (<[Task.id task := task]> (tasks tree)
                              !! Task.id task))
      by (rewrite lookup_insert_eq; eauto).
    intros p0 cs Hp0. cbn in Hp0 |- *.
    apply lookup_insert_Some in Hp0 as [[<- <-]|[Hne0 Hp0]].
    { split; [auto | intros c Hc'; inversion Hc']. }
    apply lookup_insert_Some in Hp0 as [[<- <-]|[Hne1 Hp0]].
    + split; [apply Hins2; rewrite Hp; eauto|].
      intros c Hc'. apply elem_of_app in Hc' as [Hc'|Hc'].
      * destruct (relationships tree !! p) as [cs0|] eqn:Hrp.
        -- rewrite Hrp in Hc'. cbn in Hc'.
           destruct (Hc p cs0 Hrp) as [_ H2]. auto.
        -- rewrite lookup_insert_eq in Hc'. cbn in Hc'. inversion Hc'.
      * apply list_elem_of_singleton in Hc' as ->. auto.
    + assert (Hold : relationships tree !! p0 = Some cs).
      { destruct (relationships tree !! p) as [cs0|] eqn:Hrp; [exact Hp0|].
        rewrite lookup_insert_ne in Hp0 by exact Hne1. exact Hp0. }
      destruct (Hc p0 cs Hold) as [H1 H2]. split; auto.
  - apply closed_more_tasks; assumption.
Qed.

End TreeLinkFacts.

(** X18: [add_task(task, parent_id)] with a parent that is present (and is
    not the task itself) returns the task's id and links both ways: the task
    is stored, its own child list is empty, its id is appended to the
    parent's entry of the adjacency map and is among the parent task's
    [children], and [get_children(parent)] ends with the new task. *)
Theorem add_task_links_child
  (tree : DelegationTree.DelegationTree) (task ptask : Task.Task)
  (p : string) :
  p <> ""%string -> p <> Task.id task ->
  DelegationTree.tasks tree !! p = Some ptask ->
  exists tree',
    DelegationTree.add_task tree task (Some p) = (tree', Returns (Task.id task))
    /\ DelegationTree.get_task tree' (Task.id task) = Some task
    /\ DelegationTree.relationships tree' !! Task.id task = Some []
    /\ DelegationTree.relationships tree' !! p
       = Some (default [] (DelegationTree.relationships tree !! p)
               ++ [Task.id task])
    /\ (exists ptask',
          DelegationTree.get_task tree' p = Some ptask'
          /\ In (Task.id task) (Task.children ptask')
          /\ Task.status ptask' = Task.status ptask)
    /\ last (TreeOps.get_children tree' p) = Some task
    /\ forall x, x <> p -> x <> Task.id task ->
         DelegationTree.get_task tree' x = DelegationTree.get_task tree x.
Proof.
  intros Hne Hid Hp. unfold DelegationTree.add_task. cbv zeta.
  unfold DelegationTree.truthy. apply String.eqb_neq in Hne. rewrite Hne.
  cbn.
  rewrite lookup_insert_ne by (intros E; apply Hid; symmetry; exact E).
  rewrite Hp. eexists. split; [reflexivity|].
  unfold DelegationTree.get_task, TreeOps.get_children.
  cbn [DelegationTree.tasks DelegationTree.relationships].
  assert (Hrel :
    <[Task.id task := []]>
      (<[p := default []
                (match DelegationTree.relationships tree !! p with
                 | Some _ => DelegationTree.relationships tree
                 | None => <[p := []]> (DelegationTree.relationships tree)
                 end !! p) ++ [Task.id task]]>
         match DelegationTree.relationships tree !! p with
         | Some _ => DelegationTree.relationships tree
         | None => <[p := []]> (DelegationTree.relationships tree)
         end) !! p
    = Some (default [] (DelegationTree.relationships tree !! p)
            ++ [Task.id task])).
  { rewrite lookup_insert_ne by (intros E; apply Hid; symmetry; exact E).
    rewrite lookup_insert_eq.
    destruct (DelegationTree.relationships tree !! p) as [cs0|] eqn:Hrp.
    - rewrite Hrp. reflexivity.
    - rewrite lookup_insert_eq. reflexivity. }
  split.
  { rewrite lookup_insert_ne by exact Hid. apply lookup_insert_eq. }
  split; [apply lookup_insert_eq|]. split; [exact Hrel|]. split.
  { eexists. split; [apply lookup_insert_eq|]. split; [|].
    - unfold Task.add_child.
      destruct (existsb (String.eqb (Task.id task)) (Task.children ptask))
        eqn:Hex.
      + apply existsb_exists in Hex as (x & Hin & Heq).
        apply String.eqb_eq in Heq. subst x. exact Hin.
      + cbn. apply in_or_app. right. left. reflexivity.
    - unfold Task.add_child.
      destruct (existsb _ _); reflexivity. }
  split.
  { rewrite Hrel. rewrite omap_snoc.
    rewrite lookup_insert_ne by exact Hid. rewrite lookup_insert_eq.
    apply last_snoc. }
  intros x Hx1 Hx2.
  rewrite lookup_insert_ne by (intros E; apply Hx1; symmetry; exact E).
  rewrite lookup_insert_ne by (intros E; apply Hx2; symmetry; exact E).
  reflexivity.
Qed.

Lemma add_task_links_child_witness :
  exists tree',
    DelegationTree.add_task MoreExamples.root_tree Examples.task1
      (Some "t5"%string)
    = (tree', Returns (Task.id Examples.task1))
    /\ DelegationTree.get_task tree' (Task.id Examples.task1)
       = Some Examples.task1
    /\ DelegationTree.relationships tree' !! Task.id Examples.task1 = Some []
    /\ DelegationTree.relationships tree' !! "t5"%string
       = Some (default []
                 (DelegationTree.relationships MoreExamples.root_tree
                    !! "t5"%string)
               ++ [Task.id Examples.task1])
    /\ (exists ptask',
          DelegationTree.get_task tree' "t5" = Some ptask'
          /\ In (Task.id Examples.task1) (Task.children ptask')
          /\ Task.status ptask' = Task.status Examples.task5)
    /\ last (TreeOps.get_children tree' "t5") = Some Examples.task1
    /\ forall x, x <> "t5"%string -> x <> Task.id Examples.task1 ->
         DelegationTree.get_task tree' x
         = DelegationTree.get_task MoreExamples.root_tree x.
Proof.
  apply (add_task_links_child MoreExamples.root_tree Examples.task1
           Examples.task5 "t5").
  - intros H; discriminate H.
  - intros H; discriminate H.
  - reflexivity.
Defined.

Section TreeDictFacts.

Import DelegationTree TreeOps.

Lemma fill_from {V : Type} (items : list (string * V)) :
  forall m0 : gmap string V,
    NoDup (map fst items) ->
    fold_left (fun m p => <[fst p := snd p]> m) items m0
    = list_to_map items ∪ m0.
Proof.
  induction items as [|[k v] items IH]; intros m0 Hnd; cbn [fold_left].
  - cbn. rewrite (left_id_L ∅ (∪)). reflexivity.
  - cbn [map fst snd] in *. apply NoDup_cons in Hnd as [Hk Hnd].
    rewrite IH by exact Hnd. cbn [list_to_map foldr fst snd uncurry].
    change (foldr (fun p : string * V => <[p.1 := p.2]>) ∅ items)
      with (list_to_map items : gmap string V).
    rewrite <- insert_union_l. rewrite <- insert_union_r; [reflexivity|].
    apply not_elem_of_list_to_map_1. exact Hk.
Qed.

Lemma fill_map_to_list {V : Type} (m : gmap string V) :
  fill (map_to_list m) = m.
Proof.
  unfold fill. rewrite fill_from by apply NoDup_fst_map_to_list.
  rewrite list_to_map_to_list. apply (right_id_L ∅ (∪)).
Qed.

Lemma find_missing_none (tasks : gmap string Task.Task) (cs : list string) :
  List.find (fun c => match tasks !! c with None => true | Some _ => false end)
    cs = None
  <-> forall c, c ∈ cs -> is_Some (tasks !! c).
Proof.
  induction cs as [|c cs IH]; cbn.
  - split; [intros _ c Hc; inversion Hc | reflexivity].
  - destruct (tasks !! c) eqn:Hc.
    + rewrite IH. split.
      * intros H x Hx. apply elem_of_cons in Hx as [->|Hx]; [eauto | auto].
      * intros H x Hx. apply H. right. exact Hx.
    + split; [discriminate|]. intros H.
      destruct (H c) as [t Ht]; [left | congruence].
Qed.

(** The validation passes exactly when every listed id has a task, and
    otherwise raises [DataIntegrityError]. *)
Lemma validate_spec (tasks : gmap string Task.Task)
    (items : list (string * list string)) :
  (validate tasks items = Returns tt
   <-> forall p cs, (p, cs) ∈ items ->
         is_Some (tasks !! p) /\ forall c, c ∈ cs -> is_Some (tasks !! c))
  /\ (validate tasks items = Returns tt
      \/ exists msg, validate tasks items = Raises (DataIntegrityError msg)).
Proof.
  induction items as [|[p cs] items [IH1 IH2]]; cbn [validate].
  - split; [|left; reflexivity].
    split; [intros _ p cs H; inversion H | reflexivity].
  - destruct (tasks !! p) as [t|] eqn:Hp.
    + destruct (List.find _ cs) as [c|] eqn:Hf.
      * split; [|right; eexists; reflexivity].
        split; [discriminate|]. intros H.
        destruct (H p cs) as [_ Hcs]; [left|].
        apply find_missing_none in Hcs. congruence.
      * split; [|exact IH2]. rewrite IH1. split.
        -- intros H p0 cs0 Hin. apply elem_of_cons in Hin as [E|Hin].
           ++ inversion E; subst. split; [eauto|].
              apply find_missing_none. exact Hf.
           ++ auto.
        -- intros H p0 cs0 Hin. apply H. right. exact Hin.
    + split; [|right; eexists; reflexivity].
      split; [discriminate|]. intros H.
      destruct (H p cs) as [[t Ht] _]; [left | congruence].
Qed.

Lemma tasks_round_trip (m : gmap string Task.Task) :
  fill (map (fun p => (fst p, Task.from_dict (snd p)))
          (map_to_list (Task.to_dict <$> m))) = m.
Proof.
  unfold Task.from_dict, Task.to_dict.
  rewrite map_fmap_id.
  replace (map (fun p : string * Task.TaskDict => (p.1, p.2)) (map_to_list m))
    with (map_to_list m).
  - apply fill_map_to_list.
  - rewrite <- (map_id (map_to_list m)) at 1. apply map_ext.
    intros [k v]. reflexivity.
Qed.

End TreeDictFacts.

(** X19: no id of the adjacency map is ever left without a task by
    [add_task], whether it returns or raises; and [from_dict(to_dict(tree))]
    gives the tree back exactly when every id of its adjacency map has a
    task, and raises [DataIntegrityError] otherwise. *)
Theorem tree_round_trip_iff_closed :
  forall tree : DelegationTree.DelegationTree,
    (TreeOps.from_dict (TreeOps.to_dict tree) = Returns tree <-> closed tree)
    /\ (TreeOps.from_dict (TreeOps.to_dict tree) = Returns tree
        \/ exists msg,
             TreeOps.from_dict (TreeOps.to_dict tree)
             = Raises (DataIntegrityError msg))
    /\ closed DelegationTree.init
    /\ forall task parent_id,
         closed tree ->
         closed (fst (DelegationTree.add_task tree task parent_id)).
Proof.
  intros tree.
  assert (Hv := validate_spec (DelegationTree.tasks tree)
                  (map_to_list (DelegationTree.relationships tree))).
  destruct Hv as [Hiff Hor].
  assert (Hcl : (forall p cs,
                   (p, cs) ∈ map_to_list (DelegationTree.relationships tree) ->
                   is_Some (DelegationTree.tasks tree !! p)
                   /\ forall c, c ∈ cs ->
                        is_Some (DelegationTree.tasks tree !! c))
                <-> closed tree).
  { unfold closed. split; intros H p cs Hp; apply (H p cs).
    - apply elem_of_map_to_list. exact Hp.
    - apply elem_of_map_to_list in Hp. exact Hp. }
  unfold TreeOps.from_dict, TreeOps.to_dict.
  cbn [TreeOps.d_tasks TreeOps.d_relationships].
  rewrite tasks_round_trip, fill_map_to_list.
  split; [|split; [|split]].
  - rewrite <- Hcl, <- Hiff.
    destruct (TreeOps.validate _ _) as [[]|e].
    + split; [reflexivity | intros _; destruct tree; reflexivity].
    + split; discriminate.
  - destruct Hor as [->|[msg ->]].
    + left. destruct tree; reflexivity.
    + right. eexists. reflexivity.
  - apply closed_init.
  - intros task parent_id. apply add_task_closed.
Qed.

(** ** DelegationTree: the hierarchy view *)

Section HierarchyFacts.

Import DelegationTree TreeOps.
Variable tree : DelegationTree.DelegationTree.

Lemma covers_nil : covers tree [] [].
Proof.
  split.
  - intros n Hn. inversion Hn.
  - intros c d Hc. inversion Hc.
Qed.

Lemma covers_app n1 r1 n2 r2 :
  covers tree n1 r1 -> covers tree n2 r2 -> covers tree (n1 ++ n2) (r1 ++ r2).
Proof.
  intros [A1 B1] [A2 B2]. split.
  - intros n Hn. apply elem_of_app in Hn as [Hn|Hn].
    + destruct (A1 n Hn) as (c & d & t & Hc & H). exists c, d, t.
      split; [apply elem_of_app; left; exact Hc | exact H].
    + destruct (A2 n Hn) as (c & d & t & Hc & H). exists c, d, t.
      split; [apply elem_of_app; right; exact Hc | exact H].
  - intros c d Hc Hd. apply elem_of_app in Hc as [Hc|Hc].
    + destruct (B1 c d Hc Hd) as (t & Ht & Hin). exists t.
      split; [exact Ht | apply elem_of_app; left; exact Hin].
    + destruct (B2 c d Hc Hd) as (t & Ht & Hin). exists t.
      split; [exact Ht | apply elem_of_app; right; exact Hin].
Qed.

Lemma descendant_start_present a d :
  descendant tree a d -> is_Some (tasks tree !! a).
Proof. intros H. destruct H; assumption. Qed.

Lemma covers_absent_root c :
  tasks tree !! c = None -> covers tree [] [c].
Proof.
  intros Hc. split.
  - intros n Hn. inversion Hn.
  - intros c' d Hc' Hd. apply list_elem_of_singleton in Hc' as ->.
    apply descendant_start_present in Hd. rewrite Hc in Hd.
    destruct Hd as [t Ht]. discriminate.
Qed.

Lemma covers_node tid t nodes :
  tasks tree !! tid = Some t ->
  covers tree nodes (default [] (relationships tree !! tid)) ->
  covers tree ((Task.id t, Task.status t) :: nodes) [tid].
Proof.
  intros Ht [A B]. split.
  - intros n Hn. apply elem_of_cons in Hn as [->|Hn].
    + exists tid, tid, t. split; [left|]. split; [|split; auto].
      apply descendant_self. rewrite Ht. eauto.
    + destruct (A n Hn) as (c & d & t' & Hc & Hd & Ht' & En).
      exists tid, d, t'. split; [left|]. split; [|split; assumption].
      destruct (relationships tree !! tid) as [cs|] eqn:Hr;
        [|cbn in Hc; inversion Hc].
      cbn in Hc. eapply descendant_child; eauto.
  - intros c d Hc Hd. apply list_elem_of_singleton in Hc as ->.
    inversion Hd as [x Hp | x cs c' y Hp Hr Hc' Hcd]; subst.
    + exists t. split; [exact Ht | left].
    + destruct (B c' d) as (t' & Ht' & Hin); [rewrite Hr; exact Hc' | exact Hcd|].
      exists t'. split; [exact Ht' | right; exact Hin].
Qed.

(** The loop over the children, given that each recursive call works. *)
Lemma build_children_ok (rank : string -> nat) (fuel : nat)
  (IH : forall tid t, (rank tid < fuel)%nat -> tasks tree !! tid = Some t ->
          exists v, build_hierarchy fuel tree tid = Some v
                    /\ covers tree (view_nodes v) [tid]) :
  forall (cs : list string) (vs0 : list View) (done : list string),
    (forall c, c ∈ cs -> (rank c < fuel)%nat) ->
    covers tree (flat_map view_nodes vs0) done ->
    exists vs,
      fold_left
        (fun acc child_id =>
           match acc with
           | None => None
           | Some children =>
               match tasks tree !! child_id with
               | None => Some children
               | Some _ =>
                   match build_hierarchy fuel tree child_id with
                   | None => None
                   | Some v => Some (children ++ [v])
                   end
               end
           end) cs (Some vs0) = Some vs
      /\ covers tree (flat_map view_nodes vs) (done ++ cs).
Proof.
  induction cs as [|c cs IHcs]; intros vs0 done Hrank Hcov.
  - exists vs0. split; [reflexivity|]. rewrite app_nil_r. exact Hcov.
  - cbn [fold_left].
    assert (Hrest : forall c', c' ∈ cs -> (rank c' < fuel)%nat)
      by (intros c' Hc'; apply Hrank; right; exact Hc').
    assert (Happ : (done ++ [c]) ++ cs = done ++ c :: cs)
      by (rewrite <- app_assoc; reflexivity).
    destruct (tasks tree !! c) as [t|] eqn:Hc.
    + destruct (IH c t) as (v & -> & Hv); [apply Hrank; left | exact Hc|].
      destruct (IHcs (vs0 ++ [v]) (done ++ [c]) Hrest) as (vs & E & Hcs).
      { rewrite flat_map_app. cbn [flat_map]. rewrite app_nil_r.
        apply covers_app; assumption. }
      exists vs. split; [exact E|]. rewrite <- Happ. exact Hcs.
    + destruct (IHcs vs0 (done ++ [c]) Hrest) as (vs & E & Hcs).
      { rewrite <- (app_nil_r (flat_map view_nodes vs0)).
        apply covers_app; [exact Hcov | apply covers_absent_root; exact Hc]. }
      exists vs. split; [exact E|]. rewrite <- Happ. exact Hcs.
Qed.

(** With fuel above the rank of the start the view is built, and its nodes
    are the tasks reached from the start. *)
Lemma build_hierarchy_ok (rank : string -> nat) :
  ranked rank tree ->
  forall (fuel : nat) (tid : string) (t : Task.Task),
    (rank tid < fuel)%nat -> tasks tree !! tid = Some t ->
    exists children,
      build_hierarchy fuel tree tid
      = Some (Node (Task.id t) (Task.type t) (Task.status t) children)
      /\ covers tree
           (view_nodes (Node (Task.id t) (Task.type t) (Task.status t)
                          children)) [tid].
Proof.
  intros Hr. induction fuel as [|fuel IH]; intros tid t Hlt Ht; [lia|].
  cbn [build_hierarchy]. rewrite Ht.
  destruct (build_children_ok rank fuel) with
    (cs := default [] (relationships tree !! tid)) (vs0 := @nil View)
    (done := @nil string) as (vs & E & Hcov).
  - intros tid' t' Hlt' Ht'. destruct (IH tid' t' Hlt' Ht') as (cs' & E' & H').
    eexists. split; [exact E' | exact H'].
  - intros c Hc. destruct (relationships tree !! tid) as [cs|] eqn:Hcs.
    + cbn in Hc. specialize (Hr tid cs c Hcs Hc). lia.
    + cbn in Hc. inversion Hc.
  - apply covers_nil.
  - rewrite E. exists vs. split; [reflexivity|].
    cbn [view_nodes]. apply covers_node; [exact Ht|].
    cbn [app] in Hcov. exact Hcov.
Qed.

End HierarchyFacts.

(** X20: on a forest, with fuel above the rank of the task,
    [get_task_hierarchy(id)] of a present task returns a view whose root
    carries the task's id, type and status and whose nodes are exactly the
    tasks reached from it along the adjacency map, each with its current
    status; an unknown id gives no view. *)
Theorem hierarchy_shows_the_subtree
  (tree : DelegationTree.DelegationTree) (task_id : string)
  (task : Task.Task) (rank : string -> nat) (fuel : nat) :
  DelegationTree.tasks tree !! task_id = Some task ->
  ranked rank tree ->
  (rank task_id < fuel)%nat ->
  exists children,
    TreeOps.get_task_hierarchy fuel tree task_id
    = Some (Some (TreeOps.Node (Task.id task) (Task.type task)
                    (Task.status task) children))
    /\ (forall n,
          n ∈ TreeOps.view_nodes
                (TreeOps.Node (Task.id task) (Task.type task)
                   (Task.status task) children) ->
          exists d t,
            descendant tree task_id d
            /\ DelegationTree.tasks tree !! d = Some t
            /\ n = (Task.id t, Task.status t))
    /\ (forall d,
          descendant tree task_id d ->
          exists t,
            DelegationTree.tasks tree !! d = Some t
            /\ (Task.id t, Task.status t)
               ∈ TreeOps.view_nodes
                   (TreeOps.Node (Task.id task) (Task.type task)
                      (Task.status task) children))
    /\ (forall fuel' x,
          DelegationTree.tasks tree !! x = None ->
          TreeOps.get_task_hierarchy fuel' tree x = Some None).
Proof.
  intros Ht Hr Hlt.
  destruct (build_hierarchy_ok tree rank Hr fuel task_id task Hlt Ht)
    as (children & E & [A B]).
  exists children. unfold TreeOps.get_task_hierarchy. rewrite Ht, E.
  split; [reflexivity|]. split; [|split].
  - intros n Hn. destruct (A n Hn) as (c & d & t & Hc & Hd & Hl & En).
    apply list_elem_of_singleton in Hc as ->. eauto.
  - intros d Hd. apply (B task_id d); [left | exact Hd].
  - intros fuel' x Hx. rewrite Hx. reflexivity.
Qed.

Lemma hierarchy_shows_the_subtree_witness :
  exists children,
    TreeOps.get_task_hierarchy 2 Examples.family_tree "t5"
    = Some (Some (TreeOps.Node
                    (Task.id (Task.add_child Examples.task5 "t1"))
                    (Task.type (Task.add_child Examples.task5 "t1"))
                    (Task.status (Task.add_child Examples.task5 "t1"))
                    children))
    /\ (forall n,
          n ∈ TreeOps.view_nodes
                (TreeOps.Node
                   (Task.id (Task.add_child Examples.task5 "t1"))
                   (Task.type (Task.add_child Examples.task5 "t1"))
                   (Task.status (Task.add_child Examples.task5 "t1"))
                   children) ->
          exists d t,
            descendant Examples.family_tree "t5" d
            /\ DelegationTree.tasks Examples.family_tree !! d = Some t
            /\ n = (Task.id t, Task.status t))
    /\ (forall d,
          descendant Examples.family_tree "t5" d ->
          exists t,
            DelegationTree.tasks Examples.family_tree !! d = Some t
            /\ (Task.id t, Task.status t)
               ∈ TreeOps.view_nodes
                   (TreeOps.Node
                      (Task.id (Task.add_child Examples.task5 "t1"))
                      (Task.type (Task.add_child Examples.task5 "t1"))
                      (Task.status (Task.add_child Examples.task5 "t1"))
                      children))
    /\ (forall fuel' x,
          DelegationTree.tasks Examples.family_tree !! x = None ->
          TreeOps.get_task_hierarchy fuel' Examples.family_tree x = Some None).
Proof.
  apply (hierarchy_shows_the_subtree Examples.family_tree "t5"
           (Task.add_child Examples.task5 "t1") Examples.family_rank 2).
  - reflexivity.
  - exact family_tree_ranked.
  - cbn. lia.
Defined.

Section CancelViewFacts.

Import DelegationTree.

Lemma only_cancels_present_rev tr tr' x :
  only_cancels tr tr' ->
  is_Some (tasks tr' !! x) -> is_Some (tasks tr !! x).
Proof.
  intros (_ & N & _) [t Ht]. destruct (tasks tr !! x) as [t0|] eqn:Hx;
    [eauto|]. rewrite (N x Hx) in Ht. discriminate.
Qed.

Lemma only_cancels_descendant_rev tr tr' a d :
  only_cancels tr tr' -> descendant tr' a d -> descendant tr a d.
Proof.
  intros Hoc Hd. induction Hd as [tid Hp | tid cs c d Hp Hr Hc _ IH].
  - apply descendant_self. eapply only_cancels_present_rev; eauto.
  - eapply descendant_child; eauto.
    + eapply only_cancels_present_rev; eauto.
    + destruct Hoc as (R & _). rewrite <- R. exact Hr.
Qed.

End CancelViewFacts.

Lemma guard_lists_three_statuses s :
  CommandCenter.status_in_guard s = true
  <-> In s ["completed"; "failed"; "cancelled"]%string.
Proof.
  unfold CommandCenter.status_in_guard. cbn [In].
  destruct (String.eqb_spec s "completed");
    destruct (String.eqb_spec s "failed");
    destruct (String.eqb_spec s "cancelled"); cbn; split; intros H;
    try reflexivity; try discriminate; auto;
    destruct H as [H|[H|[H|[]]]]; congruence.
Qed.

(** X21: on a forest, [cancel_task(id)] of a present task whose status is
    none of ["completed"], ["failed"] and ["cancelled"] returns [True], and
    the view that [get_task_hierarchy(id)] then returns shows every node
    with status ["cancelled"]. *)
Theorem cancelled_subtree_shows_cancelled
  (cc : CommandCenter.CommandCenter) (task_id : string) (task : Task.Task)
  (rank : string -> nat) (fuel : nat) :
  DelegationTree.get_task (CommandCenter.delegation_tree cc) task_id
    = Some task ->
  ~ In (Task.status task) ["completed"; "failed"; "cancelled"]%string ->
  ranked rank (CommandCenter.delegation_tree cc) ->
  (rank task_id < fuel)%nat ->
  exists cc' v,
    CommandCenter.cancel_task fuel cc task_id = Some (cc', true)
    /\ TreeOps.get_task_hierarchy fuel (CommandCenter.delegation_tree cc')
         task_id = Some (Some v)
    /\ Forall (fun n => snd n = "cancelled"%string) (TreeOps.view_nodes v).
Proof.
  intros Ht Hnt Hr Hlt.
  destruct (cancel_recursive_ok rank fuel task_id _ Hr Hlt)
    as (tr' & E & Hoc & Hd).
  assert (Hpres : is_Some (DelegationTree.tasks tr' !! task_id)).
  { eapply only_cancels_present; [exact Hoc|].
    unfold DelegationTree.get_task in Ht. rewrite Ht. eauto. }
  destruct Hpres as [t' Ht'].
  destruct (build_hierarchy_ok tr' rank
              (only_cancels_ranked rank _ _ Hoc Hr) fuel task_id t' Hlt Ht')
    as (children & Eb & [A _]).
  exists (CommandCenter.set_delegation_tree cc tr'). eexists.
  unfold CommandCenter.cancel_task. rewrite Ht.
  assert (Hg : CommandCenter.status_in_guard (Task.status task) = false).
  { destruct (CommandCenter.status_in_guard (Task.status task)) eqn:Hin;
      [|reflexivity].
    apply guard_lists_three_statuses in Hin. contradiction. }
  rewrite Hg, E.
  split; [reflexivity|].
  unfold TreeOps.get_task_hierarchy. cbn [CommandCenter.delegation_tree
    CommandCenter.set_delegation_tree]. rewrite Ht', Eb.
  split; [reflexivity|].
  rewrite Forall_forall. intros n Hn.
  destruct (A n Hn) as (c & d & t & Hc & Hdesc & Hl & ->).
  apply list_elem_of_singleton in Hc as ->.
  apply (only_cancels_descendant_rev _ _ _ _ Hoc) in Hdesc.
  destruct (Hd d Hdesc) as (t2 & Hl2 & Hs).
  rewrite Hl in Hl2. inversion Hl2; subst. exact Hs.
Qed.

Lemma cancelled_subtree_shows_cancelled_witness :
  exists cc' v,
    CommandCenter.cancel_task 2 Examples.family_center "t5" = Some (cc', true)
    /\ TreeOps.get_task_hierarchy 2 (CommandCenter.delegation_tree cc') "t5"
       = Some (Some v)
    /\ Forall (fun n => snd n = "cancelled"%string) (TreeOps.view_nodes v).
Proof.
  apply (cancelled_subtree_shows_cancelled Examples.family_center "t5"
           (Task.add_child Examples.task5 "t1") Examples.family_rank 2).
  - reflexivity.
  - intros [H|[H|[H|[]]]]; discriminate H.
  - exact family_tree_ranked.
  - cbn. lia.
Defined.

(** ** CommandCenter: submission and refused cancellations *)

(** X22: [submit_task] returns the new id exactly when [add_task] returns:
    the task is then stored with status ["pending"] and put at the end of
    the pending queue under its priority, and the agents are untouched.
    When the parent id is given but absent it returns [None] and queues
    nothing, yet the new task stays in the tree's task map, still
    ["pending"], with the adjacency map as it was. *)
Theorem submit_task_outcomes :
  forall (cc : CommandCenter.CommandCenter) (fresh_id task_type : string)
         (details : Task.Payload) (priority : Z) (parent_id : option string)
         (deadline : option Z),
    let r := CommandCenterOps.submit_task cc fresh_id task_type details
               priority parent_id deadline in
    CommandCenter.agent_registry (fst r) = CommandCenter.agent_registry cc
    /\ (exists stored,
          DelegationTree.get_task (CommandCenter.delegation_tree (fst r))
            fresh_id = Some stored
          /\ Task.status stored = "pending"%string
          /\ Task.priority stored = priority
          /\ ((snd r = Some fresh_id
               /\ Orchestrator.task_queue
                    (CommandCenter.task_orchestrator (fst r))
                  = Orchestrator.task_queue
                      (CommandCenter.task_orchestrator cc)
                    ++ [(priority, stored)])
              \/ (snd r = None
                  /\ DelegationTree.truthy parent_id = true
                  /\ DelegationTree.get_task
                       (CommandCenter.delegation_tree cc)
                       (default ""%string parent_id) = None
                  /\ CommandCenter.task_orchestrator (fst r)
                     = CommandCenter.task_orchestrator cc
                  /\ DelegationTree.relationships
                       (CommandCenter.delegation_tree (fst r))
                     = DelegationTree.relationships
                         (CommandCenter.delegation_tree cc)))).
Proof.
  intros cc fresh_id task_type details priority parent_id deadline.
  cbv zeta. unfold CommandCenterOps.submit_task, DelegationTree.add_task.
  cbv zeta.
  set (new_task := Task.create fresh_id task_type details priority deadline 3).
  change (Task.id new_task) with fresh_id.
  unfold DelegationTree.get_task.
  destruct (DelegationTree.truthy parent_id) eqn:Htr.
  - set (p := default ""%string parent_id).
    destruct (<[fresh_id := new_task]>
                (DelegationTree.tasks (CommandCenter.delegation_tree cc))
                !! p) as [ptask|] eqn:Hp.
    + cbn [fst snd CommandCenter.agent_registry
           CommandCenter.delegation_tree CommandCenter.task_orchestrator
           DelegationTree.tasks].
      split; [reflexivity|].
      assert (Hs : Task.status (Task.add_child new_task fresh_id)
                   = "pending"%string)
        by (unfold Task.add_child; destruct (existsb _ _); reflexivity).
      assert (Hpr : Task.priority (Task.add_child new_task fresh_id)
                    = priority)
        by (unfold Task.add_child; destruct (existsb _ _); reflexivity).
      destruct (decide (p = fresh_id)) as [Heq|Hne].
      * rewrite Heq in *. rewrite lookup_insert_eq in Hp.
        inversion Hp; subst ptask. rewrite lookup_insert_eq.
        exists (Task.add_child new_task fresh_id).
        split; [reflexivity|]. split; [exact Hs|]. split; [exact Hpr|].
        left. split; [reflexivity|].
        cbn [default]. unfold Orchestrator.add_task, PriorityQueue.put.
        cbn [Orchestrator.task_queue Orchestrator.set_task_queue].
        rewrite ?Hpr. reflexivity.
      * rewrite lookup_insert_ne by exact Hne. rewrite lookup_insert_eq.
        exists new_task. split; [reflexivity|]. split; [reflexivity|].
        split; [reflexivity|]. left. split; reflexivity.
    + cbn [fst snd CommandCenter.agent_registry
           CommandCenter.delegation_tree CommandCenter.task_orchestrator
           CommandCenter.set_delegation_tree DelegationTree.tasks
           DelegationTree.relationships].
      split; [reflexivity|]. rewrite lookup_insert_eq.
      exists new_task. split; [reflexivity|]. split; [reflexivity|].
      split; [reflexivity|]. right. split; [reflexivity|].
      split; [reflexivity|]. split; [|split; reflexivity].
      destruct (decide (fresh_id = p)) as [Heq|Hne].
      * rewrite Heq, lookup_insert_eq in Hp. discriminate.
      * rewrite lookup_insert_ne in Hp by exact Hne. exact Hp.
  - cbn [fst snd CommandCenter.agent_registry
         CommandCenter.delegation_tree CommandCenter.task_orchestrator
         DelegationTree.tasks].
    split; [reflexivity|]. rewrite lookup_insert_eq.
    exists new_task. split; [reflexivity|]. split; [reflexivity|].
    split; [reflexivity|]. left. split; reflexivity.
Qed.

(** X23: whenever [cancel_task(id)] returns, it returns [False] exactly
    for an unknown id and for a task whose status is ["completed"],
    ["failed"] or ["cancelled"], and then nothing has changed. *)
Theorem cancel_task_refusals
  (fuel : nat) (cc cc' : CommandCenter.CommandCenter) (task_id : string)
  (b : bool) :
  CommandCenter.cancel_task fuel cc task_id = Some (cc', b) ->
  (b = false
   <-> (DelegationTree.get_task (CommandCenter.delegation_tree cc) task_id
        = None
        \/ exists task,
             DelegationTree.get_task (CommandCenter.delegation_tree cc)
               task_id = Some task
             /\ In (Task.status task)
                  ["completed"; "failed"; "cancelled"]%string))
  /\ (b = false -> cc' = cc).
Proof.
  unfold CommandCenter.cancel_task. intros H.
  destruct (DelegationTree.get_task (CommandCenter.delegation_tree cc) task_id)
    as [task|] eqn:Hg.
  - destruct (CommandCenter.status_in_guard (Task.status task)) eqn:Hs.
    + inversion H; subst. split; [|reflexivity].
      split; [|reflexivity]. intros _. right. exists task.
      split; [reflexivity | apply guard_lists_three_statuses; exact Hs].
    + destruct (CommandCenter._cancel_recursive fuel task_id _) as [tr'|];
        [|discriminate].
      inversion H; subst. split; [|discriminate].
      split; [discriminate|]. intros [Hn|(t & Ht & Hin)]; [discriminate|].
      inversion Ht; subst. apply guard_lists_three_statuses in Hin. congruence.
  - inversion H; subst. split; [|reflexivity].
    split; [|reflexivity]. intros _. left. reflexivity.
Qed.

Lemma cancel_task_refusals_witness :
  (false = false
   <-> (DelegationTree.get_task
          (CommandCenter.delegation_tree Examples.family_center) "nobody"
        = None
        \/ exists task,
             DelegationTree.get_task
               (CommandCenter.delegation_tree Examples.family_center)
               "nobody" = Some task
             /\ In (Task.status task)
                  ["completed"; "failed"; "cancelled"]%string))
  /\ (false = false -> Examples.family_center = Examples.family_center).
Proof.
  apply (cancel_task_refusals 1 Examples.family_center Examples.family_center
           "nobody" false).
  reflexivity.
Defined.

(** ** DelegationTree: removal *)

Section RemoveFacts.

Import DelegationTree TreeOps.

Lemma remove_one_sublist x l : sublist (remove_one x l) l.
Proof.
  induction l as [|y l IH]; cbn [remove_one]; [constructor|].
  destruct (String.eqb y x).
  - apply sublist_cons. reflexivity.
  - apply sublist_skip. exact IH.
Qed.

Lemma remove_one_keeps x c l : c ∈ l -> c <> x -> c ∈ remove_one x l.
Proof.
  intros Hc Hne. induction l as [|y l IH]; cbn [remove_one];
    [inversion Hc|].
  destruct (String.eqb_spec y x) as [->|Hyx].
  - apply elem_of_cons in Hc as [->|Hc]; [congruence | exact Hc].
  - apply elem_of_cons in Hc as [->|Hc]; [left | right; auto].
Qed.

Lemma remove_one_nodup x l : NoDup l -> x ∉ remove_one x l.
Proof.
  induction l as [|y l IH]; cbn [remove_one]; intros Hnd.
  - intros H; inversion H.
  - apply NoDup_cons in Hnd as [Hy Hnd].
    destruct (String.eqb_spec y x) as [->|Hyx]; [exact Hy|].
    intros H. apply elem_of_cons in H as [->|H]; [congruence|].
    exact (IH Hnd H).
Qed.

Lemma descendant_rank rank tr a d :
  ranked rank tr -> descendant tr a d -> (rank d <= rank a)%nat.
Proof.
  intros Hr Hd. induction Hd as [tid Hp | tid cs c d Hp Hrel Hc _ IH];
    [lia|].
  specialize (Hr tid cs c Hrel Hc). lia.
Qed.

Variable tree0 : DelegationTree.DelegationTree.
Variable rank : string -> nat.
Hypothesis tree0_ranked : ranked rank tree0.

Lemma shrunk_refl : shrunk tree0 tree0.
Proof.
  constructor.
  - intros x. right. reflexivity.
  - intros p cs' Hp. exists cs'. split; [exact Hp|]. split; [reflexivity|].
    intros c Hc Hn. contradiction.
  - intros p [cs Hp] Hn. congruence.
  - intros p cs c [t Hp] Hn. congruence.
  - intros p [t Hp] Hn. congruence.
  - intros p cs cs' c Hp _ Hp' Hc Ht. congruence.
Qed.

Lemma shrunk_present tr x t :
  shrunk tree0 tr -> tasks tr !! x = Some t -> tasks tree0 !! x = Some t.
Proof.
  intros Hs Hx. destruct (shrunk_tasks _ _ Hs x) as [E|E]; congruence.
Qed.

(** The last statements of [remove_task], after the loop. *)
Lemma remove_last_ok tr trf task_id t :
  shrunk tree0 tr ->
  tasks tr !! task_id = Some t ->
  shrunk tree0 trf ->
  (forall x, tasks tr !! x = None -> tasks trf !! x = None) ->
  (forall c, c ∈ default [] (relationships tr !! task_id) ->
             tasks trf !! c = None) ->
  (forall x, is_Some (tasks tr !! x) -> tasks trf !! x = None ->
             exists c, c ∈ default [] (relationships tr !! task_id)
                       /\ descendant tree0 c x) ->
  is_Some (tasks trf !! task_id)
  /\ removed_from tree0 tr task_id
       {| tasks := delete task_id (tasks trf);
          relationships :=
            delete task_id (remove_one task_id <$> relationships trf) |}.
Proof.
  intros Hs Ht Hsf HM Hkids HD.
  assert (Ht0 : tasks tree0 !! task_id = Some t)
    by exact (shrunk_present tr task_id t Hs Ht).
  assert (Hsub : forall c, c ∈ default [] (relationships tr !! task_id) ->
                   exists cs, relationships tree0 !! task_id = Some cs
                              /\ c ∈ cs).
  { intros c Hc. destruct (relationships tr !! task_id) as [cs'|] eqn:Hr;
      [|cbn in Hc; inversion Hc].
    destruct (shrunk_lists _ _ Hs _ _ Hr) as (cs & Hcs & Hsl & _).
    exists cs. split; [exact Hcs|]. eapply elem_of_sublist; eauto. }
  assert (Hpres : is_Some (tasks trf !! task_id)).
  { destruct (tasks trf !! task_id) as [t'|] eqn:Hf; [eauto|].
    destruct (HD task_id) as (c & Hc & Hdesc); [eauto | exact Hf|].
    destruct (Hsub c Hc) as (cs & Hcs & Hin).
    pose proof (tree0_ranked _ _ _ Hcs Hin).
    pose proof (descendant_rank _ _ _ _ tree0_ranked Hdesc). lia. }
  split; [exact Hpres|].
  split; [|split; [|split]].
  - constructor; cbn [tasks relationships].
    + intros x. destruct (decide (x = task_id)) as [->|Hne].
      * left. apply lookup_delete_eq.
      * rewrite lookup_delete_ne by congruence.
        apply (shrunk_tasks _ _ Hsf).
    + intros p cs' Hp.
      destruct (decide (p = task_id)) as [->|Hne];
        [rewrite lookup_delete_eq in Hp; discriminate|].
      rewrite lookup_delete_ne in Hp by congruence.
      rewrite lookup_fmap in Hp.
      destruct (relationships trf !! p) as [csf|] eqn:Hpf;
        [|discriminate]. cbn in Hp. inversion Hp; subst cs'. clear Hp.
      destruct (shrunk_lists _ _ Hsf _ _ Hpf) as (cs & Hcs & Hsl & Hmiss).
      exists cs. split; [exact Hcs|]. split.
      * etransitivity; [apply remove_one_sublist | exact Hsl].
      * intros c Hc Hn. destruct (decide (c = task_id)) as [->|Hcne].
        -- split; [eauto | apply lookup_delete_eq].
        -- assert (Hncf : c ∉ csf)
             by (intros Hin; apply Hn, remove_one_keeps; assumption).
           destruct (Hmiss c Hc Hncf) as [Hc0 Hcf]. split; [exact Hc0|].
           rewrite lookup_delete_ne by congruence. exact Hcf.
    + intros p Hp0 Hp.
      destruct (decide (p = task_id)) as [->|Hne];
        [apply lookup_delete_eq|].
      rewrite lookup_delete_ne in Hp by congruence.
      rewrite lookup_fmap in Hp.
      destruct (relationships trf !! p) as [csf|] eqn:Hpf;
        [discriminate|].
      rewrite lookup_delete_ne by congruence.
      apply (shrunk_entries _ _ Hsf); assumption.
    + intros p cs c Hp0 Hp Hcs Hc.
      assert (Hcf : tasks trf !! c = None).
      { destruct (decide (p = task_id)) as [->|Hne].
        - destruct (relationships tr !! task_id) as [cs'|] eqn:Hr.
          + destruct (shrunk_lists _ _ Hs _ _ Hr) as (cs2 & Hcs2 & _ & Hmiss).
            rewrite Hcs in Hcs2. inversion Hcs2; subst cs2.
            destruct (decide (c ∈ cs')) as [Hin|Hnin].
            * apply Hkids. cbn. exact Hin.
            * apply HM. apply (Hmiss c Hc Hnin).
          + pose proof (shrunk_entries _ _ Hs task_id (ltac:(eauto)) Hr).
            congruence.
        - rewrite lookup_delete_ne in Hp by congruence.
          eapply (shrunk_children _ _ Hsf); eauto. }
      destruct (decide (c = task_id)) as [->|Hcne];
        [apply lookup_delete_eq|].
      rewrite lookup_delete_ne by congruence. exact Hcf.
    + intros p Hp0 Hp.
      destruct (decide (p = task_id)) as [->|Hne];
        [apply lookup_delete_eq|].
      rewrite lookup_delete_ne in Hp by congruence.
      rewrite lookup_delete_ne by congruence.
      rewrite lookup_fmap, (shrunk_gone _ _ Hsf p Hp0 Hp). reflexivity.
    + intros p cs cs' c Hcs Hnd Hp Hc Hc0.
      destruct (decide (p = task_id)) as [->|Hne];
        [rewrite lookup_delete_eq in Hp; discriminate|].
      rewrite lookup_delete_ne in Hp by congruence.
      rewrite lookup_fmap in Hp.
      destruct (relationships trf !! p) as [csf|] eqn:Hpf;
        [|discriminate]. cbn in Hp. inversion Hp; subst cs'. clear Hp.
      destruct (shrunk_lists _ _ Hsf _ _ Hpf) as (cs2 & Hcs2 & Hsl & _).
      rewrite Hcs in Hcs2. inversion Hcs2; subst cs2.
      assert (Hndf : NoDup csf) by (eapply sublist_NoDup; eauto).
      destruct (decide (c = task_id)) as [->|Hcne];
        [exfalso; exact (remove_one_nodup _ _ Hndf Hc)|].
      rewrite lookup_delete_ne by congruence.
      eapply (shrunk_nodup _ _ Hsf); eauto.
      eapply elem_of_sublist; [exact Hc | apply remove_one_sublist].
  - cbn [tasks]. intros x Hx.
    destruct (decide (x = task_id)) as [->|Hne]; [apply lookup_delete_eq|].
    rewrite lookup_delete_ne by congruence. apply HM. exact Hx.
  - cbn [tasks]. apply lookup_delete_eq.
  - cbn [tasks]. intros x Hx Hgone.
    destruct (decide (x = task_id)) as [->|Hne].
    + apply descendant_self. rewrite Ht0. eauto.
    + rewrite lookup_delete_ne in Hgone by congruence.
      destruct (HD x Hx Hgone) as (c & Hc & Hdesc).
      destruct (Hsub c Hc) as (cs & Hcs & Hin).
      eapply descendant_child; eauto.
Qed.

(** The loop over the copied child list, given that each recursive call
    works. *)
Lemma remove_children_ok (fuel : nat)
  (IH : forall task_id tr, shrunk tree0 tr -> (rank task_id < fuel)%nat ->
          exists tr' b, remove_task fuel task_id tr = Some (Removed tr' b)
                        /\ removed_from tree0 tr task_id tr') :
  forall (cs : list string) (tr : DelegationTree.DelegationTree) (b : bool),
    shrunk tree0 tr ->
    (forall c, c ∈ cs -> (rank c < fuel)%nat) ->
    exists trf b',
      fold_left
        (fun acc child_id =>
           match acc with
           | Some (Removed tr _) => remove_task fuel child_id tr
           | other => other
           end) cs (Some (Removed tr b)) = Some (Removed trf b')
      /\ shrunk tree0 trf
      /\ (forall x, tasks tr !! x = None -> tasks trf !! x = None)
      /\ (forall c, c ∈ cs -> tasks trf !! c = None)
      /\ (forall x, is_Some (tasks tr !! x) -> tasks trf !! x = None ->
                    exists c, c ∈ cs /\ descendant tree0 c x).
Proof.
  induction cs as [|c cs IHcs]; intros tr b Hs Hrank.
  - exists tr, b. split; [reflexivity|]. split; [exact Hs|].
    split; [auto|]. split; [intros c Hc; inversion Hc|].
    intros x [t Hx] Hn. congruence.
  - cbn [fold_left].
    destruct (IH c tr Hs) as (tr1 & b1 & E1 & Hs1 & HM1 & Hc1 & HD1);
      [apply Hrank; left|].
    rewrite E1.
    destruct (IHcs tr1 b1 Hs1) as (trf & b' & E & Hsf & HM & Hk & HD).
    { intros c' Hc'. apply Hrank. right. exact Hc'. }
    exists trf, b'. split; [exact E|]. split; [exact Hsf|].
    split; [intros x Hx; apply HM, HM1, Hx|]. split.
    + intros c' Hc'. apply elem_of_cons in Hc' as [->|Hc'];
        [apply HM, Hc1 | apply Hk, Hc'].
    + intros x Hx Hgone.
      destruct (tasks tr1 !! x) as [t1|] eqn:Hx1.
      * destruct (HD x) as (c' & Hc' & Hd'); [rewrite Hx1; eauto | exact Hgone|].
        exists c'. split; [right; exact Hc' | exact Hd'].
      * exists c. split; [left | apply HD1; assumption].
Qed.

Lemma remove_task_ok :
  forall (fuel : nat) (task_id : string) (tr : DelegationTree.DelegationTree),
    shrunk tree0 tr -> (rank task_id < fuel)%nat ->
    exists tr' b,
      remove_task fuel task_id tr = Some (Removed tr' b)
      /\ removed_from tree0 tr task_id tr'
      /\ (b = true <-> is_Some (tasks tr !! task_id)).
Proof.
  induction fuel as [|fuel IH]; intros task_id tr Hs Hlt; [lia|].
  cbn [remove_task].
  destruct (tasks tr !! task_id) as [t|] eqn:Ht.
  - destruct (remove_children_ok fuel) with
      (cs := default [] (relationships tr !! task_id)) (tr := tr) (b := true)
      as (trf & b' & E & Hsf & HM & Hk & HD).
    + intros tid' tr' Hs' Hlt'.
      destruct (IH tid' tr' Hs' Hlt') as (tr2 & b2 & E2 & H2 & _). eauto.
    + exact Hs.
    + intros c Hc. destruct (relationships tr !! task_id) as [cs'|] eqn:Hr;
        [|cbn in Hc; inversion Hc]. cbn in Hc.
      destruct (shrunk_lists _ _ Hs _ _ Hr) as (cs & Hcs & Hsl & _).
      assert (Hin : c ∈ cs) by (eapply elem_of_sublist; eauto).
      pose proof (tree0_ranked _ _ _ Hcs Hin). lia.
    + rewrite E.
      destruct (remove_last_ok tr trf task_id t Hs Ht Hsf HM Hk HD)
        as ([t' Ht'] & Hrem).
      rewrite Ht'. eexists _, true. split; [reflexivity|].
      split; [exact Hrem|]. split; eauto.
  - exists tr, false. split; [reflexivity|]. split.
    + split; [exact Hs|]. split; [auto|]. split; [exact Ht|].
      intros x [tx Hx] Hn. congruence.
    + split; [discriminate | intros [t' Ht']; discriminate].
Qed.

End RemoveFacts.

(** X24: on a forest, with fuel above the rank of the task,
    [remove_task(id)] of a present task returns [True] (the final [del]
    never raises [KeyError]); every task reached from [id] is gone from
    the task map and from the keys of the adjacency map; every other task
    is as it was; a child list that is left is a sublist of what it was,
    having lost only removed tasks, and where it had no duplicates it names
    no removed task.  An unknown id returns [False] and changes nothing. *)
Theorem remove_task_removes_subtree
  (tree : DelegationTree.DelegationTree) (task_id : string)
  (task : Task.Task) (rank : string -> nat) (fuel : nat) :
  DelegationTree.tasks tree !! task_id = Some task ->
  ranked rank tree ->
  (rank task_id < fuel)%nat ->
  exists tree',
    TreeOps.remove_task fuel task_id tree = Some (TreeOps.Removed tree' true)
    /\ (forall d, descendant tree task_id d ->
          DelegationTree.tasks tree' !! d = None
          /\ DelegationTree.relationships tree' !! d = None)
    /\ (forall x, ~ descendant tree task_id x ->
          DelegationTree.tasks tree' !! x = DelegationTree.tasks tree !! x)
    /\ (forall p cs',
          DelegationTree.relationships tree' !! p = Some cs' ->
          exists cs,
            DelegationTree.relationships tree !! p = Some cs
            /\ sublist cs' cs
            /\ (forall c, c ∈ cs -> c ∉ cs' -> descendant tree task_id c)
            /\ (NoDup cs ->
                forall c, c ∈ cs' -> ~ descendant tree task_id c))
    /\ (forall fuel' x,
          DelegationTree.tasks tree !! x = None ->
          TreeOps.remove_task (S fuel') x tree
          = Some (TreeOps.Removed tree false)).
Proof.
  intros Ht Hr Hlt.
  destruct (remove_task_ok tree rank Hr fuel task_id tree
              (shrunk_refl tree) Hlt)
    as (tree' & b & E & (Hs & HM & Hgone & HD) & Hb).
  assert (b = true) as -> by (apply Hb; rewrite Ht; eauto).
  assert (Hall : forall a d, descendant tree a d ->
                   DelegationTree.tasks tree' !! a = None ->
                   DelegationTree.tasks tree' !! d = None).
  { intros a d Hd. induction Hd as [tid Hp | tid cs c d Hp Hrel Hc _ IH];
      [auto|].
    intros Ha. apply IH. eapply (shrunk_children _ _ Hs); eauto. }
  assert (Hpres : forall a d, descendant tree a d ->
                    is_Some (DelegationTree.tasks tree !! d)).
  { intros a d Hd. induction Hd; assumption. }
  exists tree'. split; [exact E|]. split; [|split; [|split; [|]]].
  - intros d Hd. assert (Hdg := Hall _ _ Hd Hgone). split; [exact Hdg|].
    apply (shrunk_gone _ _ Hs); [eapply Hpres; eauto | exact Hdg].
  - intros x Hx. destruct (shrunk_tasks _ _ Hs x) as [E'|E']; [|exact E'].
    destruct (DelegationTree.tasks tree !! x) as [tx|] eqn:Hxt;
      [|exact E'].
    exfalso. apply Hx, HD; [rewrite Hxt; eauto | exact E'].
  - intros p cs' Hp.
    destruct (shrunk_lists _ _ Hs _ _ Hp) as (cs & Hcs & Hsl & Hmiss).
    exists cs. split; [exact Hcs|]. split; [exact Hsl|]. split.
    + intros c Hc Hn. destruct (Hmiss c Hc Hn) as [Hc0 Hcg].
      apply HD; assumption.
    + intros Hnd c Hc Hdesc.
      destruct (shrunk_nodup _ _ Hs p cs cs' c Hcs Hnd Hp Hc
                  (Hpres _ _ Hdesc)) as [tc Htc].
      rewrite (Hall _ _ Hdesc Hgone) in Htc. discriminate.
  - intros fuel' x Hx. cbn [TreeOps.remove_task]. rewrite Hx. reflexivity.
Qed.

Lemma remove_task_removes_subtree_witness :
  exists tree',
    TreeOps.remove_task 2 "t5" Examples.family_tree
    = Some (TreeOps.Removed tree' true)
    /\ (forall d, descendant Examples.family_tree "t5" d ->
          DelegationTree.tasks tree' !! d = None
          /\ DelegationTree.relationships tree' !! d = None)
    /\ (forall x, ~ descendant Examples.family_tree "t5" x ->
          DelegationTree.tasks tree' !! x
          = DelegationTree.tasks Examples.family_tree !! x)
    /\ (forall p cs',
          DelegationTree.relationships tree' !! p = Some cs' ->
          exists cs,
            DelegationTree.relationships Examples.family_tree !! p = Some cs
            /\ sublist cs' cs
            /\ (forall c, c ∈ cs -> c ∉ cs' ->
                  descendant Examples.family_tree "t5" c)
            /\ (NoDup cs ->
                forall c, c ∈ cs' ->
                  ~ descendant Examples.family_tree "t5" c))
    /\ (forall fuel' x,
          DelegationTree.tasks Examples.family_tree !! x = None ->
          TreeOps.remove_task (S fuel') x Examples.family_tree
          = Some (TreeOps.Removed Examples.family_tree false)).
Proof.
  apply (remove_task_removes_subtree Examples.family_tree "t5"
           (Task.add_child Examples.task5 "t1") Examples.family_rank 2).
  - reflexivity.
  - exact family_tree_ranked.
  - cbn. lia.
Defined.

(** ** AgentRegistry: the queries *)

Section SkillFacts.

Import Orchestrator.

Lemma has_skill_In skill a :
  RegistryOps.has_skill skill a = true
  <-> In (Agent.SkillStr skill) (Agent.skills a).
Proof.
  unfold RegistryOps.has_skill. rewrite existsb_exists. split.
  - intros ([s|n] & Hin & Heq); [|discriminate].
    apply String.eqb_eq in Heq. subst s. exact Hin.
  - intros Hin. exists (Agent.SkillStr skill).
    split; [exact Hin | apply String.eqb_refl].
Qed.

(** An agent the skill loop lets through is listed by the registry's query
    or holds a skill object of that name. *)
Lemma skill_match_has_skill skill a :
  skill_match skill (Agent.skills a) = true ->
  RegistryOps.has_skill skill a = true
  \/ In (Agent.SkillObject (Some skill)) (Agent.skills a).
Proof.
  intros H. apply skill_match_In in H as [H|H]; [left|right; exact H].
  apply has_skill_In. exact H.
Qed.

Lemma has_the_skill_grow skill pre x best :
  has_the_skill skill pre best -> has_the_skill skill (pre ++ [x]) best.
Proof.
  destruct best as [[[[i k] a]|] s]; cbn; [|auto].
  intros [Hl Hc]. split; [|exact Hc].
  rewrite lookup_app_l; [exact Hl | eapply lookup_lt_Some; eauto].
Qed.

Lemma select_loop_has_the_skill task (agents : Agent.Registry) :
  forall (pre : Agent.Registry) (best best' : Best),
    has_the_skill (Task.type task) pre best ->
    select_loop task agents (length pre) best = Returns best' ->
    has_the_skill (Task.type task) (pre ++ agents) best'.
Proof.
  induction agents as [|[k a] agents IH]; intros pre best best' Hb Hsel.
  - cbn in Hsel. inversion Hsel; subst. rewrite app_nil_r. exact Hb.
  - assert (Hlen : length (pre ++ [(k, a)]) = S (length pre))
      by (rewrite length_app; cbn; lia).
    assert (Happ : (pre ++ [(k, a)]) ++ agents = pre ++ (k, a) :: agents)
      by (rewrite <- app_assoc; reflexivity).
    cbn [select_loop] in Hsel. rewrite <- Happ.
    destruct (skill_match (Task.type task) (Agent.skills a)) eqn:Hsk;
      cbn [negb] in Hsel.
    2:{ rewrite <- Hlen in Hsel. eapply IH; [|exact Hsel].
        apply has_the_skill_grow. exact Hb. }
    destruct (capacity_of a <=? Agent.workload a).
    { rewrite <- Hlen in Hsel. eapply IH; [|exact Hsel].
      apply has_the_skill_grow. exact Hb. }
    destruct (suitability_score a) as [s|ex]; [|discriminate].
    assert (Hnew : has_the_skill (Task.type task) (pre ++ [(k, a)])
                     (Some (length pre, k, a), s)).
    { cbn. split; [|apply skill_match_has_skill; exact Hsk].
      rewrite lookup_app_r by lia. rewrite Nat.sub_diag. reflexivity. }
    destruct (PyFloat.gt s (snd best)); rewrite <- Hlen in Hsel;
      (eapply IH; [|exact Hsel]); [exact Hnew|].
    apply has_the_skill_grow. exact Hb.
Qed.

Lemma by_skill_elem (reg : Agent.Registry) skill i k a :
  reg !! i = Some (k, a) -> RegistryOps.has_skill skill a = true ->
  a ∈ RegistryOps.get_agents_by_skill reg skill.
Proof.
  intros Hl Hs. unfold RegistryOps.get_agents_by_skill.
  apply list_elem_of_In. apply in_map_iff. exists (k, a).
  split; [reflexivity|]. apply filter_In. split; [|exact Hs].
  apply list_elem_of_In. eapply list_elem_of_lookup_2. exact Hl.
Qed.

End SkillFacts.

(** X25: whatever the agents' classes, the agent that a pass of
    [_assign_task] offers the task to is one of those that
    [get_agents_by_skill(task.type)] lists for the registry as the pass
    found it, or holds a skill object whose name is the task's type: the
    skill loop matches such an object by its name, which the query, a
    membership test on the skill list, does not. *)
Theorem assign_task_offers_to_skilled
  (receive_task : Agent.BaseAgent -> Task.Task -> Z
                  -> Agent.BaseAgent * Task.Task * bool)
  (o : Orchestrator.TaskOrchestrator) (now : Z) (i : nat) (priority : Z)
  (task : Task.Task) (q : PriorityQueue.t) :
  PriorityQueue.get (Orchestrator.task_queue o) = Some ((priority, task), q) ->
  offer_of (Orchestrator._assign_task receive_task o now) = Some i ->
  exists k a,
    Orchestrator.agent_registry o !! i = Some (k, a)
    /\ (a ∈ RegistryOps.get_agents_by_skill (Orchestrator.agent_registry o)
              (Task.type task)
        \/ In (Agent.SkillObject (Some (Task.type task))) (Agent.skills a)).
Proof.
  intros Hget Hoff. unfold offer_of, Orchestrator._assign_task in Hoff.
  rewrite Hget in Hoff.
  destruct (PriorityQueue.empty (Orchestrator.task_queue o));
    [discriminate|].
  cbv zeta in Hoff. destruct (Task.is_overdue task now); [discriminate|].
  cbn [Orchestrator.set_task_queue Orchestrator.agent_registry] in Hoff.
  unfold AgentRegistry.get_all_agents in Hoff.
  destruct (Orchestrator.select_loop task (Orchestrator.agent_registry o)
              0 Orchestrator.no_best) as [best|ex] eqn:Hsel; [|discriminate].
  pose proof (select_loop_has_the_skill task (Orchestrator.agent_registry o)
                [] Orchestrator.no_best best I Hsel) as Hsk.
  cbn [app] in Hsk.
  destruct best as [[[[i' k'] a]|] s].
  - destruct Hsk as [Hl Hs].
    assert (i' = i) as ->.
    { destruct (receive_task a task now) as [[agent1 task1] accepted].
      destruct accepted; cbn in Hoff; [congruence|].
      match type of Hoff with
      | context [if ?c then _ else _] => destruct c
      end; cbn in Hoff; congruence. }
    exists k', a. split; [exact Hl|].
    destruct Hs as [Hs|Hs]; [left | right; exact Hs].
    eapply by_skill_elem; eauto.
  - match type of Hoff with
    | context [if ?c then _ else _] => destruct c
    end; cbn in Hoff; [discriminate|].
    destruct (Orchestrator.sleep _); cbn in Hoff; discriminate.
Qed.

Lemma assign_task_offers_to_skilled_witness :
  exists k a,
    Orchestrator.agent_registry Examples.orchestrator !! 1%nat = Some (k, a)
    /\ (a ∈ RegistryOps.get_agents_by_skill
              (Orchestrator.agent_registry Examples.orchestrator)
              (Task.type Examples.task5)
        \/ In (Agent.SkillObject (Some (Task.type Examples.task5)))
             (Agent.skills a)).
Proof.
  apply (assign_task_offers_to_skilled Agent.receive_task
           Examples.orchestrator 0 1 (Task.priority Examples.task5)
           Examples.task5 []).
  - reflexivity.
  - vm_compute. reflexivity.
Defined.

(** An agent whose only skill is an object named ["x"] is offered a task of
    type ["x"], though [get_agents_by_skill("x")] does not list it. *)
Example skill_object_example :
  offer_of (Orchestrator._assign_task Agent.receive_task
              Examples.orchestrator_named 0) = Some 0%nat
  /\ RegistryOps.get_agents_by_skill
       (Orchestrator.agent_registry Examples.orchestrator_named)
       (Task.type Examples.task5) = [].
Proof. split; vm_compute; reflexivity. Qed.

(** X26: [reset_all_agents()] keeps the ids and their order, leaves every
    agent idle (workload 0, empty queue, empty inbox and audit log, status
    ["ready"], no errors), and commutes with the queries:
    [get_agent], [get_agents_by_role] and [get_agents_by_skill] find after
    it the reset states of the agents they found before. *)
Theorem reset_all_agents_commutes_with_queries :
  forall (reg : Agent.Registry) (now : Z),
    map fst (RegistryOps.reset_all_agents reg now) = map fst reg
    /\ Forall (fun e =>
                 Agent.workload (snd e) = 0
                 /\ Agent.priority_queue (snd e) = []
                 /\ Agent.communication_channel (snd e) = ∅
                 /\ Agent.audit_log (snd e) = []
                 /\ Agent.status (snd e) = "ready"%string
                 /\ Agent.error_count (snd e) = 0)
         (RegistryOps.reset_all_agents reg now)
    /\ (forall agent_id,
          Agent.get_agent (RegistryOps.reset_all_agents reg now) agent_id
          = (fun a => fst (Agent.reset a now))
              <$> Agent.get_agent reg agent_id)
    /\ (forall role,
          RegistryOps.get_agents_by_role
            (RegistryOps.reset_all_agents reg now) role
          = map (fun a => fst (Agent.reset a now))
              (RegistryOps.get_agents_by_role reg role))
    /\ (forall skill,
          RegistryOps.get_agents_by_skill
            (RegistryOps.reset_all_agents reg now) skill
          = map (fun a => fst (Agent.reset a now))
              (RegistryOps.get_agents_by_skill reg skill)).
Proof.
  intros reg now. unfold RegistryOps.reset_all_agents,
    RegistryOps.get_agents_by_role, RegistryOps.get_agents_by_skill.
  split; [|split; [|split; [|split]]].
  - rewrite List.map_map. reflexivity.
  - apply Forall_forall. intros e He.
    apply list_elem_of_In, in_map_iff in He as ([k a] & <- & _).
    cbn. repeat split; reflexivity.
  - intros agent_id. induction reg as [|[k a] reg IH]; cbn; [reflexivity|].
    destruct (String.eqb k agent_id); [reflexivity | exact IH].
  - intros role. induction reg as [|[k a] reg IH]; [reflexivity|].
    cbn [map List.filter fst snd Agent.role Agent.reset].
    destruct (String.eqb (Agent.role a) role);
      cbn [map snd fst]; [f_equal|]; exact IH.
  - intros skill. induction reg as [|[k a] reg IH]; [reflexivity|].
    cbn [map List.filter fst snd].
    change (RegistryOps.has_skill skill (Agent.reset a now).1)
      with (RegistryOps.has_skill skill a).
    destruct (RegistryOps.has_skill skill a);
      cbn [map snd fst]; [f_equal|]; exact IH.
Qed.

